(** * SilverBullet MCP bridge: content cache, search engine, session registry

    A shallow embedding of the TypeScript sources
    ([silverbullet-api.ts], [cache.ts], [mcp-server.ts], [server.ts],
    [middleware.ts]) and
    the properties of the specification that are checked against them.

    Conventions of the embedding:
    - a JavaScript [number] that the code uses as a timestamp, a count, a
      page number or an index is an integer ([Z] or [nat]);
    - a JavaScript string is a [string] of ASCII characters: letter case
      and white space are those of ASCII;
    - a plain object used as a dictionary is a [gmap string _] holding its
      own properties; where a key can come from a request header, the
      properties inherited from [Object.prototype] are modelled too;
    - an [async] function is a function on the process state [Runtime]
      returning either a value or the thrown error ([IO]);
    - the remote note store answers from a fixed snapshot [Remote] during
      one operation; every HTTP call is appended to [requests] and every
      [console.error] line to [console];
    - [RegExp] and the transport and handler objects of the MCP SDK are
      primitives of the platform: the first is a parameter ([Engine]), what
      the second do inside a request is an input of the session model;
    - [Array.prototype.sort] is the stable sort that ECMAScript requires;
    - the text rendering of tool results is modelled for [list-notes] only:
      the other tools return the data their text is rendered from. *)

From Stdlib Require Import ZArith List String Ascii Bool Lia Permutation Sorted.
From stdpp Require Import gmap strings.
Import ListNotations.

Local Open Scope string_scope.
Local Open Scope Z_scope.

(** ** JavaScript string primitives used by the sources *)

Module JS.

(** [s.endsWith(suffix)] *)
Definition endsWith (s suffix : string) : bool :=
  (String.length suffix <=? String.length s)%nat &&
  String.eqb
    (substring (String.length s - String.length suffix)
               (String.length suffix) s)
    suffix.

(** Truthiness of a string used as a condition: [""] is falsy. *)
Definition truthy (s : string) : bool := negb (String.eqb s "").

(** Truthiness of an optional string ([undefined] is falsy). *)
Definition truthyOpt (o : option string) : bool :=
  match o with
  | Some s => truthy s
  | None => false
  end.

Definition newline : ascii := "010"%char.

(** [s.split('\n')]: always at least one piece. *)
Fixpoint splitLines (s : string) : list string :=
  match s with
  | EmptyString => [EmptyString]
  | String c rest =>
      if Ascii.eqb c newline then EmptyString :: splitLines rest
      else
        match splitLines rest with
        | line :: lines => String c line :: lines
        | [] => [String c EmptyString]
        end
  end.

(** [pieces.join(sep)] *)
Fixpoint join (sep : string) (pieces : list string) : string :=
  match pieces with
  | [] => EmptyString
  | [piece] => piece
  | piece :: more => piece ++ sep ++ join sep more
  end.

(** White space removed by [trim], on ASCII text: tab, line feed,
    vertical tab, form feed, carriage return and space. *)
Definition isSpace (c : ascii) : bool :=
  let n := nat_of_ascii c in
  ((9 <=? n) && (n <=? 13))%nat || (n =? 32)%nat.

Fixpoint trimStart (s : string) : string :=
  match s with
  | EmptyString => EmptyString
  | String c rest => if isSpace c then trimStart rest else s
  end.

Fixpoint trimEnd (s : string) : string :=
  match s with
  | EmptyString => EmptyString
  | String c rest =>
      let kept := trimEnd rest in
      if isSpace c && String.eqb kept EmptyString then EmptyString
      else String c kept
  end.

Definition trim (s : string) : string := trimEnd (trimStart s).

(** [c.toLowerCase()] and [c.toUpperCase()] on ASCII letters. *)
Definition lowerChar (c : ascii) : ascii :=
  let n := nat_of_ascii c in
  if ((65 <=? n) && (n <=? 90))%nat then ascii_of_nat (n + 32) else c.

Definition upperChar (c : ascii) : ascii :=
  let n := nat_of_ascii c in
  if ((97 <=? n) && (n <=? 122))%nat then ascii_of_nat (n - 32) else c.

Fixpoint toLowerCase (s : string) : string :=
  match s with
  | EmptyString => EmptyString
  | String c rest => String (lowerChar c) (toLowerCase rest)
  end.

(** [s.includes(t)] *)
Fixpoint includes (s t : string) : bool :=
  String.prefix t s ||
  match s with
  | EmptyString => false
  | String _ rest => includes rest t
  end.

(** An index argument of [slice] made relative to the array: negative
    values count from the end, everything is clamped to [0, len]. *)
Definition relativeIndex (len i : Z) : Z :=
  if i <? 0 then Z.max (len + i) 0 else Z.min i len.

(** [array.slice(start, stop)] for integer arguments. *)
Definition slice {A} (l : list A) (start stop : Z) : list A :=
  let len := Z.of_nat (List.length l) in
  let from := relativeIndex len start in
  let final := relativeIndex len stop in
  firstn (Z.to_nat (final - from)) (skipn (Z.to_nat from) l).

(** [Math.ceil(a / b)] on integers; [None] when the quotient is not a
    finite number ([b = 0]). *)
Definition ceilDiv (a b : Z) : option Z :=
  if b =? 0 then None else Some (- ((- a) / b)).

End JS.

(** ** Data model ([types.ts]) *)

Inductive Perm := ro | rw.

Definition Perm_eqb (a b : Perm) : bool :=
  match a, b with
  | ro, ro | rw, rw => true
  | _, _ => false
  end.

Module SBFile.
Record t := mk {
  name : string;
  lastModified : Z;
  contentType : string;
  size : Z;
  perm : Perm
}.
End SBFile.

Module NoteInfo.
Record t := mk {
  name : string;
  perm : Perm
}.
End NoteInfo.

Module CacheEntry.
Record t := mk {
  content : string;
  lastModified : Z
}.
End CacheEntry.

(** ** Errors

    Every [throw new Error(...)] site of the sources has a constructor that
    carries the data interpolated in its message; [RuntimeError] is an error
    raised by the platform itself ([fetch] rejecting, a body that cannot be
    decoded) and rethrown as it is. *)

Inductive Url :=
| IndexUrl                      (* `${SB_API_BASE_URL}/index.json` *)
| NoteUrl (filename : string).  (* `${SB_API_BASE_URL}/${encodeURIComponent(filename)}` *)

Inductive Context :=
| ToListNotes
| ToReadNote (filename : string)
| ToWriteNote (filename : string)
| ToDeleteNote (filename : string).

Inductive Error :=
| RuntimeError (cause : string)
| FailedToConnect (url : Url) (cause : string)
    (* handleFetchError: "Failed to connect to SilverBullet API at URL: CAUSE" *)
| FailedResponse (context : Context) (url : Url) (status : Z) (statusText : string)
    (* handleResponseError: "Failed CONTEXT from SilverBullet API (URL): STATUS TEXT" *)
| FailedListing (status : Z) (statusText : string)
    (* getFullFileListingAPI: "Failed to get file listing: STATUS TEXT" *)
| FailedParseJSON (cause : string)
    (* listNotesAPI: "Failed to parse JSON response from SilverBullet API: CAUSE" *)
| FailedReadText (filename : string) (cause : string)
    (* readNoteAPI: "Failed to read text content for note FILE: CAUSE" *)
| NoteNotFound (filename : string)
    (* getCachedNoteContent: "Note FILE not found" *)
| SyntaxError (pattern : string).
    (* new RegExp(pattern, flags) rejecting the pattern *)

(** ** The remote store and the process state *)

(** What a [fetch] call comes back with. A body is either decoded or fails
    to decode with a cause. *)
Inductive Response (A : Type) :=
| NetworkFailure (cause : string)
| Ok (body : string + A)
| NotOk (status : Z) (statusText : string) (text : string + string).

Arguments NetworkFailure {A} cause.
Arguments Ok {A} body.
Arguments NotOk {A} status statusText text.

(** The answers of the note store, as one snapshot. In [body] and [text]
    the left injection is the cause of a decoding failure. *)
Record Remote := {
  GET_index : Response (list SBFile.t);
  GET_note : string -> Response string;
  PUT_note : string -> string -> Response unit;
  DELETE_note : string -> Response unit
}.

Inductive Request :=
| GetIndex
| GetNote (filename : string)
| PutNote (filename content : string)
| DeleteNote (filename : string).

(** A [console.error] line: the bracketed tag of the message and the name
    it mentions. *)
Record LogLine := { tag : string; subject : string }.

Record Runtime := {
  contentCache : gmap string CacheEntry.t;
  requests : list Request;
  console : list LogLine
}.

(** The body reads among the calls issued. *)
Definition isBodyRead (r : Request) : bool :=
  match r with
  | GetNote _ => true
  | _ => false
  end.

Definition bodyReads (rs : list Request) : nat :=
  List.length (List.filter isBodyRead rs).

(** The listing calls among the calls issued. *)
Definition isListing (r : Request) : bool :=
  match r with
  | GetIndex => true
  | _ => false
  end.

Definition listingCalls (rs : list Request) : nat :=
  List.length (List.filter isListing rs).

(** The writes among the calls issued. *)
Definition isWrite (r : Request) : bool :=
  match r with
  | PutNote _ _ => true
  | _ => false
  end.

Definition writes (rs : list Request) : nat :=
  List.length (List.filter isWrite rs).

Inductive Result (A : Type) :=
| Returns (a : A)
| Throws (e : Error).

Arguments Returns {A} a.
Arguments Throws {A} e.

Definition IO (A : Type) : Type := Runtime -> Result A * Runtime.

Definition ret {A} (a : A) : IO A := fun rt => (Returns a, rt).

Definition throw {A} (e : Error) : IO A := fun rt => (Throws e, rt).

Definition bind {A B} (m : IO A) (k : A -> IO B) : IO B :=
  fun rt =>
    match m rt with
    | (Returns a, rt') => k a rt'
    | (Throws e, rt') => (Throws e, rt')
    end.

(** [try { m } catch (error) { handler }] *)
Definition tryCatch {A} (m : IO A) (handler : Error -> IO A) : IO A :=
  fun rt =>
    match m rt with
    | (Returns a, rt') => (Returns a, rt')
    | (Throws e, rt') => handler e rt'
    end.

Notation "'let*' x ':=' m 'in' k" := (bind m (fun x => k))
  (at level 10, x name, m at level 100, k at level 200, only parsing).
Notation "'do' m 'then' k" := (bind m (fun _ => k))
  (at level 10, m at level 100, k at level 200, only parsing).

Definition send (r : Request) : IO unit :=
  fun rt => (Returns tt,
             {| contentCache := contentCache rt;
                requests := requests rt ++ [r];
                console := console rt |}).

Definition consoleError (t s : string) : IO unit :=
  fun rt => (Returns tt,
             {| contentCache := contentCache rt;
                requests := requests rt;
                console := console rt ++ [{| tag := t; subject := s |}] |}).

Definition getCache : IO (gmap string CacheEntry.t) :=
  fun rt => (Returns (contentCache rt), rt).

Definition setCache (filename : string) (e : CacheEntry.t) : IO unit :=
  fun rt => (Returns tt,
             {| contentCache := <[filename := e]> (contentCache rt);
                requests := requests rt;
                console := console rt |}).

(** [for (const item of items) { ... }] where an iteration pushes to a
    result array: the pushed elements, in order. *)
Fixpoint forOf {A B} (body : A -> IO (list B)) (items : list A) : IO (list B) :=
  match items with
  | [] => ret []
  | item :: more =>
      let* pushed := body item in
      let* later := forOf body more in
      ret (pushed ++ later)%list
  end.

(** A computation whose result and whose effect on the cache depend on the
    process state through the cache only. *)
Definition cacheOnly {A} (m : IO A) : Prop :=
  forall rt1 rt2,
    contentCache rt1 = contentCache rt2 ->
    fst (m rt1) = fst (m rt2) /\
    contentCache (snd (m rt1)) = contentCache (snd (m rt2)).

(** A computation that never throws. *)
Definition total {A} (m : IO A) : Prop :=
  forall rt, exists a rt', m rt = (Returns a, rt').

(** ** Remote store client ([silverbullet-api.ts]) *)

Module Api.
Section WithRemote.

Variable remote : Remote.

(** [handleFetchError]: logs and throws. *)
Definition handleFetchError {A} (url : Url) (cause : string) : IO A :=
  do consoleError "[API] Fetch failed" cause then
  throw (FailedToConnect url cause).

(** [handleResponseError]: reads the body of the error response (which
    may itself fail), logs it and throws. *)
Definition handleResponseError {A} (url : Url) (status : Z)
    (statusText : string) (text : string + string) (context : Context) : IO A :=
  match text with
  | inl cause => throw (RuntimeError cause)
  | inr responseText =>
      do consoleError "[API] Error response body" responseText then
      throw (FailedResponse context url status statusText)
  end.

Definition listNotesAPI : IO (list NoteInfo.t) :=
  do send GetIndex then
  match GET_index remote with
  | NetworkFailure cause => handleFetchError IndexUrl cause
  | NotOk status statusText text =>
      handleResponseError IndexUrl status statusText text ToListNotes
  | Ok (inl cause) =>
      do consoleError "[listNotesAPI] Failed to parse JSON response" cause then
      (* a second line shows the body of the response, or says that it
         could not be read *)
      do consoleError "[listNotesAPI] Response body" EmptyString then
      throw (FailedParseJSON cause)
  | Ok (inr files) =>
      ret (List.map
             (fun f => NoteInfo.mk (SBFile.name f) (SBFile.perm f))
             (List.filter (fun f => JS.endsWith (SBFile.name f) ".md") files))
  end.

(** No [try] around [fetch] or [json()] here: platform errors escape as
    they are. *)
Definition getFullFileListingAPI : IO (list SBFile.t) :=
  do send GetIndex then
  match GET_index remote with
  | NetworkFailure cause => throw (RuntimeError cause)
  | NotOk status statusText _ => throw (FailedListing status statusText)
  | Ok (inl cause) => throw (RuntimeError cause)
  | Ok (inr files) =>
      ret (List.filter (fun f => JS.endsWith (SBFile.name f) ".md") files)
  end.

Definition readNoteAPI (filename : string) : IO string :=
  do send (GetNote filename) then
  match GET_note remote filename with
  | NetworkFailure cause =>
      do consoleError "[readNoteAPI] Fetch failed" filename then
      handleFetchError (NoteUrl filename) cause
  | NotOk status statusText text =>
      handleResponseError (NoteUrl filename) status statusText text
        (ToReadNote filename)
  | Ok (inl cause) =>
      do consoleError "[readNoteAPI] Failed to read text content" filename then
      throw (FailedReadText filename cause)
  | Ok (inr content) => ret content
  end.

Definition writeNoteAPI (filename content : string) : IO unit :=
  do send (PutNote filename content) then
  match PUT_note remote filename content with
  | NetworkFailure cause =>
      do consoleError "[writeNoteAPI] Fetch failed" filename then
      handleFetchError (NoteUrl filename) cause
  | NotOk status statusText text =>
      handleResponseError (NoteUrl filename) status statusText text
        (ToWriteNote filename)
  | Ok _ => ret tt
  end.

Definition deleteNoteAPI (filename : string) : IO unit :=
  do send (DeleteNote filename) then
  match DELETE_note remote filename with
  | NetworkFailure cause =>
      do consoleError "[deleteNoteAPI] Fetch failed" filename then
      handleFetchError (NoteUrl filename) cause
  | NotOk status statusText text =>
      handleResponseError (NoteUrl filename) status statusText text
        (ToDeleteNote filename)
  | Ok _ => ret tt
  end.

End WithRemote.
End Api.

(** ** Content cache ([cache.ts]) *)

Module Cache.
Section WithRemote.

Variable remote : Remote.

(** [cached && cached.lastModified >= noteInfo.lastModified] *)
Definition servable (cached : option CacheEntry.t) (noteInfo : SBFile.t)
  : option CacheEntry.t :=
  match cached with
  | Some entry =>
      if CacheEntry.lastModified entry >=? SBFile.lastModified noteInfo
      then Some entry
      else None
  | None => None
  end.

Definition getCachedNoteContent (filename : string) (enableCaching : bool)
  : IO string :=
  if negb enableCaching then Api.readNoteAPI remote filename
  else
    let* files := Api.getFullFileListingAPI remote in
    match List.find (fun f => String.eqb (SBFile.name f) filename) files with
    | None => throw (NoteNotFound filename)
    | Some noteInfo =>
        let* cache := getCache in
        match servable (cache !! filename) noteInfo with
        | Some cached => ret (CacheEntry.content cached)
        | None =>
            let* content := Api.readNoteAPI remote filename in
            do setCache filename
                 (CacheEntry.mk content (SBFile.lastModified noteInfo)) then
            ret content
        end
    end.

End WithRemote.
End Cache.

(** ** Single-note tools ([mcp-server.ts]) *)

Inductive CreateNoteResult :=
| MustEndWithMd
    (* isError: "Filename must end with .md extension" *)
| AlreadyExists (filename : string)
    (* isError: "Note FILE already exists. Use overwrite=true to replace it." *)
| Created (overwrite : bool) (filename : string)
    (* "Successfully created note: FILE", "created/updated" with overwrite *)
| FailedToCreate (e : Error).
    (* isError: "Failed to create note: MESSAGE" *)

Module Tools.
Section WithRemote.

Variable remote : Remote.

(** The existence check of [create-note]: [true] when the read returned,
    [false] when it threw (the [catch] block is empty). *)
Definition noteExists (filename : string) : IO bool :=
  tryCatch
    (do Api.readNoteAPI remote filename then ret true)
    (fun _ => ret false).

Definition createNote (filename content : string) (overwrite : bool)
  : IO CreateNoteResult :=
  tryCatch
    (if negb (JS.endsWith filename ".md") then ret MustEndWithMd
     else
       let* blocked :=
         (if negb overwrite then noteExists filename else ret false) in
       if blocked then ret (AlreadyExists filename)
       else
         do Api.writeNoteAPI remote filename content then
         ret (Created overwrite filename))
    (fun e =>
       do consoleError "[MCP Tool: create-note] Error creating note" filename then
       ret (FailedToCreate e)).

End WithRemote.
End Tools.

(** ** Regular expressions

    [RegExp] is a primitive of the JavaScript runtime. The sources use three
    things of it: the constructor, which throws on a malformed pattern,
    the number of successive matches in a string
    ([[...s.matchAll(r)].length], equally [s.match(r).length] for a global
    pattern), and [r.test(s)]. An [Engine] provides them. *)

Record Flags := { global : bool; ignoreCase : bool }.

Record Engine := {
  regex : Type;
  compile : string -> Flags -> option regex;
  countMatches : regex -> string -> nat
}.

(** [r.test(s)] for a pattern without the [g] flag. *)
Definition test (E : Engine) (r : regex E) (s : string) : bool :=
  (0 <? countMatches E r s)%nat.

Module Pattern.

(** The characters of the class [[.*+?^${}()|[\]\\]] that the sources
    escape, in the order of the class. *)
Definition escapedClass : list ascii :=
  [ "."; "*"; "+"; "?"; "^"; "$"; "{"; "}"; "("; ")"; "|"; "["; "]"; "\" ]%char.

Definition inClass (c : ascii) : bool :=
  existsb (Ascii.eqb c) escapedClass.

(** [query.replace(/[.*+?^${}()|[\]\\]/g, '\\$&')] *)
Fixpoint escape (query : string) : string :=
  match query with
  | EmptyString => EmptyString
  | String c rest =>
      if inClass c then String "\" (String c (escape rest))
      else String c (escape rest)
  end.

(** *** What ECMAScript says about literal patterns

    [SyntaxCharacter] of the pattern grammar. Without the [u] flag every
    other character stands for itself, and so does a [SyntaxCharacter]
    after a backslash. *)
Definition SyntaxCharacter : list ascii :=
  [ "^"; "$"; "\"; "."; "*"; "+"; "?"; "("; ")"; "["; "]"; "{"; "}"; "|" ]%char.

Definition isSyntaxCharacter (c : ascii) : bool :=
  existsb (Ascii.eqb c) SyntaxCharacter.

(** [Literal p t]: the pattern [p] is written with plain characters and
    escaped syntax characters only, and spells the text [t]. *)
Inductive Literal : string -> string -> Prop :=
| Literal_empty : Literal EmptyString EmptyString
| Literal_char c p t :
    isSyntaxCharacter c = false ->
    Literal p t ->
    Literal (String c p) (String c t)
| Literal_escaped c p t :
    isSyntaxCharacter c = true ->
    Literal p t ->
    Literal (String "\" (String c p)) (String c t).

(** Two characters match: equal, or with [i] equal after [Canonicalize]
    (upper-casing). *)
Definition sameChar (ignoreCase : bool) (a b : ascii) : bool :=
  if ignoreCase then Ascii.eqb (JS.upperChar a) (JS.upperChar b)
  else Ascii.eqb a b.

(** The text [t] occurs at the start of [s]. *)
Fixpoint occursAt (ignoreCase : bool) (t s : string) : bool :=
  match t, s with
  | EmptyString, _ => true
  | String a t', String b s' => sameChar ignoreCase a b && occursAt ignoreCase t' s'
  | String _ _, EmptyString => false
  end.

(** Successive matches of a non-empty text, left to right: after a match
    the scan resumes behind it, [skip] characters further. *)
Fixpoint occurrencesFrom (ignoreCase : bool) (t : string) (skip : nat)
    (s : string) : nat :=
  match s with
  | EmptyString => O
  | String _ rest =>
      match skip with
      | S k => occurrencesFrom ignoreCase t k rest
      | O =>
          if occursAt ignoreCase t s
          then S (occurrencesFrom ignoreCase t (String.length t - 1) rest)
          else occurrencesFrom ignoreCase t O rest
      end
  end.

(** Number of matches of the literal text [t] in [s]; the empty text
    matches once at every position, the end included. *)
Definition occurrences (ignoreCase : bool) (t s : string) : nat :=
  match t with
  | EmptyString => S (String.length s)
  | _ => occurrencesFrom ignoreCase t O s
  end.

(** An engine that follows ECMAScript on literal patterns. *)
Definition Lawful (E : Engine) : Prop :=
  forall p t flags,
    Literal p t ->
    exists r,
      compile E p flags = Some r /\
      forall s, countMatches E r s = occurrences (ignoreCase flags) t s.

(** *** A reference engine for the literal fragment

    It reads exactly the literal patterns and rejects every other
    pattern, among them the malformed ones. *)
Fixpoint readLiteral (p : string) : option string :=
  match p with
  | EmptyString => Some EmptyString
  | String c rest =>
      if Ascii.eqb c "\" then
        match rest with
        | EmptyString => None
        | String d rest' =>
            if isSyntaxCharacter d
            then option_map (String d) (readLiteral rest')
            else None
        end
      else if isSyntaxCharacter c then None
      else option_map (String c) (readLiteral rest)
  end.

Definition literalEngine : Engine := {|
  regex := string * Flags;
  compile := fun p flags => option_map (fun t => (t, flags)) (readLiteral p);
  countMatches := fun r s => occurrences (ignoreCase (snd r)) (fst r) s
|}.

End Pattern.

(** ** Search results ([types.ts]) *)

Inductive MatchType := title | content.

Module SearchMatch.
Record t := mk {
  type : MatchType;
  line : Z;
  content : string;
  matchCount : nat;
  context : option string;
  startLine : option Z;
  endLine : option Z
}.
End SearchMatch.

Module SearchResult.
Record t := mk {
  filename : string;
  permission : Perm;
  matches : list SearchMatch.t;
  score : nat
}.
End SearchResult.

Inductive SearchType := searchContent | searchTitle | searchBoth.

Definition inTitle (st : SearchType) : bool :=
  match st with
  | searchTitle | searchBoth => true
  | searchContent => false
  end.

Definition inContent (st : SearchType) : bool :=
  match st with
  | searchContent | searchBoth => true
  | searchTitle => false
  end.

(** What [search-notes] returns, before it is rendered as text. *)
Inductive SearchOutcome :=
| SearchFailed (e : Error)
    (* isError: "Failed to search notes: MESSAGE" *)
| NoMatches
    (* "No matches found for QUERY in ..." *)
| SearchPage
    (regexInvalidFallback : bool)
    (totalResults : nat)
    (totalMatches : nat)
    (totalPages : option Z)
    (startIndex : Z)
    (paginatedResults : list SearchResult.t).

(** What [list-notes] returns: the text, or the error of the failure
    message. *)
Inductive ListOutcome :=
| Listed (text : string)
| ListFailed (e : Error).
    (* isError: "Failed to list notes: MESSAGE" *)

(** ** Search engine and listing ([mcp-server.ts]) *)

Module Search.

(** [matches.reduce((sum, match) => sum + match.matchCount, 0)] *)
Definition totalMatchCount (ms : list SearchMatch.t) : nat :=
  fold_left (fun sum m => (sum + SearchMatch.matchCount m)%nat) ms O.

(** [searchResults.sort((a, b) => b.score - a.score)]: the sort of the
    runtime is stable; insertion keeps an element before the elements of
    equal score that followed it. *)
Fixpoint insertByScore (a : SearchResult.t) (sorted : list SearchResult.t)
  : list SearchResult.t :=
  match sorted with
  | [] => [a]
  | b :: rest =>
      if (SearchResult.score b <=? SearchResult.score a)%nat
      then a :: b :: rest
      else b :: insertByScore a rest
  end.

Definition sortByScore (results : list SearchResult.t) : list SearchResult.t :=
  fold_right insertByScore [] results.

(** The results of score [k]. *)
Definition scoreIs (k : nat) (r : SearchResult.t) : bool :=
  (SearchResult.score r =? k)%nat.

(** [b] does not rank above [a]. *)
Definition notBelow (a b : SearchResult.t) : Prop :=
  (SearchResult.score b <= SearchResult.score a)%nat.

(** The score of a result is the sum of the counts of its matches. *)
Definition scored (r : SearchResult.t) : Prop :=
  SearchResult.score r =
    list_sum (List.map SearchMatch.matchCount (SearchResult.matches r)).

(** The page of [search-notes]. *)
Definition paginate {A} (results : list A) (maxResults page : Z) : list A :=
  let totalResults := Z.of_nat (List.length results) in
  let startIndex := (page - 1) * maxResults in
  let endIndex := Z.min (startIndex + maxResults) totalResults in
  JS.slice results startIndex endIndex.

(** The lines that the two scans log for a note they could not read. *)
Definition searchFailure (note : NoteInfo.t) : LogLine :=
  {| tag := "[MCP Tool: search-notes] Failed to read note";
     subject := NoteInfo.name note |}.

Definition listFailure (note : NoteInfo.t) : LogLine :=
  {| tag := "[MCP Tool: list-notes] Failed to read note";
     subject := NoteInfo.name note |}.

(** [caseSensitive ? 'g' : 'gi'] *)
Definition searchFlags (caseSensitive : bool) : Flags :=
  {| global := true; ignoreCase := negb caseSensitive |}.

Section WithEngine.

Variable E : Engine.
Variable remote : Remote.

(** The pattern of [search-notes] and whether the literal fallback was
    taken. The constructor in the [catch] block is not guarded. *)
Definition compileQuery (query : string) (caseSensitive : bool)
  : IO (regex E * bool) :=
  let flags := searchFlags caseSensitive in
  match compile E query flags with
  | Some searchRegex => ret (searchRegex, false)
  | None =>
      let escapedQuery := Pattern.escape query in
      match compile E escapedQuery flags with
      | Some searchRegex => ret (searchRegex, true)
      | None => throw (SyntaxError escapedQuery)
      end
  end.

Definition titleMatch (searchRegex : regex E) (note : NoteInfo.t)
  : list SearchMatch.t :=
  let titleMatches := countMatches E searchRegex (NoteInfo.name note) in
  if (0 <? titleMatches)%nat then
    [ SearchMatch.mk title 0 (NoteInfo.name note) titleMatches None None None ]
  else [].

(** The body of [lines.forEach((line, lineIndex) => ...)]. *)
Definition lineMatch (searchRegex : regex E) (concise : bool)
    (contextLines : Z) (lines : list string) (lineIndex : Z) (line : string)
  : list SearchMatch.t :=
  let lineMatches := countMatches E searchRegex line in
  if (0 <? lineMatches)%nat then
    let startLine := Z.max 0 (lineIndex - contextLines) in
    let endLine :=
      Z.min (Z.of_nat (List.length lines) - 1) (lineIndex + contextLines) in
    let contextText :=
      if negb concise && (0 <? contextLines)
      then JS.join (String JS.newline EmptyString)
             (JS.slice lines startLine (endLine + 1))
      else EmptyString in
    [ SearchMatch.mk content (lineIndex + 1) (JS.trim line) lineMatches
        (Some contextText)
        (if 0 <? contextLines then Some (startLine + 1) else None)
        (if 0 <? contextLines then Some (endLine + 1) else None) ]
  else [].

Fixpoint forEachLine (searchRegex : regex E) (concise : bool)
    (contextLines : Z) (lines : list string) (lineIndex : Z)
    (remaining : list string) : list SearchMatch.t :=
  match remaining with
  | [] => []
  | line :: more =>
      lineMatch searchRegex concise contextLines lines lineIndex line ++
      forEachLine searchRegex concise contextLines lines (lineIndex + 1) more
  end.

Definition contentMatches (searchRegex : regex E) (concise : bool)
    (contextLines : Z) (body : string) : list SearchMatch.t :=
  let lines := JS.splitLines body in
  forEachLine searchRegex concise contextLines lines 0 lines.

(** The content part of one iteration: the [try] around the read. *)
Definition scanContent (searchRegex : regex E) (concise : bool)
    (contextLines : Z) (enableCaching : bool) (note : NoteInfo.t)
  : IO (list SearchMatch.t) :=
  tryCatch
    (let* body :=
       Cache.getCachedNoteContent remote (NoteInfo.name note) enableCaching in
     ret (contentMatches searchRegex concise contextLines body))
    (fun _ =>
       do consoleError "[MCP Tool: search-notes] Failed to read note"
            (NoteInfo.name note) then
       ret []).

(** One iteration of [for (const note of notes)]: the results it pushes. *)
Definition searchNote (searchRegex : regex E) (searchType : SearchType)
    (concise : bool) (contextLines : Z) (enableCaching : bool)
    (note : NoteInfo.t) : IO (list SearchResult.t) :=
  let fromTitle :=
    if inTitle searchType then titleMatch searchRegex note else [] in
  let* fromContent :=
    (if inContent searchType
     then scanContent searchRegex concise contextLines enableCaching note
     else ret []) in
  let matches := (fromTitle ++ fromContent)%list in
  if (0 <? List.length matches)%nat then
    ret [ SearchResult.mk (NoteInfo.name note) (NoteInfo.perm note) matches
            (totalMatchCount matches) ]
  else ret [].

Definition searchEach (searchRegex : regex E) (searchType : SearchType)
    (concise : bool) (contextLines : Z) (enableCaching : bool)
    (notes : list NoteInfo.t) : IO (list SearchResult.t) :=
  forOf (searchNote searchRegex searchType concise contextLines enableCaching)
    notes.

(** What an iteration pushes for a note whose body is not available:
    the result made of its title match, if it has one. *)
Definition titleOnly (searchRegex : regex E) (searchType : SearchType)
    (note : NoteInfo.t) : list SearchResult.t :=
  let matches :=
    if inTitle searchType then titleMatch searchRegex note else [] in
  if (0 <? List.length matches)%nat then
    [ SearchResult.mk (NoteInfo.name note) (NoteInfo.perm note) matches
        (totalMatchCount matches) ]
  else [].

(** The sorted [searchResults] of [search-notes] and the fallback flag. *)
Definition rankedResults (query : string) (searchType : SearchType)
    (caseSensitive concise : bool) (contextLines : Z) (enableCaching : bool)
  : IO (bool * list SearchResult.t) :=
  let* notes := Api.listNotesAPI remote in
  let* compiled := compileQuery query caseSensitive in
  let* searchResults :=
    searchEach (fst compiled) searchType concise contextLines enableCaching notes in
  ret (snd compiled, sortByScore searchResults).

(** The [search-notes] tool. *)
Definition searchNotes (query : string) (searchType : SearchType)
    (caseSensitive : bool) (maxResults page contextLines : Z)
    (concise enableCaching : bool) : Runtime -> SearchOutcome * Runtime :=
  fun rt =>
    match rankedResults query searchType caseSensitive concise contextLines
            enableCaching rt with
    | (Returns (regexInvalidFallback, searchResults), rt') =>
        let totalResults := List.length searchResults in
        if (totalResults =? 0)%nat then (NoMatches, rt')
        else
          (SearchPage regexInvalidFallback totalResults
             (fold_left (fun sum r => (sum + SearchResult.score r)%nat)
                searchResults O)
             (JS.ceilDiv (Z.of_nat totalResults) maxResults)
             ((page - 1) * maxResults)
             (paginate searchResults maxResults page),
           rt')
    | (Throws e, rt') =>
        match consoleError "[MCP Tool: search-notes] Error" EmptyString rt' with
        | (_, rt'') => (SearchFailed e, rt'')
        end
    end.

(** *** [list-notes] *)

Definition describe (note : NoteInfo.t) : string :=
  "- " ++ NoteInfo.name note ++ " (" ++
  (if Perm_eqb (NoteInfo.perm note) rw then "read-write" else "read-only") ++ ")".

(** The double quote character of the messages. *)
Definition quote : string := String "034"%char EmptyString.

Definition permName (p : Perm) : string :=
  match p with
  | rw => "rw"
  | ro => "ro"
  end.

(** One iteration of the content filter: the notes it pushes. *)
Definition filterNote (contentSearch : string) (note : NoteInfo.t)
  : IO (list NoteInfo.t) :=
  tryCatch
    (let* body := Cache.getCachedNoteContent remote (NoteInfo.name note) true in
     if JS.includes (JS.toLowerCase body) (JS.toLowerCase contentSearch)
     then ret [note]
     else ret [])
    (fun _ =>
       do consoleError "[MCP Tool: list-notes] Failed to read note"
            (NoteInfo.name note) then
       ret []).

Definition filterEach (contentSearch : string) (notes : list NoteInfo.t)
  : IO (list NoteInfo.t) :=
  forOf (filterNote contentSearch) notes.

(** The notes that pass the three filters of [list-notes]. *)
Definition listedNotes (namePattern : option string) (permission : option Perm)
    (contentSearch : option string) : IO (list NoteInfo.t) :=
  let* notes := Api.listNotesAPI remote in
  let* notes :=
    (match namePattern with
     | Some pattern =>
         if JS.truthy pattern then
           match compile E pattern {| global := false; ignoreCase := true |} with
           | Some r => ret (List.filter (fun note => test E r (NoteInfo.name note)) notes)
           | None => throw (SyntaxError pattern)
           end
         else ret notes
     | None => ret notes
     end) in
  let notes :=
    match permission with
    | Some p => List.filter (fun note => Perm_eqb (NoteInfo.perm note) p) notes
    | None => notes
    end in
  match contentSearch with
  | Some needle =>
      if JS.truthy needle then filterEach needle notes else ret notes
  | None => ret notes
  end.

Definition filterSummary (namePattern : option string) (permission : option Perm)
    (contentSearch : option string) : list string :=
  ((if JS.truthyOpt namePattern
    then [("name pattern: " ++ quote ++ default EmptyString namePattern ++ quote)%string]
    else []) ++
   (match permission with
    | Some p => [("permission: " ++ permName p)%string]
    | None => []
    end) ++
   (if JS.truthyOpt contentSearch
    then [("content search: " ++ quote ++ default EmptyString contentSearch ++ quote)%string]
    else []))%list.

Definition listText (namePattern : option string) (permission : option Perm)
    (contentSearch : option string) (notes : list NoteInfo.t) : string :=
  let notesList := JS.join (String JS.newline EmptyString) (List.map describe notes) in
  let summary := filterSummary namePattern permission contentSearch in
  let headerText :=
    if (0 <? List.length summary)%nat
    then "Notes matching filters (" ++ JS.join ", " summary ++ "):"
    else "Available notes:" in
  headerText ++ String JS.newline EmptyString ++
  (if JS.truthy notesList then notesList
   else "No notes found matching the specified criteria.").

(** The [list-notes] tool. *)
Definition listNotes (namePattern : option string) (permission : option Perm)
    (contentSearch : option string) : Runtime -> ListOutcome * Runtime :=
  fun rt =>
    match listedNotes namePattern permission contentSearch rt with
    | (Returns notes, rt') =>
        (Listed (listText namePattern permission contentSearch notes), rt')
    | (Throws e, rt') =>
        match consoleError "[MCP Tool: list-notes] Error" EmptyString rt' with
        | (_, rt'') => (ListFailed e, rt'')
        end
    end.

End WithEngine.
End Search.

(** ** Session registry ([server.ts])

    The two module-level objects [transports] and [mcpServers] and the
    three request handlers. The transport and the protocol handler are
    objects of the SDK; a handler and a transport created by one POST
    share a number, their index in [pairs]. What the SDK does inside
    [handleRequest] is an input of the model ([Handling]): the callbacks it
    fires, whether it throws, whether response headers were sent. *)

Module Session.

(** The fields of a transport object that the handlers rely on. *)
Record Pair := {
  newSessionId : string;        (* what its sessionIdGenerator returns *)
  sessionId : option string     (* transport.sessionId, set on initialization *)
}.

Inductive Release :=
| ServerClosed (ref : nat)       (* mcpServer.close() *)
| TransportClosed (ref : nat).   (* transport.close() *)

Record State := {
  transports : gmap string nat;
  mcpServers : gmap string nat;
  pairs : list Pair;
  released : list Release;
  console : list LogLine
}.

Definition initial : State := {|
  transports := ∅;
  mcpServers := ∅;
  pairs := [];
  released := [];
  console := []
|}.

Inductive Callback :=
| SessionInitialized   (* the transport confirms its session id *)
| Closed.              (* the transport reports closure *)

Record Handling := {
  during : list Callback;
  throws : bool;
  headersSent : bool
}.

Inductive Event :=
| POST (header : option string) (uuid : string) (connectFails : bool) (h : Handling)
| GET (header : option string) (h : Handling)
| DELETE (header : option string) (h : Handling)
| Disconnect (ref : nat).

Inductive Reply :=
| ByTransport      (* the transport wrote the response *)
| Status (code : Z)
| Unhandled        (* the handler's promise rejects *)
| NoReply.         (* not a request *)

(** Property names every plain object inherits from [Object.prototype]:
    reading them from [transports] or [mcpServers] yields a truthy value
    that is no transport and no handler. *)
Definition inheritedKeys : list string :=
  [ "__proto__"; "constructor"; "hasOwnProperty"; "isPrototypeOf";
    "propertyIsEnumerable"; "toLocaleString"; "toString"; "valueOf";
    "__defineGetter__"; "__defineSetter__"; "__lookupGetter__";
    "__lookupSetter__" ].

Inductive Slot :=
| Own (ref : nat)
| Inherited
| Undefined.

(** [object[key]] *)
Definition get (object : gmap string nat) (key : string) : Slot :=
  match object !! key with
  | Some ref => Own ref
  | None => if existsb (String.eqb key) inheritedKeys then Inherited else Undefined
  end.

Definition truthySlot (v : Slot) : bool :=
  match v with
  | Undefined => false
  | _ => true
  end.

Definition log (t s0 : string) (s : State) : State :=
  {| transports := transports s;
     mcpServers := mcpServers s;
     pairs := pairs s;
     released := released s;
     console := console s ++ [{| tag := t; subject := s0 |}] |}.

Definition release (r : Release) (s : State) : State :=
  {| transports := transports s;
     mcpServers := mcpServers s;
     pairs := pairs s;
     released := released s ++ [r];
     console := console s |}.

(** [transports[sId] = transport; mcpServers[sId] = mcpServer] *)
Definition register (sId : string) (ref : nat) (s : State) : State :=
  {| transports := <[sId := ref]> (transports s);
     mcpServers := <[sId := ref]> (mcpServers s);
     pairs := pairs s;
     released := released s;
     console := console s |}.

(** [delete transports[id]; delete mcpServers[id]] *)
Definition unregister (id : string) (s : State) : State :=
  {| transports := delete id (transports s);
     mcpServers := delete id (mcpServers s);
     pairs := pairs s;
     released := released s;
     console := console s |}.

Definition setSessionId (ref : nat) (sId : string) (s : State) : State :=
  {| transports := transports s;
     mcpServers := mcpServers s;
     pairs :=
       match pairs s !! ref with
       | Some p => <[ref := {| newSessionId := newSessionId p; sessionId := Some sId |}]> (pairs s)
       | None => pairs s
       end;
     released := released s;
     console := console s |}.

(** The [onsessioninitialized] option given to the transport of [ref],
    called by the SDK once it has generated and stored the session id. *)
Definition initialize (ref : nat) (s : State) : State :=
  match pairs s !! ref with
  | Some p =>
      let sId := newSessionId p in
      let s := setSessionId ref sId s in
      if JS.truthy sId then register sId ref s else s
  | None => s
  end.

(** [transport.onclose] of [ref]. *)
Definition onclose (ref : nat) (s : State) : State :=
  match pairs s !! ref with
  | Some p =>
      match sessionId p with
      | Some id =>
          if JS.truthy id
          then release (ServerClosed ref) (unregister id s)
          else s
      | None => s
      end
  | None => s
  end.

Definition fire (ref : nat) (s : State) (c : Callback) : State :=
  match c with
  | SessionInitialized => initialize ref s
  | Closed => onclose ref s
  end.

(** [transport.handleRequest(...)] on the transport of [ref]: the state
    after the callbacks it fired. *)
Definition handleRequest (ref : nat) (h : Handling) (s : State) : State :=
  fold_left (fire ref) (during h) s.

(** [try { await transport.handleRequest(...) } catch { log; 500 }] of
    POST and GET, for the value read from [transports]. *)
Definition guarded (site : string) (transport : Slot) (h : Handling)
    (s : State) : State * Reply :=
  match transport with
  | Own ref =>
      let s := handleRequest ref h s in
      if throws h
      then (log site EmptyString s, if headersSent h then ByTransport else Status 500)
      else (s, ByTransport)
  | _ =>
      (* [handleRequest] is not a function of an inherited value *)
      (log site EmptyString s, Status 500)
  end.

(** [sessionId && transports[sessionId] && mcpServers[sessionId]] *)
Definition resolves (s : State) (header : option string) : bool :=
  match header with
  | Some sessionId =>
      JS.truthy sessionId &&
      truthySlot (get (transports s) sessionId) &&
      truthySlot (get (mcpServers s) sessionId)
  | None => false
  end.

Definition post (header : option string) (uuid : string) (connectFails : bool)
    (h : Handling) (s : State) : State * Reply :=
  if resolves s header then
    guarded "[POST /mcp] Error handling MCP request"
      (get (transports s) (default EmptyString header)) h s
  else
    let ref := List.length (pairs s) in
    let s :=
      {| transports := transports s;
         mcpServers := mcpServers s;
         pairs := pairs s ++ [{| newSessionId := uuid; sessionId := None |}];
         released := released s;
         console := console s |} in
    if connectFails then (s, Unhandled)
    else
      guarded "[POST /mcp] Error handling MCP request" (Own ref) h s.

(** [handleSessionRequest], behind GET. *)
Definition handleSessionRequest (header : option string) (h : Handling)
    (s : State) : State * Reply :=
  match header with
  | Some sessionId =>
      if JS.truthy sessionId && truthySlot (get (transports s) sessionId)
      then
        guarded "[handleSessionRequest] Error handling session event"
          (get (transports s) sessionId) h s
      else (s, Status 400)
  | None => (s, Status 400)
  end.

(** The [finally] block of DELETE. [transport.close()] makes the transport
    call its [onclose]; [mcpServer.close()] is recorded as a release (the
    closure of the transport that the SDK performs from it has the effect
    of [onclose], which runs here anyway). Closing an inherited value is a
    [TypeError] that leaves the block. *)
Definition cleanup (sessionId : string) (transport mcpServer : Slot)
    (replied : bool) (s : State) : State * Reply :=
  match mcpServer with
  | Inherited => (s, Unhandled)
  | _ =>
      let s :=
        match mcpServer with
        | Own m => release (ServerClosed m) s
        | _ => s
        end in
      match transport with
      | Inherited => (s, Unhandled)
      | _ =>
          let s :=
            match transport with
            | Own t => onclose t (release (TransportClosed t) s)
            | _ => s
            end in
          let s := if JS.truthy sessionId then unregister sessionId s else s in
          (s, if replied then ByTransport else Status 204)
      end
  end.

Definition delete (header : option string) (h : Handling) (s : State)
  : State * Reply :=
  match header with
  | Some sessionId =>
      if JS.truthy sessionId && truthySlot (get (transports s) sessionId)
      then
        let transport := get (transports s) sessionId in
        let mcpServer := get (mcpServers s) sessionId in
        match transport with
        | Own t =>
            let s := handleRequest t h s in
            if throws h then
              let s := log "[DELETE /mcp] Error during DELETE handling" sessionId s in
              match cleanup sessionId transport mcpServer true s with
              | (s, Unhandled) => (s, Unhandled)
              | (s, _) => (s, if headersSent h then ByTransport else Status 500)
              end
            else cleanup sessionId transport mcpServer (headersSent h) s
        | _ =>
            let s := log "[DELETE /mcp] Error during DELETE handling" sessionId s in
            match cleanup sessionId transport mcpServer true s with
            | (s, Unhandled) => (s, Unhandled)
            | (s, _) => (s, Status 500)
            end
        end
      else (s, Status 400)
  | None => (s, Status 400)
  end.

Definition step (s : State) (e : Event) : State * Reply :=
  match e with
  | POST header uuid connectFails h => post header uuid connectFails h s
  | GET header h => handleSessionRequest header h s
  | DELETE header h => delete header h s
  | Disconnect ref => (onclose ref s, NoReply)
  end.

(** [randomUUID()] returns 36 characters. *)
Definition wellFormed (e : Event) : Prop :=
  match e with
  | POST _ uuid _ _ => String.length uuid = 36%nat
  | _ => True
  end.

Inductive Reachable : State -> Prop :=
| Reachable_initial : Reachable initial
| Reachable_step s e :
    Reachable s -> wellFormed e -> Reachable (fst (step s e)).

Definition run (events : list Event) : State :=
  fold_left (fun s e => fst (step s e)) events initial.

(** A transport object as the handlers leave it: its generated id has the
    shape of a UUID, and its session id, once set, is that id. *)
Definition wfPair (p : Pair) : Prop :=
  String.length (newSessionId p) = 36%nat /\
  (sessionId p = None \/ sessionId p = Some (newSessionId p)).

(** The two maps hold the same entries, and an id is registered with the
    pair that generated it. *)
Definition Invariant (s : State) : Prop :=
  transports s = mcpServers s /\
  (forall ref p, pairs s !! ref = Some p -> wfPair p) /\
  (forall id ref,
      transports s !! id = Some ref ->
      exists p, pairs s !! ref = Some p /\ newSessionId p = id).

Definition deleteFailure (sessionId : string) : LogLine :=
  {| tag := "[DELETE /mcp] Error during DELETE handling"; subject := sessionId |}.

End Session.

(** ** Sample stores and states used by the examples *)

Module Sample.

Definition aFile : SBFile.t := SBFile.mk "a.md" 10 "text/markdown" 15 rw.

(** A store holding one note, [a.md], last modified at 10. *)
Definition store : Remote := {|
  GET_index := Ok (inr [aFile]);
  GET_note := fun filename =>
    if String.eqb filename "a.md"
    then Ok (inr ("Foo bar" ++ String JS.newline "baz foo"))
    else NotOk 404 "Not Found" (inr "Not found");
  PUT_note := fun _ _ => Ok (inr tt);
  DELETE_note := fun _ => Ok (inr tt)
|}.

(** The same listing, but the body of [a.md] cannot be fetched. *)
Definition brokenStore : Remote := {|
  GET_index := Ok (inr [aFile]);
  GET_note := fun _ => NetworkFailure "ECONNRESET";
  PUT_note := fun _ _ => Ok (inr tt);
  DELETE_note := fun _ => Ok (inr tt)
|}.

(** The same listing, [a.md] readable, its body without the letter x. *)
Definition plainStore : Remote := {|
  GET_index := Ok (inr [aFile]);
  GET_note := fun _ => Ok (inr "nothing here");
  PUT_note := fun _ _ => Ok (inr tt);
  DELETE_note := fun _ => Ok (inr tt)
|}.

(** The store after an edit of [a.md]: a later [lastModified], a new body. *)
Definition editedStore : Remote := {|
  GET_index := Ok (inr [SBFile.mk "a.md" 11 "text/markdown" 6 rw]);
  GET_note := fun _ => Ok (inr "edited");
  PUT_note := fun _ _ => Ok (inr tt);
  DELETE_note := fun _ => Ok (inr tt)
|}.

Definition fresh : Runtime := {|
  contentCache := ∅;
  requests := [];
  console := []
|}.

End Sample.

(** ** Authentication of the MCP routes ([middleware.ts]) *)

Module Middleware.








End Middleware.

(** ** Predicates on search results used by the properties *)

Module Placed.

(** A content match sits on a line of the body: its 1-based number is within
    the lines, it shows that line trimmed with the count of that line, and
    its context window, present exactly when [contextLines > 0], is within
    the lines, around the line and at most [contextLines] away from it. *)
Definition onLine (E : Engine) (r : regex E) (contextLines : Z)
    (lines : list string) (m : SearchMatch.t) : Prop :=
  SearchMatch.type m = content /\
  1 <= SearchMatch.line m <= Z.of_nat (List.length lines) /\
  (exists l,
      lines !! Z.to_nat (SearchMatch.line m - 1) = Some l /\
      SearchMatch.content m = JS.trim l /\
      SearchMatch.matchCount m = countMatches E r l /\
      (1 <= SearchMatch.matchCount m)%nat) /\
  if 0 <? contextLines
  then exists first last,
         SearchMatch.startLine m = Some first /\
         SearchMatch.endLine m = Some last /\
         1 <= first <= SearchMatch.line m /\
         SearchMatch.line m <= last <= Z.of_nat (List.length lines) /\
         SearchMatch.line m - first <= contextLines /\
         last - SearchMatch.line m <= contextLines
  else SearchMatch.startLine m = None /\ SearchMatch.endLine m = None.

(** A result has matches, each of at least one occurrence, so that its
    score is at least their number. *)
Definition substantial (result : SearchResult.t) : Prop :=
  SearchResult.matches result <> [] /\
  Forall (fun m => (1 <= SearchMatch.matchCount m)%nat)
    (SearchResult.matches result) /\
  (1 <= List.length (SearchResult.matches result) <= SearchResult.score result)%nat.

End Placed.

(** ** Further invariants of the session registry *)

Module Registry.

(** A registered transport carries the id it is registered under. *)
Definition Attached (s : Session.State) : Prop :=
  forall id ref,
    Session.transports s !! id = Some ref ->
    exists p, Session.pairs s !! ref = Some p /\ Session.sessionId p = Some id.

Definition Sound (s : Session.State) : Prop :=
  Session.Invariant s /\ Attached s.

(** The handling of a request in which the transport fires no callback. *)
Definition quiet (throws headersSent : bool) : Session.Handling :=
  {| Session.during := []; Session.throws := throws;
     Session.headersSent := headersSent |}.

(** The handling of an initialization request that the transport accepts. *)
Definition confirming : Session.Handling :=
  {| Session.during := [Session.SessionInitialized]; Session.throws := false;
     Session.headersSent := true |}.

End Registry.

(** ** Multi-note utilities ([server.ts], shared utilities) *)

Inductive Format := structured | concatenated | summarized.

Module MultiNoteRequest.
Record t := mk {
  filenames : option (list string);
  namePattern : option string;
  includeContent : option bool;
  includeMetadata : option bool;
  maxResults : option Z;
  enableCaching : option bool;
  format : option Format
}.
End MultiNoteRequest.

(** [flag !== false] for an optional flag. *)
Definition notFalse (flag : option bool) : bool :=
  match flag with
  | Some false => false
  | _ => true
  end.

(** [NoteErrorHandler.formatError(error, `Failed to read ${filename}`)]:
    the message "Failed to read FILE: MESSAGE", as the file and the error
    whose message it shows. *)
Record ReadFailure := { unread : string; reason : Error }.

Module NoteResult.
Record t := mk {
  filename : string;
  permission : Perm;
  size : option Z;
  lastModified : option Z;
  content : option string;
  contentPreview : option string;
  error : option ReadFailure
}.
End NoteResult.

Module MultiNoteResponse.
Record t := mk {
  totalNotes : Z;
  successCount : Z;
  errorCount : Z;
  permissions_rw : Z;
  permissions_ro : Z;
  notes : list NoteResult.t;
  errors : option (list ReadFailure)
}.
End MultiNoteResponse.

(** [for (const item of items) { ... }] where the iterations update local
    variables: the variables after the loop. *)
Fixpoint forEach {A S} (body : A -> S -> IO S) (items : list A) (s : S) : IO S :=
  match items with
  | [] => ret s
  | item :: more =>
      let* s' := body item s in
      forEach body more s'
  end.

(** [console.warn], which writes where [console.error] writes. *)
Definition consoleWarn (t s : string) : IO unit := consoleError t s.

Module NoteResolver.

(** [set.add(x)] on a [Set] kept in insertion order. *)
Definition add (x : string) (set : list string) : list string :=
  if existsb (String.eqb x) set then set else (set ++ [x])%list.

(** [for (const x of xs) set.add(x)] *)
Definition addAll (xs : list string) (set : list string) : list string :=
  List.fold_left (fun acc x => add x acc) xs set.

(** [filename.endsWith('.md') ? filename : `${filename}.md`] *)
Definition normalize (filename : string) : string :=
  if JS.endsWith filename ".md" then filename else filename ++ ".md".

Section WithEngine.

Variable remote : Remote.
Variable E : Engine.

(** The names of the listed notes that pass a test. *)
Definition matched (keep : NoteInfo.t -> bool) (allNotes : list NoteInfo.t)
  : list string :=
  List.map NoteInfo.name (List.filter keep allNotes).

Definition resolveNotes (request : MultiNoteRequest.t) : IO (list string) :=
  let* allNotes := Api.listNotesAPI remote in
  let resolvedFilenames :=
    match MultiNoteRequest.filenames request with
    | Some filenames => addAll (List.map normalize filenames) []
    | None => []
    end in
  let* resolvedFilenames :=
    (match MultiNoteRequest.namePattern request with
     | Some namePattern =>
         if JS.truthy namePattern then
           match compile E namePattern {| global := false; ignoreCase := true |} with
           | Some r =>
               ret (addAll
                      (matched (fun note => test E r (NoteInfo.name note)) allNotes)
                      resolvedFilenames)
           | None =>
               do consoleWarn "[NoteResolver] Invalid regex pattern" namePattern then
               ret (addAll
                      (matched
                         (fun note =>
                            JS.includes (JS.toLowerCase (NoteInfo.name note))
                              (JS.toLowerCase namePattern))
                         allNotes)
                      resolvedFilenames)
           end
         else ret resolvedFilenames
     | None => ret resolvedFilenames
     end) in
  ret (match MultiNoteRequest.maxResults request with
       | Some limit =>
           if limit =? 0 then resolvedFilenames
           else JS.slice resolvedFilenames 0 limit
       | None => resolvedFilenames
       end).

End WithEngine.

(** [validateFilenames] on an array of strings: the valid names trimmed,
    and the others. *)
Definition validateFilenames (filenames : list string)
  : list string * list string :=
  List.fold_left
    (fun '(valid, invalid) filename =>
       if (0 <? String.length (JS.trim filename))%nat
       then ((valid ++ [JS.trim filename])%list, invalid)
       else (valid, (invalid ++ [filename])%list))
    filenames ([], []).

End NoteResolver.

Module ContentManager.

(** The local variables of [batchReadNotes]. *)
Record Progress := {
  results : list NoteResult.t;
  errors : list ReadFailure;
  successCount : Z;
  rwCount : Z;
  roCount : Z
}.

Definition start : Progress := {|
  results := [];
  errors := [];
  successCount := 0;
  rwCount := 0;
  roCount := 0
|}.

(** [noteInfo?.perm || 'ro'] *)
Definition permissionOf (availableNotes : list NoteInfo.t) (filename : string)
  : Perm :=
  match List.find (fun n => String.eqb (NoteInfo.name n) filename) availableNotes with
  | Some noteInfo => NoteInfo.perm noteInfo
  | None => ro
  end.

(** [if (result.permission === 'rw') permissionCounts.rw++; else permissionCounts.ro++] *)
Definition count (permission : Perm) (p : Progress) : Progress :=
  {| results := results p;
     errors := errors p;
     successCount := successCount p;
     rwCount := match permission with rw => rwCount p + 1 | ro => rwCount p end;
     roCount := match permission with rw => roCount p | ro => roCount p + 1 end |}.

(** [results.push(result); successCount++] *)
Definition succeed (result : NoteResult.t) (p : Progress) : Progress :=
  {| results := (results p ++ [result])%list;
     errors := errors p;
     successCount := successCount p + 1;
     rwCount := rwCount p;
     roCount := roCount p |}.

(** The [catch] block: the message is pushed to [errors] and the note to
    [results], read-only and with that message. *)
Definition failed (filename : string) (e : Error) (p : Progress) : Progress :=
  let errorMsg := {| unread := filename; reason := e |} in
  {| results :=
       (results p ++
        [NoteResult.mk filename ro None None None None (Some errorMsg)])%list;
     errors := (errors p ++ [errorMsg])%list;
     successCount := successCount p;
     rwCount := rwCount p;
     roCount := roCount p |}.

(** [content.length > 200 ? content.substring(0, 197) + '...' : content] *)
Definition preview (content : string) : string :=
  if (200 <? String.length content)%nat
  then substring 0 197 content ++ "..."
  else content.

Definition isSummary (format : option Format) : bool :=
  match format with
  | Some summarized => true
  | _ => false
  end.

(** The result of a note whose body was read. *)
Definition withContent (request : MultiNoteRequest.t) (filename : string)
    (permission : Perm) (content : string) : NoteResult.t :=
  NoteResult.mk filename permission
    (if notFalse (MultiNoteRequest.includeMetadata request)
     then Some (Z.of_nat (String.length content))
     else None)
    None
    (if isSummary (MultiNoteRequest.format request) then None else Some content)
    (if isSummary (MultiNoteRequest.format request)
     then Some (preview content)
     else None)
    None.

Section WithRemote.

Variable remote : Remote.

(** One iteration of the loop of [batchReadNotes]. The permission is
    counted before the body is read, so it stays counted when the read
    throws. *)
Definition readOne (request : MultiNoteRequest.t)
    (availableNotes : list NoteInfo.t) (filename : string) (p : Progress)
  : IO Progress :=
  let permission := permissionOf availableNotes filename in
  let p := count permission p in
  tryCatch
    (if notFalse (MultiNoteRequest.includeContent request) then
       let* content :=
         (if notFalse (MultiNoteRequest.enableCaching request)
          then Cache.getCachedNoteContent remote filename true
          else Api.readNoteAPI remote filename) in
       ret (succeed (withContent request filename permission content) p)
     else
       ret (succeed
              (NoteResult.mk filename permission None None None None None) p))
    (fun e => ret (failed filename e p)).

Definition batchReadNotes (filenames : list string)
    (request : MultiNoteRequest.t) (availableNotes : list NoteInfo.t)
  : IO MultiNoteResponse.t :=
  let* p := forEach (readOne request availableNotes) filenames start in
  ret (MultiNoteResponse.mk
         (Z.of_nat (List.length filenames))
         (successCount p)
         (Z.of_nat (List.length filenames) - successCount p)
         (rwCount p)
         (roCount p)
         (results p)
         (if (0 <? List.length (errors p))%nat then Some (errors p) else None)).

End WithRemote.
End ContentManager.

(** ** Predicates on the answers of [batchReadNotes] used by the properties *)

Module Batch.

(** The messages of the notes that could not be read, in order. *)
Definition failures (notes : list NoteResult.t) : list ReadFailure :=
  omap NoteResult.error notes.

(** How many of the names are listed with a permission ([ro] for a name
    that is not listed). *)
Definition listedAs (permission : Perm) (availableNotes : list NoteInfo.t)
    (filenames : list string) : nat :=
  List.length
    (List.filter
       (fun filename =>
          Perm_eqb (ContentManager.permissionOf availableNotes filename) permission)
       filenames).

(** What a note of the answer looks like: a note that could not be read,
    which takes a request that reads contents, is read-only and carries
    nothing but the message about its own file; a note that was read
    carries its listed permission and what the request asks for. *)
Definition wellShaped (request : MultiNoteRequest.t)
    (availableNotes : list NoteInfo.t) (r : NoteResult.t) : Prop :=
  match NoteResult.error r with
  | Some failure =>
      MultiNoteRequest.includeContent request <> Some false /\
      r = NoteResult.mk (NoteResult.filename r) ro None None None None
            (Some {| unread := NoteResult.filename r; reason := reason failure |})
  | None =>
      let permission :=
        ContentManager.permissionOf availableNotes (NoteResult.filename r) in
      if notFalse (MultiNoteRequest.includeContent request)
      then exists content,
          r = ContentManager.withContent request (NoteResult.filename r)
                permission content
      else r = NoteResult.mk (NoteResult.filename r) permission
                 None None None None None
  end.

End Batch.

(** ** Predicates on the names [resolveNotes] returns used by the properties *)

Module Resolved.

(** The test a listed note passes to be added for a name pattern: the
    pattern as a case-insensitive regular expression, or, when it is
    malformed, as a case-insensitive substring. No note passes an absent
    or empty pattern. *)
Definition passes (E : Engine) (namePattern : option string) (note : NoteInfo.t)
  : bool :=
  match namePattern with
  | Some pattern =>
      JS.truthy pattern &&
      match compile E pattern {| global := false; ignoreCase := true |} with
      | Some r => test E r (NoteInfo.name note)
      | None =>
          JS.includes (JS.toLowerCase (NoteInfo.name note))
            (JS.toLowerCase pattern)
      end
  | None => false
  end.

(** What [resolveNotes] writes to the console: a warning about a pattern
    that is malformed. *)
Definition warnings (E : Engine) (namePattern : option string) : list LogLine :=
  match namePattern with
  | Some pattern =>
      if JS.truthy pattern then
        match compile E pattern {| global := false; ignoreCase := true |} with
        | Some _ => []
        | None =>
            [{| tag := "[NoteResolver] Invalid regex pattern"; subject := pattern |}]
        end
      else []
  | None => []
  end.

(** The request with another [maxResults]. *)
Definition withLimit (limit : option Z) (request : MultiNoteRequest.t)
  : MultiNoteRequest.t :=
  MultiNoteRequest.mk
    (MultiNoteRequest.filenames request)
    (MultiNoteRequest.namePattern request)
    (MultiNoteRequest.includeContent request)
    (MultiNoteRequest.includeMetadata request)
    limit
    (MultiNoteRequest.enableCaching request)
    (MultiNoteRequest.format request).

(** The names the request spells out. *)
Definition requested (request : MultiNoteRequest.t) : list string :=
  default [] (MultiNoteRequest.filenames request).

End Resolved.

(** ** Edit distance ([server.ts], [levenshteinDistance])

    The function fills a matrix of [str2.length + 1] rows and
    [str1.length + 1] columns. A computation here is an [option]: [None]
    stands for what JavaScript does with an element that is not there, a
    [TypeError] for a missing row and [NaN] for a missing number. *)

Module Levenshtein.

(** An element of a row: [null] as the row is created, a number once it is
    assigned, a hole left by an assignment past the end of the row. *)
Inductive Cell := Null | Num (v : Z) | Hole.

(** [Array(n).fill(null)] *)
Definition filled (n : nat) : list Cell := replicate n Null.

(** [matrix[j][i]] *)
Definition element (matrix : list (list Cell)) (j i : nat) : option Cell :=
  match matrix !! j with
  | Some row => row !! i
  | None => None
  end.

(** An element used in arithmetic: [null] counts as 0, a hole and an index
    past the end of the row give [NaN]. *)
Definition number (matrix : list (list Cell)) (j i : nat) : option Z :=
  match element matrix j i with
  | Some Null => Some 0
  | Some (Num v) => Some v
  | Some Hole | None => None
  end.

(** [row[i] = v], which extends the row when [i] is past its end. *)
Definition assign (row : list Cell) (i : nat) (v : Z) : list Cell :=
  if (i <? List.length row)%nat then <[i := Num v]> row
  else (row ++ replicate (i - List.length row) Hole ++ [Num v])%list.

(** [matrix[j][i] = v] *)
Definition put (matrix : list (list Cell)) (j i : nat) (v : Z)
  : option (list (list Cell)) :=
  match matrix !! j with
  | Some row => Some (<[j := assign row i v]> matrix)
  | None => None
  end.

(** [for (let k = from; k < from + count; k++) { ... }] on a local variable *)
Fixpoint forUpTo {T} (body : nat -> T -> option T) (from count : nat) (s : T)
  : option T :=
  match count with
  | O => Some s
  | S count' =>
      match body from s with
      | Some s' => forUpTo body (S from) count' s'
      | None => None
      end
  end.

(** [a === b] on two characters of strings ([undefined] past the end). *)
Definition same (a b : option ascii) : bool :=
  match a, b with
  | Some x, Some y => Ascii.eqb x y
  | None, None => true
  | _, _ => false
  end.

(** [str1[i - 1] === str2[j - 1] ? 0 : 1] *)
Definition indicator (str1 str2 : string) (j i : nat) : Z :=
  if same (String.get (i - 1) str1) (String.get (j - 1) str2) then 0 else 1.

(** The body of the inner loop. *)
Definition fill (str1 str2 : string) (j i : nat) (matrix : list (list Cell))
  : option (list (list Cell)) :=
  match number matrix j (i - 1), number matrix (j - 1) i,
        number matrix (j - 1) (i - 1) with
  | Some deletion, Some insertion, Some substitution =>
      put matrix j i
        (Z.min (deletion + 1)
           (Z.min (insertion + 1) (substitution + indicator str1 str2 j i)))
  | _, _, _ => None
  end.

Definition levenshteinDistance (str1 str2 : string) : option Z :=
  let matrix : list (list Cell) :=
    replicate (String.length str2 + 1) (filled (String.length str1 + 1)) in
  match forUpTo (fun i matrix => put matrix 0 i (Z.of_nat i))
          0 (String.length str1 + 1) matrix with
  | None => None
  | Some matrix =>
      match forUpTo (fun j matrix => put matrix j 0 (Z.of_nat j))
              0 (String.length str2 + 1) matrix with
      | None => None
      | Some matrix =>
          match forUpTo
                  (fun j matrix =>
                     forUpTo (fill str1 str2 j) 1 (String.length str1) matrix)
                  1 (String.length str2) matrix with
          | None => None
          | Some matrix =>
              number matrix (String.length str2) (String.length str1)
          end
      end
  end.

(** The recurrence of Wagner and Fischer on the prefixes of the two
    strings: [table str1 str2 j i] for the first [i] characters of [str1]
    and the first [j] characters of [str2]. *)
Fixpoint table (str1 str2 : string) (j i : nat) {struct j} : Z :=
  match j with
  | O => Z.of_nat i
  | S j' =>
      (fix row (i : nat) : Z :=
         match i with
         | O => Z.of_nat j
         | S i' =>
             Z.min (row i' + 1)
               (Z.min (table str1 str2 j' (S i') + 1)
                  (table str1 str2 j' i' +
                   (if same (String.get i' str1) (String.get j' str2)
                    then 0 else 1)))
         end) i
  end.

End Levenshtein.

(** ** Invariants of the matrix of [levenshteinDistance] used by the properties *)

Module Filling.
Section WithStrings.

Variables str1 str2 : string.

(** The matrix keeps its dimensions. *)
Definition shaped (matrix : list (list Levenshtein.Cell)) : Prop :=
  List.length matrix = S (String.length str2) /\
  forall j row, matrix !! j = Some row -> List.length row = S (String.length str1).

(** What is known of the matrix: the elements of the rows before [j], of
    the first [i] columns of row [j], and of the first column hold the
    recurrence. *)
Definition known (j i : nat) (matrix : list (list Levenshtein.Cell)) : Prop :=
  shaped matrix /\
  (forall j' i',
      (j' < j)%nat -> (i' <= String.length str1)%nat ->
      Levenshtein.element matrix j' i' =
        Some (Levenshtein.Num (Levenshtein.table str1 str2 j' i'))) /\
  (forall i',
      (i' < i)%nat -> (j <= String.length str2)%nat ->
      Levenshtein.element matrix j i' =
        Some (Levenshtein.Num (Levenshtein.table str1 str2 j i'))) /\
  (forall j',
      (j' <= String.length str2)%nat ->
      Levenshtein.element matrix j' 0 =
        Some (Levenshtein.Num (Levenshtein.table str1 str2 j' 0))).

End WithStrings.
End Filling.

(** ** The reads of a scan, used by the properties

    The lookups of a list of names issued one after the other, each in the
    state the ones before it have left: what each returns or throws, and
    the state after the last. *)

Fixpoint readEach (read : string -> IO string) (filenames : list string)
    (rt : Runtime) : list (Result string) * Runtime :=
  match filenames with
  | [] => ([], rt)
  | filename :: more =>
      let (outcome, rt1) := read filename rt in
      let (outcomes, rt') := readEach read more rt1 in
      (outcome :: outcomes, rt')
  end.

(** How many of the reads have returned. *)
Definition returned (outcomes : list (Result string)) : nat :=
  List.length
    (List.filter
       (fun outcome => match outcome with Returns _ => true | Throws _ => false end)
       outcomes).

(** ** The answer of [batchReadNotes], from the reads of its names *)

Module Answer.

(** The read of one name: through the cache unless [enableCaching] is
    [false]. *)
Definition read (remote : Remote) (request : MultiNoteRequest.t)
    (filename : string) : IO string :=
  match MultiNoteRequest.enableCaching request with
  | Some false => Api.readNoteAPI remote filename
  | _ => Cache.getCachedNoteContent remote filename true
  end.

(** A body of at most 200 characters, or its first 197 followed by three
    dots. *)
Definition shortened (body : string) : string :=
  if (String.length body <=? 200)%nat then body
  else substring 0 197 body ++ "...".

(** The note of a name whose read has returned a body or thrown an
    error. *)
Definition noteOf (request : MultiNoteRequest.t)
    (availableNotes : list NoteInfo.t) (filename : string)
    (outcome : Result string) : NoteResult.t :=
  match outcome with
  | Returns body =>
      NoteResult.mk filename
        (ContentManager.permissionOf availableNotes filename)
        (match MultiNoteRequest.includeMetadata request with
         | Some false => None
         | _ => Some (Z.of_nat (String.length body))
         end)
        None
        (match MultiNoteRequest.format request with
         | Some summarized => None
         | _ => Some body
         end)
        (match MultiNoteRequest.format request with
         | Some summarized => Some (shortened body)
         | _ => None
         end)
        None
  | Throws e =>
      NoteResult.mk filename ro None None None None
        (Some {| unread := filename; reason := e |})
  end.

(** The note of a name that is not read. *)
Definition unreadNote (availableNotes : list NoteInfo.t) (filename : string)
  : NoteResult.t :=
  NoteResult.mk filename (ContentManager.permissionOf availableNotes filename)
    None None None None None.

(** The notes of the answer and the state the batch leaves: no read with
    [includeContent] set to [false], otherwise the reads of the names in
    the order of the request. *)
Definition notes (remote : Remote) (request : MultiNoteRequest.t)
    (availableNotes : list NoteInfo.t) (filenames : list string) (rt : Runtime)
  : list NoteResult.t * Runtime :=
  match MultiNoteRequest.includeContent request with
  | Some false => (List.map (unreadNote availableNotes) filenames, rt)
  | _ =>
      let (outcomes, rt') := readEach (read remote request) filenames rt in
      (zip_with (noteOf request availableNotes) filenames outcomes, rt')
  end.

End Answer.

(** ** A search for a text, used by the properties

    What a search is to find when its query is searched as a text: the
    notes whose name or body holds the text, with the places where it
    occurs and how often. *)

Module Literally.

(** What a match shows: its kind, the number of its line (0 for the name),
    the text that is shown and the number of occurrences. *)
Definition View : Type := MatchType * Z * string * nat.

Definition view (m : SearchMatch.t) : View :=
  (SearchMatch.type m, SearchMatch.line m, SearchMatch.content m,
   SearchMatch.matchCount m).

(** The name of a note, when the text occurs in it. *)
Definition titleHits (ignoreCase : bool) (query name : string) : list View :=
  match Pattern.occurrences ignoreCase query name with
  | O => []
  | n => [(title, 0, name, n)]
  end.

(** The lines in which the text occurs, numbered from [number], each shown
    trimmed. *)
Fixpoint lineHits (ignoreCase : bool) (query : string) (number : Z)
    (lines : list string) : list View :=
  match lines with
  | [] => []
  | line :: more =>
      match Pattern.occurrences ignoreCase query line with
      | O => lineHits ignoreCase query (number + 1) more
      | n =>
          (content, number, JS.trim line, n)
          :: lineHits ignoreCase query (number + 1) more
      end
  end.

(** The hits of a note: in its name when titles are searched, and in the
    lines of its body when the scan has it at hand. *)
Definition hits (ignoreCase : bool) (query : string) (searchType : SearchType)
    (name : string) (body : option string) : list View :=
  ((if inTitle searchType then titleHits ignoreCase query name else []) ++
   match body with
   | Some text => lineHits ignoreCase query 1 (JS.splitLines text)
   | None => []
   end)%list.

(** The lookup of the body of a note during the scan, with the line that
    the scan logs when it fails. *)
Definition lookup (remote : Remote) (enableCaching : bool) (name : string)
  : IO string :=
  tryCatch (Cache.getCachedNoteContent remote name enableCaching)
    (fun e =>
       do consoleError "[MCP Tool: search-notes] Failed to read note" name then
       throw e).

(** The bodies the scan has at hand, note by note, and the state it
    leaves: no body when the content is not searched, else the bodies that
    the lookups of the notes, one after the other, have returned. *)
Definition bodies (remote : Remote) (searchType : SearchType)
    (enableCaching : bool) (notes : list NoteInfo.t) (rt : Runtime)
  : list (option string) * Runtime :=
  if inContent searchType then
    let (outcomes, rt') :=
      readEach (lookup remote enableCaching) (List.map NoteInfo.name notes) rt in
    (List.map
       (fun outcome =>
          match outcome with
          | Returns body => Some body
          | Throws _ => None
          end)
       outcomes,
     rt')
  else (List.map (fun _ => None) notes, rt).

(** The notes with at least one hit, in the order of the listing, each with
    its permission and its hits. *)
Definition found (ignoreCase : bool) (query : string) (searchType : SearchType)
    (notes : list NoteInfo.t) (bodies : list (option string))
  : list (string * Perm * list View) :=
  concat
    (zip_with
       (fun note body =>
          match hits ignoreCase query searchType (NoteInfo.name note) body with
          | [] => []
          | shown => [(NoteInfo.name note, NoteInfo.perm note, shown)]
          end)
       notes bodies).

(** What a result shows. *)
Definition resultView (r : SearchResult.t) : string * Perm * list View :=
  (SearchResult.filename r, SearchResult.permission r,
   List.map view (SearchResult.matches r)).

(** A store with one note whose name and body hold the text [a(]. *)
Definition store : Remote := {|
  GET_index := Ok (inr [SBFile.mk "a(b.md" 10 "text/markdown" 19 rw]);
  GET_note := fun _ => Ok (inr ("call a(1)" ++ String JS.newline " A( and a("));
  PUT_note := fun _ _ => Ok (inr tt);
  DELETE_note := fun _ => Ok (inr tt)
|}.

End Literally.

(** * Properties *)

Local Open Scope list_scope.

(** ** Trace bookkeeping *)

Lemma bodyReads_app (xs ys : list Request) :
  bodyReads (xs ++ ys) = (bodyReads xs + bodyReads ys)%nat.
Proof. unfold bodyReads. now rewrite List.filter_app, List.length_app. Qed.

Lemma listingCalls_app (xs ys : list Request) :
  listingCalls (xs ++ ys) = (listingCalls xs + listingCalls ys)%nat.
Proof. unfold listingCalls. now rewrite List.filter_app, List.length_app. Qed.

Lemma writes_app (xs ys : list Request) :
  writes (xs ++ ys) = (writes xs + writes ys)%nat.
Proof. unfold writes. now rewrite List.filter_app, List.length_app. Qed.

(** ** Remote store client *)

(** A read issues its one call and touches nothing else but the console. *)
Lemma readNoteAPI_effect (remote : Remote) (filename : string) (rt : Runtime) :
  requests (snd (Api.readNoteAPI remote filename rt)) =
    requests rt ++ [GetNote filename] /\
  contentCache (snd (Api.readNoteAPI remote filename rt)) = contentCache rt.
Proof.
  unfold Api.readNoteAPI, Api.handleFetchError, Api.handleResponseError,
    bind, send, consoleError, throw, ret.
  destruct (GET_note remote filename) as [cause | [cause | body] | st tx [cause | txt]];
    simpl; auto.
Qed.

(** A read returns exactly when the store answers with a readable body. *)
Lemma readNoteAPI_returns (remote : Remote) (filename : string) (rt : Runtime)
    (body : string) :
  fst (Api.readNoteAPI remote filename rt) = Returns body <->
  GET_note remote filename = Ok (inr body).
Proof.
  unfold Api.readNoteAPI, Api.handleFetchError, Api.handleResponseError,
    bind, send, consoleError, throw, ret.
  destruct (GET_note remote filename) as [cause | [cause | b] | st tx [cause | txt]];
    simpl; split; intros H; try discriminate; congruence.
Qed.

Lemma readNoteAPI_ok (remote : Remote) (filename : string) (rt : Runtime)
    (body : string) :
  GET_note remote filename = Ok (inr body) ->
  Api.readNoteAPI remote filename rt =
    (Returns body,
     {| contentCache := contentCache rt;
        requests := requests rt ++ [GetNote filename];
        console := console rt |}).
Proof.
  intros H. unfold Api.readNoteAPI, bind, send, ret. now rewrite H.
Qed.

(** The outcome of a read does not depend on the process state. *)
Lemma readNoteAPI_outcome (remote : Remote) (filename : string)
    (rt1 rt2 : Runtime) :
  fst (Api.readNoteAPI remote filename rt1) =
  fst (Api.readNoteAPI remote filename rt2).
Proof.
  unfold Api.readNoteAPI, Api.handleFetchError, Api.handleResponseError,
    bind, send, consoleError, throw, ret.
  destruct (GET_note remote filename) as [cause | [cause | b] | st tx [cause | txt]];
    reflexivity.
Qed.

Lemma getFullFileListingAPI_ok (remote : Remote) (index : list SBFile.t)
    (rt : Runtime) :
  GET_index remote = Ok (inr index) ->
  Api.getFullFileListingAPI remote rt =
    (Returns (List.filter (fun f => JS.endsWith (SBFile.name f) ".md") index),
     {| contentCache := contentCache rt;
        requests := requests rt ++ [GetIndex];
        console := console rt |}).
Proof.
  intros H. unfold Api.getFullFileListingAPI, bind, send, ret. now rewrite H.
Qed.

(** ** Content cache *)

(** Looking a name up among the notes of the index: the [.md] filter of
    the listing call lets through every entry of a name that ends in [.md]
    and none of another name. *)
Lemma find_among_notes (index : list SBFile.t) (filename : string) :
  List.find (fun f => String.eqb (SBFile.name f) filename)
    (List.filter (fun f => JS.endsWith (SBFile.name f) ".md") index) =
  if JS.endsWith filename ".md"
  then List.find (fun f => String.eqb (SBFile.name f) filename) index
  else None.
Proof.
  induction index as [| f index IH]; simpl.
  - now destruct (JS.endsWith filename ".md").
  - destruct (String.eqb_spec (SBFile.name f) filename) as [Heq | Hne].
    + subst filename. destruct (JS.endsWith (SBFile.name f) ".md"); simpl.
      * now rewrite String.eqb_refl.
      * exact IH.
    + destruct (JS.endsWith (SBFile.name f) ".md"); simpl; [| exact IH].
      destruct (String.eqb_spec (SBFile.name f) filename); [contradiction | exact IH].
Qed.

(** A name that reaches the cache ends in [.md]; no property inherited from
    [Object.prototype] does, so that [contentCache[filename]] reads an own
    property or nothing. *)
Lemma cache_keys_are_own :
  Forall (fun key => JS.endsWith key ".md" = false) Session.inheritedKeys.
Proof. repeat constructor. Qed.

(** A cached lookup of a listed name, after its listing call. *)
Lemma getCachedNoteContent_listed
    (remote : Remote) (rt : Runtime) (filename : string)
    (index : list SBFile.t) (noteInfo : SBFile.t) :
  GET_index remote = Ok (inr index) ->
  List.find (fun f => String.eqb (SBFile.name f) filename)
    (List.filter (fun f => JS.endsWith (SBFile.name f) ".md") index)
    = Some noteInfo ->
  Cache.getCachedNoteContent remote filename true rt =
    let listed := {| contentCache := contentCache rt;
                     requests := requests rt ++ [GetIndex];
                     console := console rt |} in
    match Cache.servable (contentCache rt !! filename) noteInfo with
    | Some cached => (Returns (CacheEntry.content cached), listed)
    | None =>
        match Api.readNoteAPI remote filename listed with
        | (Returns fresh, rt') =>
            (Returns fresh,
             {| contentCache :=
                  <[filename := CacheEntry.mk fresh (SBFile.lastModified noteInfo)]>
                    (contentCache rt');
                requests := requests rt';
                console := console rt' |})
        | (Throws e, rt') => (Throws e, rt')
        end
    end.
Proof.
  intros Hindex Hfind.
  unfold Cache.getCachedNoteContent, bind, getCache, setCache, ret. simpl.
  rewrite (getFullFileListingAPI_ok _ _ _ Hindex), Hfind. simpl.
  destruct (Cache.servable (contentCache rt !! filename) noteInfo); [reflexivity |].
  destruct (Api.readNoteAPI remote filename _) as [[fresh | e] rt']; reflexivity.
Qed.

Lemma servable_fresh (cached : CacheEntry.t) (noteInfo : SBFile.t) :
  SBFile.lastModified noteInfo <= CacheEntry.lastModified cached ->
  Cache.servable (Some cached) noteInfo = Some cached.
Proof.
  intros H. unfold Cache.servable.
  destruct (Z.geb_spec (CacheEntry.lastModified cached)
              (SBFile.lastModified noteInfo)); [reflexivity | lia].
Qed.

Lemma servable_stale (entry : option CacheEntry.t) (noteInfo : SBFile.t) :
  (entry = None \/
   exists cached,
     entry = Some cached /\
     CacheEntry.lastModified cached < SBFile.lastModified noteInfo) ->
  Cache.servable entry noteInfo = None.
Proof.
  intros [-> | (cached & -> & Hlt)]; [reflexivity |].
  unfold Cache.servable.
  destruct (Z.geb_spec (CacheEntry.lastModified cached)
              (SBFile.lastModified noteInfo)); [lia | reflexivity].
Qed.

(** C1. For the name of a note (it ends in [.md]) that the listing of the
    store reports, a cached lookup serves the
    cached content with the listing call as its only call when the entry's
    [lastModified] is at least the reported one; with no entry or an older
    one it issues exactly one body read after the listing call, and when
    that read returns, the entry is replaced by the fresh content paired
    with the reported [lastModified] and the fresh content is returned (a
    failing read leaves the cache as it was). *)
Theorem getCachedNoteContent_hit_or_refresh
    (remote : Remote) (rt : Runtime) (filename : string)
    (index : list SBFile.t) (noteInfo : SBFile.t) :
  GET_index remote = Ok (inr index) ->
  JS.endsWith filename ".md" = true ->
  List.find (fun f => String.eqb (SBFile.name f) filename) index
    = Some noteInfo ->
  let out := Cache.getCachedNoteContent remote filename true rt in
  (forall cached,
      contentCache rt !! filename = Some cached ->
      SBFile.lastModified noteInfo <= CacheEntry.lastModified cached ->
      fst out = Returns (CacheEntry.content cached) /\
      contentCache (snd out) = contentCache rt /\
      requests (snd out) = requests rt ++ [GetIndex] /\
      bodyReads (requests (snd out)) = bodyReads (requests rt))
  /\
  ((contentCache rt !! filename = None \/
    exists cached,
      contentCache rt !! filename = Some cached /\
      CacheEntry.lastModified cached < SBFile.lastModified noteInfo) ->
   requests (snd out) = requests rt ++ [GetIndex; GetNote filename] /\
   bodyReads (requests (snd out)) = S (bodyReads (requests rt)) /\
   (forall fresh,
       GET_note remote filename = Ok (inr fresh) ->
       fst out = Returns fresh /\
       contentCache (snd out) =
         <[filename := CacheEntry.mk fresh (SBFile.lastModified noteInfo)]>
           (contentCache rt)) /\
   (forall e,
       fst out = Throws e ->
       contentCache (snd out) = contentCache rt)).
Proof.
  intros Hindex Hmd Hraw out. subst out.
  assert (Hfind :
    List.find (fun f => String.eqb (SBFile.name f) filename)
      (List.filter (fun f => JS.endsWith (SBFile.name f) ".md") index)
      = Some noteInfo)
    by now rewrite find_among_notes, Hmd.
  rewrite (getCachedNoteContent_listed _ rt _ _ _ Hindex Hfind). cbv zeta.
  split.
  - intros cached Hcached Hle.
    rewrite Hcached, (servable_fresh _ _ Hle). simpl.
    repeat split. rewrite bodyReads_app. unfold bodyReads at 2. simpl. lia.
  - intros Hstale. rewrite (servable_stale _ _ Hstale).
    set (listed := {| contentCache := contentCache rt;
                      requests := requests rt ++ [GetIndex];
                      console := console rt |}).
    pose proof (readNoteAPI_effect remote filename listed) as [Hreq Hcache].
    pose proof (readNoteAPI_returns remote filename listed) as Hret.
    destruct (Api.readNoteAPI remote filename listed) as [[body | err] rt2];
      simpl in *; rewrite Hreq, <- List.app_assoc; simpl.
    + repeat split.
      * rewrite bodyReads_app. unfold bodyReads at 2. simpl. lia.
      * apply Hret in H. congruence.
      * apply Hret in H. congruence.
      * discriminate.
    + repeat split.
      * rewrite bodyReads_app. unfold bodyReads at 2. simpl. lia.
      * apply Hret in H. discriminate.
      * apply Hret in H. discriminate.
      * intros _ _. exact Hcache.
Qed.

Lemma getCachedNoteContent_hit_or_refresh_witness :
  let out := Cache.getCachedNoteContent Sample.store "a.md" true Sample.fresh in
  requests (snd out) = [GetIndex; GetNote "a.md"] /\
  contentCache (snd out) !! "a.md" =
    Some (CacheEntry.mk ("Foo bar" ++ String JS.newline "baz foo") 10).
Proof.
  destruct (getCachedNoteContent_hit_or_refresh Sample.store Sample.fresh "a.md"
              [Sample.aFile] Sample.aFile eq_refl eq_refl eq_refl) as [_ Hmiss].
  destruct (Hmiss (or_introl eq_refl)) as (Hreq & _ & Hfresh & _).
  destruct (Hfresh _ eq_refl) as [_ Hcache].
  split; [exact Hreq |].
  rewrite Hcache. reflexivity.
Defined.

(** The listing reports [a.md] at 10 and the cache is empty: one listing
    call and one read; the same lookup again, the store unchanged: one
    more listing call and no read. *)
Example repeated_lookup_is_served :
  let first := Cache.getCachedNoteContent Sample.store "a.md" true Sample.fresh in
  let second := Cache.getCachedNoteContent Sample.store "a.md" true (snd first) in
  requests (snd first) = [GetIndex; GetNote "a.md"] /\
  requests (snd second) = [GetIndex; GetNote "a.md"; GetIndex] /\
  fst second = fst first.
Proof. repeat split. Qed.

(** After an edit in the store the next lookup reads the body again and the
    cache holds the new content and timestamp. *)
Example lookup_after_edit_refreshes :
  let first := Cache.getCachedNoteContent Sample.store "a.md" true Sample.fresh in
  let second :=
    Cache.getCachedNoteContent Sample.editedStore "a.md" true (snd first) in
  requests (snd second) = [GetIndex; GetNote "a.md"; GetIndex; GetNote "a.md"] /\
  fst second = Returns "edited" /\
  contentCache (snd second) !! "a.md" = Some (CacheEntry.mk "edited" 11).
Proof. repeat split. Qed.

(** C2. Without caching a lookup is one body read and nothing else: it
    returns what the read returns, issues no listing call, leaves the cache
    as it was and does not depend on what the cache holds. *)
Theorem getCachedNoteContent_bypass
    (remote : Remote) (rt : Runtime) (filename : string) :
  let out := Cache.getCachedNoteContent remote filename false rt in
  out = Api.readNoteAPI remote filename rt /\
  requests (snd out) = requests rt ++ [GetNote filename] /\
  bodyReads (requests (snd out)) = S (bodyReads (requests rt)) /\
  listingCalls (requests (snd out)) = listingCalls (requests rt) /\
  contentCache (snd out) = contentCache rt /\
  (forall rt2 : Runtime,
      fst (Cache.getCachedNoteContent remote filename false rt2) = fst out).
Proof.
  cbv zeta. unfold Cache.getCachedNoteContent. simpl.
  destruct (readNoteAPI_effect remote filename rt) as [Hreq Hcache].
  repeat split; try assumption.
  - rewrite Hreq, bodyReads_app. unfold bodyReads at 2. simpl. lia.
  - rewrite Hreq, listingCalls_app. unfold listingCalls at 2. simpl. lia.
  - intros rt2. apply readNoteAPI_outcome.
Qed.

(** C3. A cached lookup of a name that the listing of the store does not
    report (or that is not the name of a note) fails with the not-found
    error after the listing call alone, with no body read and the cache
    untouched; an error of the listing call or of the body read reaches the
    caller as it was thrown. *)
Theorem getCachedNoteContent_failures
    (remote : Remote) (rt : Runtime) (filename : string) :
  (forall index,
      GET_index remote = Ok (inr index) ->
      List.find (fun f => String.eqb (SBFile.name f) filename) index = None \/
      JS.endsWith filename ".md" = false ->
      Cache.getCachedNoteContent remote filename true rt =
        (Throws (NoteNotFound filename),
         {| contentCache := contentCache rt;
            requests := requests rt ++ [GetIndex];
            console := console rt |})) /\
  (forall e,
      fst (Api.getFullFileListingAPI remote rt) = Throws e ->
      fst (Cache.getCachedNoteContent remote filename true rt) = Throws e /\
      contentCache (snd (Cache.getCachedNoteContent remote filename true rt)) =
        contentCache rt /\
      bodyReads (requests (snd (Cache.getCachedNoteContent remote filename true rt))) =
        bodyReads (requests rt)) /\
  (forall index noteInfo e,
      GET_index remote = Ok (inr index) ->
      JS.endsWith filename ".md" = true ->
      List.find (fun f => String.eqb (SBFile.name f) filename) index
        = Some noteInfo ->
      Cache.servable (contentCache rt !! filename) noteInfo = None ->
      fst (Api.readNoteAPI remote filename rt) = Throws e ->
      fst (Cache.getCachedNoteContent remote filename true rt) = Throws e) /\
  (forall e,
      fst (Api.readNoteAPI remote filename rt) = Throws e ->
      fst (Cache.getCachedNoteContent remote filename false rt) = Throws e).
Proof.
  repeat split.
  - intros index Hindex Habsent.
    unfold Cache.getCachedNoteContent, bind, throw. simpl.
    rewrite (getFullFileListingAPI_ok _ _ _ Hindex), find_among_notes.
    destruct Habsent as [-> | ->]; [destruct (JS.endsWith filename ".md") |];
      reflexivity.
  - revert H. unfold Cache.getCachedNoteContent, Api.getFullFileListingAPI,
      bind, send, throw, ret. simpl.
    destruct (GET_index remote) as [cause | [cause | files] | st tx text];
      simpl; congruence.
  - revert H. unfold Cache.getCachedNoteContent, Api.getFullFileListingAPI,
      bind, send, throw, ret. simpl.
    destruct (GET_index remote) as [cause | [cause | files] | st tx text];
      simpl; intros H; try reflexivity; discriminate.
  - revert H. unfold Cache.getCachedNoteContent, Api.getFullFileListingAPI,
      bind, send, throw, ret. simpl.
    destruct (GET_index remote) as [cause | [cause | files] | st tx text];
      simpl; intros H; try discriminate;
      rewrite bodyReads_app; unfold bodyReads at 2; simpl; lia.
  - intros index noteInfo e Hindex Hmd Hraw Hmiss Hread.
    assert (Hfind :
      List.find (fun f => String.eqb (SBFile.name f) filename)
        (List.filter (fun f => JS.endsWith (SBFile.name f) ".md") index)
        = Some noteInfo)
      by now rewrite find_among_notes, Hmd.
    rewrite (getCachedNoteContent_listed _ rt _ _ _ Hindex Hfind). cbv zeta.
    rewrite Hmiss.
    rewrite (readNoteAPI_outcome remote filename rt
               {| contentCache := contentCache rt;
                  requests := requests rt ++ [GetIndex];
                  console := console rt |}) in Hread.
    destruct (Api.readNoteAPI remote filename _) as [[fresh | e'] rt'];
      simpl in *; congruence.
  - intros e Hread. exact Hread.
Qed.

Lemma getCachedNoteContent_failures_witness :
  Cache.getCachedNoteContent Sample.store "b.md" true Sample.fresh =
    (Throws (NoteNotFound "b.md"),
     {| contentCache := ∅; requests := [GetIndex]; console := [] |}).
Proof.
  exact (proj1 (getCachedNoteContent_failures Sample.store Sample.fresh "b.md")
           [Sample.aFile] eq_refl (or_introl eq_refl)).
Defined.

(** ** create-note *)

Lemma writeNoteAPI_effect (remote : Remote) (filename body : string)
    (rt : Runtime) :
  requests (snd (Api.writeNoteAPI remote filename body rt)) =
    requests rt ++ [PutNote filename body].
Proof.
  unfold Api.writeNoteAPI, Api.handleFetchError, Api.handleResponseError,
    bind, send, consoleError, throw, ret.
  destruct (PUT_note remote filename body) as [cause | b | st tx [cause | txt]];
    reflexivity.
Qed.

(** The existence check is one read; it answers [true] exactly when the
    read returns. *)
Lemma noteExists_spec (remote : Remote) (filename : string) (rt : Runtime) :
  exists rt',
    Tools.noteExists remote filename rt =
      (Returns (match fst (Api.readNoteAPI remote filename rt) with
                | Returns _ => true
                | Throws _ => false
                end), rt') /\
    requests rt' = requests rt ++ [GetNote filename].
Proof.
  unfold Tools.noteExists, tryCatch, bind, ret.
  pose proof (readNoteAPI_effect remote filename rt) as [Hreq _].
  destruct (Api.readNoteAPI remote filename rt) as [[body | e] rt1];
    simpl in *; eexists; split; try reflexivity; assumption.
Qed.

(** The tool guards its file name before any call to the store. *)
Lemma createNote_needs_md (remote : Remote) (rt : Runtime)
    (filename body : string) (overwrite : bool) :
  JS.endsWith filename ".md" = false ->
  Tools.createNote remote filename body overwrite rt = (Returns MustEndWithMd, rt).
Proof.
  intros H. unfold Tools.createNote, tryCatch. now rewrite H.
Qed.

(** [create-note] without [overwrite], past the guard on the name. *)
Lemma createNote_checked (remote : Remote) (rt : Runtime)
    (filename body : string) :
  JS.endsWith filename ".md" = true ->
  exists rt1,
    requests rt1 = requests rt ++ [GetNote filename] /\
    Tools.createNote remote filename body false rt =
      match fst (Api.readNoteAPI remote filename rt) with
      | Returns _ => (Returns (AlreadyExists filename), rt1)
      | Throws _ =>
          match Api.writeNoteAPI remote filename body rt1 with
          | (Returns _, rt2) => (Returns (Created false filename), rt2)
          | (Throws e, rt2) =>
              (Returns (FailedToCreate e),
               snd (consoleError "[MCP Tool: create-note] Error creating note"
                      filename rt2))
          end
      end.
Proof.
  intros Hmd.
  destruct (noteExists_spec remote filename rt) as (rt1 & Hrun & Hreq1).
  exists rt1. split; [exact Hreq1 |].
  unfold Tools.createNote. rewrite Hmd. simpl negb. cbv iota.
  unfold tryCatch at 1, bind at 1. rewrite Hrun.
  destruct (fst (Api.readNoteAPI remote filename rt)); [reflexivity |].
  unfold bind, ret.
  destruct (Api.writeNoteAPI remote filename body rt1) as [[[] | e'] rt2];
    reflexivity.
Qed.

(** C10. [create-note] without [overwrite], for a name ending in [.md]:
    the tool writes exactly when its existence-check read throws. A read
    that returns gives the already-exists error and no write; a read that
    throws, whatever the error (a connection failure and a non-success
    status included), is followed by the write of the given content. *)
Theorem createNote_writes_iff_read_throws
    (remote : Remote) (rt : Runtime) (filename body : string) :
  JS.endsWith filename ".md" = true ->
  let out := Tools.createNote remote filename body false rt in
  (forall existing,
      fst (Api.readNoteAPI remote filename rt) = Returns existing ->
      fst out = Returns (AlreadyExists filename) /\
      requests (snd out) = requests rt ++ [GetNote filename]) /\
  (forall e,
      fst (Api.readNoteAPI remote filename rt) = Throws e ->
      requests (snd out) =
        requests rt ++ [GetNote filename; PutNote filename body] /\
      (fst out = Returns (Created false filename) \/
       exists e', fst out = Returns (FailedToCreate e'))) /\
  (writes (requests (snd out)) = S (writes (requests rt)) <->
   exists e, fst (Api.readNoteAPI remote filename rt) = Throws e) /\
  (writes (requests (snd out)) = writes (requests rt) <->
   exists existing, fst (Api.readNoteAPI remote filename rt) = Returns existing) /\
  (forall cause,
      GET_note remote filename = NetworkFailure cause ->
      In (PutNote filename body) (requests (snd out))) /\
  (forall status statusText text,
      GET_note remote filename = NotOk status statusText text ->
      In (PutNote filename body) (requests (snd out))).
Proof.
  intros Hmd out.
  assert (Hcases :
    (exists existing,
        fst (Api.readNoteAPI remote filename rt) = Returns existing /\
        fst out = Returns (AlreadyExists filename) /\
        requests (snd out) = requests rt ++ [GetNote filename]) \/
    (exists e,
        fst (Api.readNoteAPI remote filename rt) = Throws e /\
        requests (snd out) =
          requests rt ++ [GetNote filename; PutNote filename body] /\
        (fst out = Returns (Created false filename) \/
         exists e', fst out = Returns (FailedToCreate e')))).
  { destruct (createNote_checked remote rt filename body Hmd) as (rt1 & Hreq1 & Hrun).
    subst out. rewrite Hrun. clear Hrun.
    destruct (fst (Api.readNoteAPI remote filename rt)) as [existing | e].
    - left. exists existing. simpl. auto.
    - right. exists e. split; [reflexivity |].
      pose proof (writeNoteAPI_effect remote filename body rt1) as Hreq2.
      destruct (Api.writeNoteAPI remote filename body rt1) as [[[] | e'] rt2];
        simpl in *; rewrite Hreq2, Hreq1, <- List.app_assoc; simpl; eauto. }
  assert (Hw1 : forall xs, writes (xs ++ [GetNote filename]) = writes xs).
  { intros xs. rewrite writes_app. unfold writes at 2. simpl. lia. }
  assert (Hw2 : forall xs,
             writes (xs ++ [GetNote filename; PutNote filename body]) = S (writes xs)).
  { intros xs. rewrite writes_app. unfold writes at 2. simpl. lia. }
  assert (Hthrows : forall e,
             fst (Api.readNoteAPI remote filename rt) = Throws e ->
             requests (snd out) =
               requests rt ++ [GetNote filename; PutNote filename body] /\
             (fst out = Returns (Created false filename) \/
              exists e', fst out = Returns (FailedToCreate e'))).
  { intros e He.
    destruct Hcases as [(x & Hx & _) | (e0 & _ & H)]; [congruence | exact H]. }
  assert (Hissued : forall e,
             fst (Api.readNoteAPI remote filename rt) = Throws e ->
             In (PutNote filename body) (requests (snd out))).
  { intros e He. destruct (Hthrows e He) as [-> _].
    apply List.in_or_app. right. simpl. auto. }
  refine (conj _ (conj Hthrows (conj (conj _ _) (conj (conj _ _) (conj _ _))))).
  - intros existing Hx.
    destruct Hcases as [(x & _ & H) | (e & He & _)]; [exact H | congruence].
  - intros Hw.
    destruct Hcases as [(x & _ & _ & H) | (e & He & _)]; [| eauto].
    rewrite H, Hw1 in Hw. lia.
  - intros [e He]. destruct (Hthrows e He) as [-> _]. apply Hw2.
  - intros Hw.
    destruct Hcases as [(x & Hx & _) | (e & _ & H & _)]; [eauto |].
    rewrite H, Hw2 in Hw. lia.
  - intros [x Hx].
    destruct Hcases as [(x' & _ & _ & H) | (e & He & _)]; [| congruence].
    rewrite H. apply Hw1.
  - intros cause Hget.
    destruct (fst (Api.readNoteAPI remote filename rt)) as [x | e] eqn:Hread.
    + apply readNoteAPI_returns in Hread. congruence.
    + exact (Hissued e eq_refl).
  - intros status statusText text Hget.
    destruct (fst (Api.readNoteAPI remote filename rt)) as [x | e] eqn:Hread.
    + apply readNoteAPI_returns in Hread. congruence.
    + exact (Hissued e eq_refl).
Qed.

Lemma createNote_writes_iff_read_throws_witness :
  requests (snd (Tools.createNote Sample.brokenStore "a.md" "new text" false
                   Sample.fresh)) =
    [GetNote "a.md"; PutNote "a.md" "new text"].
Proof.
  destruct (createNote_writes_iff_read_throws Sample.brokenStore Sample.fresh
              "a.md" "new text" eq_refl) as (_ & Hthrows & _).
  exact (proj1 (Hthrows (FailedToConnect (NoteUrl "a.md") "ECONNRESET") eq_refl)).
Defined.

(** ** Patterns *)

(** The class escaped by the sources is the set of syntax characters. *)
Lemma inClass_isSyntaxCharacter (c : ascii) :
  Pattern.inClass c = Pattern.isSyntaxCharacter c.
Proof.
  destruct c as [[] [] [] [] [] [] [] []]; reflexivity.
Qed.

(** Escaping a query yields a literal pattern that spells the query. *)
Lemma escape_Literal (query : string) :
  Pattern.Literal (Pattern.escape query) query.
Proof.
  induction query as [| c rest IH]; simpl.
  - constructor.
  - destruct (Pattern.inClass c) eqn:Hc; rewrite inClass_isSyntaxCharacter in Hc.
    + now apply Pattern.Literal_escaped.
    + now apply Pattern.Literal_char.
Qed.

Lemma backslash_isSyntaxCharacter (c : ascii) :
  Pattern.isSyntaxCharacter c = false -> Ascii.eqb c "\" = false.
Proof.
  destruct (Ascii.eqb_spec c "\") as [-> |]; [discriminate | reflexivity].
Qed.

Lemma readLiteral_Literal (p t : string) :
  Pattern.Literal p t -> Pattern.readLiteral p = Some t.
Proof.
  induction 1 as [| c p t Hc _ IH | c p t Hc _ IH]; simpl.
  - reflexivity.
  - rewrite (backslash_isSyntaxCharacter c Hc), Hc, IH. reflexivity.
  - rewrite Hc, IH. reflexivity.
Qed.

(** The reference engine follows ECMAScript on literal patterns. *)
Lemma literalEngine_Lawful : Pattern.Lawful Pattern.literalEngine.
Proof.
  intros p t flags Hlit. exists (t, flags). simpl.
  rewrite (readLiteral_Literal p t Hlit). split; reflexivity.
Qed.

(** ** Search: the scan never throws *)

Section Scan.

Variable E : Engine.
Variable remote : Remote.

Lemma scanContent_returns (r : regex E) (concise : bool) (contextLines : Z)
    (enableCaching : bool) (note : NoteInfo.t) (rt : Runtime) :
  exists ms rt', Search.scanContent E remote r concise contextLines
                   enableCaching note rt = (Returns ms, rt').
Proof.
  unfold Search.scanContent, tryCatch, bind, ret, consoleError.
  destruct (Cache.getCachedNoteContent remote (NoteInfo.name note)
              enableCaching rt) as [[body | e] rt1]; eauto.
Qed.

Lemma searchNote_returns (r : regex E) (searchType : SearchType)
    (concise : bool) (contextLines : Z) (enableCaching : bool)
    (note : NoteInfo.t) (rt : Runtime) :
  exists pushed rt', Search.searchNote E remote r searchType concise
                       contextLines enableCaching note rt = (Returns pushed, rt').
Proof.
  unfold Search.searchNote, bind.
  destruct (inContent searchType).
  - destruct (scanContent_returns r concise contextLines enableCaching note rt)
      as (ms & rt' & ->).
    unfold ret. destruct (0 <? _)%nat; eauto.
  - unfold ret. destruct (0 <? _)%nat; eauto.
Qed.

Lemma searchEach_returns (r : regex E) (searchType : SearchType)
    (concise : bool) (contextLines : Z) (enableCaching : bool)
    (notes : list NoteInfo.t) (rt : Runtime) :
  exists results rt', Search.searchEach E remote r searchType concise
                        contextLines enableCaching notes rt = (Returns results, rt').
Proof.
  unfold Search.searchEach.
  revert rt. induction notes as [| note more IH]; intros rt; simpl.
  - unfold ret. eauto.
  - unfold bind at 1.
    destruct (searchNote_returns r searchType concise contextLines
                enableCaching note rt) as (pushed & rt1 & ->).
    unfold bind at 1.
    destruct (IH rt1) as (later & rt2 & ->). unfold ret. eauto.
Qed.

End Scan.

(** ** Search: malformed patterns *)

Section Fallback.

Variable E : Engine.
Variable remote : Remote.
Hypothesis lawful : Pattern.Lawful E.

(** The escaped query always compiles, and matches the query as text. *)
Lemma escaped_query_compiles (query : string) (caseSensitive : bool) :
  exists r,
    compile E (Pattern.escape query) (Search.searchFlags caseSensitive) = Some r /\
    forall s,
      countMatches E r s = Pattern.occurrences (negb caseSensitive) query s.
Proof.
  exact (lawful _ _ (Search.searchFlags caseSensitive) (escape_Literal query)).
Qed.

Lemma compileQuery_returns (query : string) (caseSensitive : bool)
    (rt : Runtime) :
  exists compiled,
    Search.compileQuery E query caseSensitive rt = (Returns compiled, rt).
Proof.
  unfold Search.compileQuery. cbv zeta.
  destruct (compile E query (Search.searchFlags caseSensitive)) as [r |].
  - unfold ret. eauto.
  - destruct (escaped_query_compiles query caseSensitive) as (r & -> & _).
    unfold ret. eauto.
Qed.

(** With a lawful engine only the listing call can make the search fail. *)
Lemma searchNotes_failure (query : string) (searchType : SearchType)
    (caseSensitive : bool) (maxResults page contextLines : Z)
    (concise enableCaching : bool) (rt : Runtime) (e : Error) :
  fst (Search.searchNotes E remote query searchType caseSensitive maxResults
         page contextLines concise enableCaching rt) = SearchFailed e ->
  fst (Api.listNotesAPI remote rt) = Throws e.
Proof.
  unfold Search.searchNotes, Search.rankedResults. unfold bind at 1.
  destruct (Api.listNotesAPI remote rt) as [[notes | e0] rt1]; simpl.
  - unfold bind at 1.
    destruct (compileQuery_returns query caseSensitive rt1) as (compiled & ->).
    unfold bind at 1.
    destruct (searchEach_returns E remote (fst compiled) searchType concise
                contextLines enableCaching notes rt1) as (results & rt2 & ->).
    unfold ret. destruct (_ =? 0)%nat; simpl; discriminate.
  - intros H. congruence.
Qed.

End Fallback.

Lemma fold_matchCount (ms : list SearchMatch.t) (acc : nat) :
  fold_left (fun sum m => (sum + SearchMatch.matchCount m)%nat) ms acc =
  (acc + list_sum (List.map SearchMatch.matchCount ms))%nat.
Proof.
  revert acc. induction ms as [| m ms IH]; intros acc; simpl.
  - lia.
  - rewrite IH. lia.
Qed.

Lemma totalMatchCount_sum (ms : list SearchMatch.t) :
  Search.totalMatchCount ms = list_sum (List.map SearchMatch.matchCount ms).
Proof. unfold Search.totalMatchCount. now rewrite fold_matchCount. Qed.

Section Literal.

Variable E : Engine.
Variable remote : Remote.
Variable r : regex E.
Variable ignoreCase : bool.
Variable query : string.
Hypothesis counts :
  forall s, countMatches E r s = Pattern.occurrences ignoreCase query s.

Lemma titleMatch_view (note : NoteInfo.t) :
  List.map Literally.view (Search.titleMatch E r note) =
  Literally.titleHits ignoreCase query (NoteInfo.name note).
Proof.
  unfold Search.titleMatch, Literally.titleHits. cbv zeta. rewrite counts.
  now destruct (Pattern.occurrences ignoreCase query (NoteInfo.name note)).
Qed.

Lemma forEachLine_view (concise : bool) (contextLines : Z) (lines : list string)
    (remaining : list string) :
  forall lineIndex,
    List.map Literally.view
      (Search.forEachLine E r concise contextLines lines lineIndex remaining) =
    Literally.lineHits ignoreCase query (lineIndex + 1) remaining.
Proof.
  induction remaining as [| line more IH]; intros lineIndex; [reflexivity |].
  simpl Search.forEachLine. rewrite List.map_app, IH.
  unfold Search.lineMatch. cbv zeta. rewrite counts. simpl Literally.lineHits.
  now destruct (Pattern.occurrences ignoreCase query line).
Qed.

Lemma contentMatches_view (concise : bool) (contextLines : Z) (body : string) :
  List.map Literally.view (Search.contentMatches E r concise contextLines body) =
  Literally.lineHits ignoreCase query 1 (JS.splitLines body).
Proof.
  unfold Search.contentMatches. cbv zeta. now rewrite forEachLine_view.
Qed.

(** The content part of an iteration is the lookup of the body followed by
    the scan of its lines. *)
Lemma scanContent_lookup (concise : bool) (contextLines : Z)
    (enableCaching : bool) (note : NoteInfo.t) (rt : Runtime) :
  Search.scanContent E remote r concise contextLines enableCaching note rt =
  (Returns
     match fst (Literally.lookup remote enableCaching (NoteInfo.name note) rt) with
     | Returns body => Search.contentMatches E r concise contextLines body
     | Throws _ => []
     end,
   snd (Literally.lookup remote enableCaching (NoteInfo.name note) rt)).
Proof.
  unfold Search.scanContent, Literally.lookup, tryCatch, bind, ret, throw,
    consoleError.
  now destruct (Cache.getCachedNoteContent remote (NoteInfo.name note)
                  enableCaching rt) as [[body | e] rt1].
Qed.

Lemma map_view_nil (ms : list SearchMatch.t) :
  List.map Literally.view ms = [] -> ms = [].
Proof. now destruct ms. Qed.

(** What one iteration pushes, given the body the scan has at hand. *)
Lemma pushed_view (searchType : SearchType) (note : NoteInfo.t)
    (fromContent : list SearchMatch.t) (body : option string) :
  List.map Literally.view fromContent =
    match body with
    | Some text => Literally.lineHits ignoreCase query 1 (JS.splitLines text)
    | None => []
    end ->
  let matches :=
    (if inTitle searchType then Search.titleMatch E r note else []) ++ fromContent in
  let pushed :=
    if (0 <? List.length matches)%nat
    then [SearchResult.mk (NoteInfo.name note) (NoteInfo.perm note) matches
            (Search.totalMatchCount matches)]
    else [] in
  List.map Literally.resultView pushed =
    match Literally.hits ignoreCase query searchType (NoteInfo.name note) body with
    | [] => []
    | shown => [(NoteInfo.name note, NoteInfo.perm note, shown)]
    end /\
  Forall Search.scored pushed.
Proof.
  intros Hcontent matches pushed.
  assert (Hview : List.map Literally.view matches =
                  Literally.hits ignoreCase query searchType (NoteInfo.name note) body).
  { unfold matches, Literally.hits. rewrite List.map_app, Hcontent.
    destruct (inTitle searchType); [now rewrite titleMatch_view | reflexivity]. }
  subst pushed. destruct matches as [| m ms] eqn:Hmatches.
  - simpl in *. rewrite <- Hview. split; [reflexivity | constructor].
  - rewrite <- Hmatches in *. 
    assert (Hlen : (0 <? List.length matches)%nat = true)
      by (rewrite Hmatches; reflexivity).
    rewrite Hlen. split.
    + unfold Literally.resultView. simpl. rewrite Hview.
      destruct (Literally.hits ignoreCase query searchType (NoteInfo.name note) body)
        eqn:Hhits; [| reflexivity].
      apply map_view_nil in Hview. rewrite Hview in Hmatches. discriminate.
    + constructor; [| constructor]. unfold Search.scored. simpl.
      apply totalMatchCount_sum.
Qed.

Lemma searchEach_literally (searchType : SearchType) (concise : bool)
    (contextLines : Z) (enableCaching : bool) (notes : list NoteInfo.t) :
  forall rt,
  exists results,
    Search.searchEach E remote r searchType concise contextLines enableCaching
      notes rt =
      (Returns results,
       snd (Literally.bodies remote searchType enableCaching notes rt)) /\
    List.map Literally.resultView results =
      Literally.found ignoreCase query searchType notes
        (fst (Literally.bodies remote searchType enableCaching notes rt)) /\
    Forall Search.scored results.
Proof.
  unfold Search.searchEach, Literally.bodies, Literally.found.
  induction notes as [| note more IH]; intros rt.
  - exists []. destruct (inContent searchType); simpl; repeat split; constructor.
  - simpl forOf. unfold bind at 1. unfold Search.searchNote at 1. unfold bind at 1.
    destruct (inContent searchType) eqn:Hcontent.
    + rewrite scanContent_lookup. simpl List.map. simpl readEach.
      destruct (Literally.lookup remote enableCaching (NoteInfo.name note) rt)
        as [outcome rt1].
      cbn [fst snd].
      destruct (IH rt1) as (later & Hrest & Hviews & Hscored).
      destruct (readEach (Literally.lookup remote enableCaching)
                  (List.map NoteInfo.name more) rt1) as [outcomes rt'].
      cbn [fst snd] in *.
      destruct (pushed_view searchType note
                  match outcome with
                  | Returns body => Search.contentMatches E r concise contextLines body
                  | Throws _ => []
                  end
                  match outcome with
                  | Returns body => Some body
                  | Throws _ => None
                  end) as (Hpushed & Hone).
      { destruct outcome; [apply contentMatches_view | reflexivity]. }
      cbv zeta in Hpushed, Hone.
      destruct (0 <? _)%nat; unfold ret at 1; unfold bind at 1; rewrite Hrest;
        unfold ret;
        (eexists; split; [reflexivity |]; split;
         [ rewrite List.map_app, Hviews; simpl concat; now rewrite <- Hpushed
         | apply Forall_app; split; assumption ]).
    + unfold ret at 1.
      destruct (IH rt) as (later & Hrest & Hviews & Hscored).
      cbn [fst snd] in *.
      destruct (pushed_view searchType note [] None eq_refl) as (Hpushed & Hone).
      cbv zeta in Hpushed, Hone.
      destruct (0 <? _)%nat; unfold ret at 1; unfold bind at 1; rewrite Hrest;
        unfold ret;
        (eexists; split; [reflexivity |]; split;
         [ rewrite List.map_app, Hviews; simpl concat; now rewrite <- Hpushed
         | apply Forall_app; split; assumption ]).
Qed.

End Literal.

Lemma fold_score (results : list SearchResult.t) :
  forall acc,
    fold_left (fun sum r => (sum + SearchResult.score r)%nat) results acc =
    (acc + list_sum (List.map SearchResult.score results))%nat.
Proof.
  induction results as [| r rs IH]; intros acc; simpl; [lia |].
  rewrite IH. lia.
Qed.

(** A search with a pattern that counts the occurrences of a text finds
    what the search for that text is to find. *)
Lemma searchNotes_literally (E : Engine) (remote : Remote) (r : regex E)
    (query : string) (searchType : SearchType) (caseSensitive : bool)
    (maxResults page contextLines : Z) (concise enableCaching : bool)
    (rt rt1 : Runtime) (notes : list NoteInfo.t) :
  (forall rt0,
      Search.compileQuery E query caseSensitive rt0 = (Returns (r, true), rt0)) ->
  (forall s,
      countMatches E r s = Pattern.occurrences (negb caseSensitive) query s) ->
  Api.listNotesAPI remote rt = (Returns notes, rt1) ->
  exists results,
    List.map Literally.resultView results =
      Literally.found (negb caseSensitive) query searchType notes
        (fst (Literally.bodies remote searchType enableCaching notes rt1)) /\
    Forall Search.scored results /\
    Search.searchNotes E remote query searchType caseSensitive maxResults page
      contextLines concise enableCaching rt =
      (match Search.sortByScore results with
       | [] => NoMatches
       | (_ :: _) as ranked =>
           SearchPage true (List.length ranked)
             (list_sum (List.map SearchResult.score ranked))
             (JS.ceilDiv (Z.of_nat (List.length ranked)) maxResults)
             ((page - 1) * maxResults)
             (Search.paginate ranked maxResults page)
       end,
       snd (Literally.bodies remote searchType enableCaching notes rt1)).
Proof.
  intros Hcompiled Hcounts Hlist.
  destruct (searchEach_literally E remote r (negb caseSensitive) query Hcounts
              searchType concise contextLines enableCaching notes rt1)
    as (results & Hrun & Hviews & Hscored).
  exists results. split; [exact Hviews |]. split; [exact Hscored |].
  unfold Search.searchNotes, Search.rankedResults.
  unfold bind at 1. rewrite Hlist.
  unfold bind at 1. rewrite Hcompiled.
  unfold bind at 1. cbn [fst snd]. rewrite Hrun. unfold ret.
  destruct (Search.sortByScore results) as [| first others]; [reflexivity |].
  cbn [List.length Nat.eqb]. now rewrite fold_score.
Qed.

(** C4. With an engine that follows ECMAScript on literal patterns, a query
    that the pattern constructor rejects is escaped, the escaped form
    compiles, and the resulting pattern counts exactly the occurrences of
    the query as text (up to letter case unless the search is
    case-sensitive). The search then fails only if the listing call does,
    and once the listing has answered it completes as the search for the
    query as text: its results are the listed notes whose name (when
    titles are searched) or whose body (when the content is searched and
    the body could be looked up) holds the text, each with the name and
    the trimmed lines in which the text occurs and the number of its
    occurrences there; it answers that nothing matches exactly when there
    is no such note, and otherwise the page of these results, ranked, with
    the fallback notice. The query "a(" is escaped to the pattern a\( and
    searched as the text "a(". *)
Theorem malformed_query_searched_literally (E : Engine) (remote : Remote) :
  Pattern.Lawful E ->
  (forall query caseSensitive,
      compile E query (Search.searchFlags caseSensitive) = None ->
      Pattern.Literal (Pattern.escape query) query /\
      exists r,
        compile E (Pattern.escape query) (Search.searchFlags caseSensitive) = Some r /\
        (forall rt,
            Search.compileQuery E query caseSensitive rt = (Returns (r, true), rt)) /\
        (forall s,
            countMatches E r s =
              Pattern.occurrences (negb caseSensitive) query s) /\
        (forall searchType maxResults page contextLines concise enableCaching rt e,
            fst (Search.searchNotes E remote query searchType caseSensitive
                   maxResults page contextLines concise enableCaching rt)
              = SearchFailed e ->
            fst (Api.listNotesAPI remote rt) = Throws e) /\
        (forall searchType maxResults page contextLines concise enableCaching
                rt notes rt1,
            Api.listNotesAPI remote rt = (Returns notes, rt1) ->
            exists results,
              List.map Literally.resultView results =
                Literally.found (negb caseSensitive) query searchType notes
                  (fst (Literally.bodies remote searchType enableCaching notes rt1)) /\
              Forall Search.scored results /\
              Search.searchNotes E remote query searchType caseSensitive
                maxResults page contextLines concise enableCaching rt =
                (match Search.sortByScore results with
                 | [] => NoMatches
                 | (_ :: _) as ranked =>
                     SearchPage true (List.length ranked)
                       (list_sum (List.map SearchResult.score ranked))
                       (JS.ceilDiv (Z.of_nat (List.length ranked)) maxResults)
                       ((page - 1) * maxResults)
                       (Search.paginate ranked maxResults page)
                 end,
                 snd (Literally.bodies remote searchType enableCaching notes rt1)))) /\
  Pattern.escape "a(" = "a\(" /\
  (forall caseSensitive,
      compile E "a(" (Search.searchFlags caseSensitive) = None ->
      exists r,
        (forall rt,
            Search.compileQuery E "a(" caseSensitive rt = (Returns (r, true), rt)) /\
        (forall s,
            countMatches E r s = Pattern.occurrences (negb caseSensitive) "a(" s) /\
        (forall searchType maxResults page contextLines concise enableCaching
                rt notes rt1,
            Api.listNotesAPI remote rt = (Returns notes, rt1) ->
            exists results,
              List.map Literally.resultView results =
                Literally.found (negb caseSensitive) "a(" searchType notes
                  (fst (Literally.bodies remote searchType enableCaching notes rt1)) /\
              Search.searchNotes E remote "a(" searchType caseSensitive
                maxResults page contextLines concise enableCaching rt =
                (match Search.sortByScore results with
                 | [] => NoMatches
                 | (_ :: _) as ranked =>
                     SearchPage true (List.length ranked)
                       (list_sum (List.map SearchResult.score ranked))
                       (JS.ceilDiv (Z.of_nat (List.length ranked)) maxResults)
                       ((page - 1) * maxResults)
                       (Search.paginate ranked maxResults page)
                 end,
                 snd (Literally.bodies remote searchType enableCaching notes rt1)))).
Proof.
  intros lawful.
  assert (Hgeneral : forall query caseSensitive,
      compile E query (Search.searchFlags caseSensitive) = None ->
      exists r,
        compile E (Pattern.escape query) (Search.searchFlags caseSensitive) = Some r /\
        (forall rt,
            Search.compileQuery E query caseSensitive rt = (Returns (r, true), rt)) /\
        (forall s,
            countMatches E r s =
              Pattern.occurrences (negb caseSensitive) query s)).
  { intros query caseSensitive Hbad.
    destruct (escaped_query_compiles E lawful query caseSensitive) as (r & Hr & Hcount).
    exists r. repeat split; try assumption.
    intros rt. unfold Search.compileQuery. cbv zeta.
    now rewrite Hbad, Hr. }
  split; [| split; [reflexivity |]].
  - intros query caseSensitive Hbad.
    split; [apply escape_Literal |].
    destruct (Hgeneral query caseSensitive Hbad) as (r & Hr & Hq & Hcount).
    exists r. split; [exact Hr |]. split; [exact Hq |]. split; [exact Hcount |].
    split.
    + intros searchType maxResults page contextLines concise enableCaching rt e.
      now apply searchNotes_failure.
    + intros searchType maxResults page contextLines concise enableCaching
        rt notes rt1 Hlist.
      now apply (searchNotes_literally E remote r).
  - intros caseSensitive Hbad.
    destruct (Hgeneral "a(" caseSensitive Hbad) as (r & _ & Hq & Hcount).
    exists r. split; [exact Hq |]. split; [exact Hcount |].
    intros searchType maxResults page contextLines concise enableCaching
      rt notes rt1 Hlist.
    destruct (searchNotes_literally E remote r "a(" searchType caseSensitive
                maxResults page contextLines concise enableCaching rt rt1 notes
                Hq Hcount Hlist) as (results & Hviews & _ & Hrun).
    exists results. split; assumption.
Qed.

Lemma malformed_query_searched_literally_witness :
  exists r results,
    Search.compileQuery Pattern.literalEngine "a(" false Sample.fresh =
      (Returns (r, true), Sample.fresh) /\
    countMatches Pattern.literalEngine r "f(A(b), a(c))" = 2%nat /\
    List.map Literally.resultView results =
      [("a(b.md", rw,
        [(title, 0, "a(b.md", 1%nat);
         (content, 1, "call a(1)", 1%nat);
         (content, 2, "A( and a(", 2%nat)])] /\
    fst (Search.searchNotes Pattern.literalEngine Literally.store "a(" searchBoth
           false 10 1 0 true false Sample.fresh) =
      match Search.sortByScore results with
      | [] => NoMatches
      | (_ :: _) as ranked =>
          SearchPage true (List.length ranked)
            (list_sum (List.map SearchResult.score ranked))
            (JS.ceilDiv (Z.of_nat (List.length ranked)) 10) 0
            (Search.paginate ranked 10 1)
      end.
Proof.
  destruct (malformed_query_searched_literally Pattern.literalEngine
              Literally.store literalEngine_Lawful) as (_ & _ & Hparen).
  destruct (Hparen false eq_refl) as (r & Hq & Hcount & Hsearch).
  destruct (Hsearch searchBoth 10 1 0 true false Sample.fresh _ _ eq_refl)
    as (results & Hviews & Hrun).
  exists r, results. split; [apply Hq |]. split; [rewrite Hcount; reflexivity |].
  split; [exact Hviews |].
  now rewrite Hrun.
Defined.

(** ** Search: scores and ranking *)

Lemma sum_of_single_occurrences (ms : list SearchMatch.t) :
  Forall (fun m => SearchMatch.matchCount m = 1%nat) ms ->
  list_sum (List.map SearchMatch.matchCount ms) = List.length ms.
Proof.
  induction 1 as [| m ms Hm _ IH]; simpl; [reflexivity |].
  rewrite Hm, IH. reflexivity.
Qed.

Lemma insertByScore_Permutation (a : SearchResult.t) (l : list SearchResult.t) :
  Permutation (a :: l) (Search.insertByScore a l).
Proof.
  induction l as [| b rest IH]; simpl.
  - reflexivity.
  - destruct (SearchResult.score b <=? SearchResult.score a)%nat.
    + reflexivity.
    + rewrite perm_swap. now apply perm_skip.
Qed.

Lemma sortByScore_Permutation (l : list SearchResult.t) :
  Permutation l (Search.sortByScore l).
Proof.
  induction l as [| a l IH]; simpl.
  - reflexivity.
  - rewrite <- insertByScore_Permutation. now apply perm_skip.
Qed.

Lemma insertByScore_sorted (a : SearchResult.t) (l : list SearchResult.t) :
  StronglySorted Search.notBelow l -> StronglySorted Search.notBelow (Search.insertByScore a l).
Proof.
  induction 1 as [| b rest Hsorted IH Hall]; simpl.
  - repeat constructor.
  - destruct (Nat.leb_spec (SearchResult.score b) (SearchResult.score a)) as [Hle | Hlt].
    + constructor; [now constructor |].
      constructor; [exact Hle |].
      eapply List.Forall_impl; [| exact Hall].
      unfold Search.notBelow. intros c Hc. lia.
    + constructor; [exact IH |].
      rewrite <- (insertByScore_Permutation a rest).
      constructor; [unfold Search.notBelow; lia | exact Hall].
Qed.

Lemma sortByScore_sorted (l : list SearchResult.t) :
  StronglySorted Search.notBelow (Search.sortByScore l).
Proof.
  induction l as [| a l IH]; simpl.
  - constructor.
  - now apply insertByScore_sorted.
Qed.

(** Insertion does not reorder results of equal score. *)
Lemma insertByScore_stable (k : nat) (a : SearchResult.t)
    (l : list SearchResult.t) :
  List.filter (Search.scoreIs k) (Search.insertByScore a l) =
  List.filter (Search.scoreIs k) (a :: l).
Proof.
  induction l as [| b rest IH]; simpl; [reflexivity |].
  destruct (Nat.leb_spec (SearchResult.score b) (SearchResult.score a)) as [Hle | Hlt];
    [reflexivity |].
  simpl in *. rewrite IH. unfold Search.scoreIs.
  destruct (Nat.eqb_spec (SearchResult.score a) k) as [Ha | Ha];
    destruct (Nat.eqb_spec (SearchResult.score b) k) as [Hb | Hb];
    try reflexivity.
  lia.
Qed.

Lemma sortByScore_stable (k : nat) (l : list SearchResult.t) :
  List.filter (Search.scoreIs k) (Search.sortByScore l) = List.filter (Search.scoreIs k) l.
Proof.
  induction l as [| a l IH]; simpl; [reflexivity |].
  rewrite insertByScore_stable. simpl. now rewrite IH.
Qed.

Section Ranking.

Variable E : Engine.
Variable remote : Remote.

Lemma searchNote_pushed (r : regex E) (searchType : SearchType)
    (concise : bool) (contextLines : Z) (enableCaching : bool)
    (note : NoteInfo.t) (rt rt' : Runtime) (pushed : list SearchResult.t) :
  Search.searchNote E remote r searchType concise contextLines enableCaching
    note rt = (Returns pushed, rt') ->
  pushed = [] \/
  exists result,
    pushed = [result] /\ Search.scored result /\
    SearchResult.filename result = NoteInfo.name note.
Proof.
  unfold Search.searchNote, bind.
  destruct (if inContent searchType then _ else _) as [[ms | e] rt1];
    [| discriminate].
  unfold ret. destruct (0 <? _)%nat; intros [= <- _]; [right | now left].
  eexists. split; [reflexivity |]. split; [| reflexivity].
  unfold Search.scored. simpl. apply totalMatchCount_sum.
Qed.

Lemma searchEach_pushed (r : regex E) (searchType : SearchType)
    (concise : bool) (contextLines : Z) (enableCaching : bool)
    (notes : list NoteInfo.t) (rt rt' : Runtime)
    (pushed : list SearchResult.t) :
  Search.searchEach E remote r searchType concise contextLines enableCaching
    notes rt = (Returns pushed, rt') ->
  Forall Search.scored pushed /\
  sublist (List.map SearchResult.filename pushed) (List.map NoteInfo.name notes).
Proof.
  unfold Search.searchEach.
  revert rt rt' pushed. induction notes as [| note more IH];
    intros rt rt' pushed; simpl.
  - unfold ret. intros [= <- _]. split; constructor.
  - unfold bind at 1.
    destruct (Search.searchNote E remote r searchType concise contextLines
                enableCaching note rt) as [[first | e] rt1] eqn:Hnote;
      [| discriminate].
    unfold bind at 1.
    destruct (forOf _ more rt1) as [[later | e] rt2] eqn:Hmore;
      [| discriminate].
    unfold ret. intros [= <- _].
    destruct (IH _ _ _ Hmore) as [Hsc Hsub].
    destruct (searchNote_pushed _ _ _ _ _ _ _ _ _ Hnote)
      as [-> | (result & -> & Hresult & Hname)]; simpl.
    + split; [exact Hsc | now apply sublist_cons].
    + split; [now constructor |]. rewrite Hname. now apply sublist_skip.
Qed.

End Ranking.

(** The search sees a pattern only through its match counts. *)
Section SameCounts.

Variables E E' : Engine.
Variable remote : Remote.
Variable r : regex E.
Variable r' : regex E'.
Hypothesis same : forall s, countMatches E r s = countMatches E' r' s.

Lemma titleMatch_same (note : NoteInfo.t) :
  Search.titleMatch E r note = Search.titleMatch E' r' note.
Proof. unfold Search.titleMatch. now rewrite same. Qed.

Lemma forEachLine_same (concise : bool) (contextLines : Z)
    (lines : list string) (lineIndex : Z) (remaining : list string) :
  Search.forEachLine E r concise contextLines lines lineIndex remaining =
  Search.forEachLine E' r' concise contextLines lines lineIndex remaining.
Proof.
  revert lineIndex. induction remaining as [| line more IH]; intros lineIndex;
    simpl; [reflexivity |].
  unfold Search.lineMatch. now rewrite same, IH.
Qed.

Lemma searchNote_same (searchType : SearchType) (concise : bool)
    (contextLines : Z) (enableCaching : bool) (note : NoteInfo.t)
    (rt : Runtime) :
  Search.searchNote E remote r searchType concise contextLines enableCaching
    note rt =
  Search.searchNote E' remote r' searchType concise contextLines enableCaching
    note rt.
Proof.
  unfold Search.searchNote, Search.scanContent, Search.contentMatches,
    tryCatch, bind.
  rewrite titleMatch_same.
  destruct (inContent searchType); [| reflexivity].
  destruct (Cache.getCachedNoteContent remote (NoteInfo.name note)
              enableCaching rt) as [[body | e] rt1]; [| reflexivity].
  unfold ret. now rewrite forEachLine_same.
Qed.

Lemma searchEach_same (searchType : SearchType) (concise : bool)
    (contextLines : Z) (enableCaching : bool) (notes : list NoteInfo.t)
    (rt : Runtime) :
  Search.searchEach E remote r searchType concise contextLines enableCaching
    notes rt =
  Search.searchEach E' remote r' searchType concise contextLines enableCaching
    notes rt.
Proof.
  unfold Search.searchEach.
  revert rt. induction notes as [| note more IH]; intros rt; simpl;
    [reflexivity |].
  unfold bind at 1 3. rewrite searchNote_same.
  destruct (Search.searchNote E' remote r' searchType concise contextLines
              enableCaching note rt) as [[pushed | e] rt1]; [| reflexivity].
  unfold bind. now rewrite IH.
Qed.

End SameCounts.

(** With a lawful engine a literal query is searched as by the reference
    engine. *)
Lemma rankedResults_literal (E : Engine) (remote : Remote) (query : string)
    (searchType : SearchType) (caseSensitive concise : bool)
    (contextLines : Z) (enableCaching : bool) (rt : Runtime) :
  Pattern.Lawful E ->
  Pattern.Literal query query ->
  Search.rankedResults E remote query searchType caseSensitive concise
    contextLines enableCaching rt =
  Search.rankedResults Pattern.literalEngine remote query searchType
    caseSensitive concise contextLines enableCaching rt.
Proof.
  intros lawful Hlit.
  destruct (lawful query query (Search.searchFlags caseSensitive) Hlit)
    as (r & Hr & Hcount).
  destruct (literalEngine_Lawful query query (Search.searchFlags caseSensitive) Hlit)
    as (r' & Hr' & Hcount').
  unfold Search.rankedResults. unfold bind at 1 4.
  destruct (Api.listNotesAPI remote rt) as [[notes | e] rt1]; [| reflexivity].
  unfold Search.compileQuery. cbv zeta. rewrite Hr, Hr'.
  unfold bind at 1 3, ret at 1 3. cbn [fst snd].
  unfold bind.
  rewrite (searchEach_same E Pattern.literalEngine remote r r'); [reflexivity |].
  intros s. now rewrite Hcount, Hcount'.
Qed.

(** C5. In every search each result's score is the sum of the match counts
    of its matches (so matches of one occurrence each score their number),
    and the result sequence is the stable descending sort by score of the
    results taken in listing order: sorted by score, a permutation, and with
    results of equal score in their listing order. A case-insensitive
    content search for "foo" over the body "Foo bar\nbaz foo" gives one
    result with two content matches, at lines 1 and 2, and score 2. *)
Theorem search_results_scored_and_ranked (E : Engine) (remote : Remote) :
  (forall query searchType caseSensitive concise contextLines enableCaching
          rt fallback ranked rt',
      Search.rankedResults E remote query searchType caseSensitive concise
        contextLines enableCaching rt = (Returns (fallback, ranked), rt') ->
      Forall Search.scored ranked /\
      Forall (fun result =>
                Forall (fun m => SearchMatch.matchCount m = 1%nat)
                  (SearchResult.matches result) ->
                SearchResult.score result =
                  List.length (SearchResult.matches result)) ranked /\
      StronglySorted Search.notBelow ranked /\
      exists notes pushed,
        fst (Api.listNotesAPI remote rt) = Returns notes /\
        sublist (List.map SearchResult.filename pushed)
          (List.map NoteInfo.name notes) /\
        ranked = Search.sortByScore pushed /\
        Permutation pushed ranked /\
        forall k,
          List.filter (Search.scoreIs k) ranked =
          List.filter (Search.scoreIs k) pushed) /\
  (Pattern.Lawful E ->
   fst (Search.rankedResults E Sample.store "foo" searchContent false true 1
          true Sample.fresh) =
     Returns
       (false,
        [ SearchResult.mk "a.md" rw
            [ SearchMatch.mk content 1 "Foo bar" 1 (Some EmptyString)
                (Some 1) (Some 2);
              SearchMatch.mk content 2 "baz foo" 1 (Some EmptyString)
                (Some 1) (Some 2) ]
            2 ])).
Proof.
  split.
  - intros query searchType caseSensitive concise contextLines enableCaching
      rt fallback ranked rt'.
    unfold Search.rankedResults. unfold bind at 1.
    destruct (Api.listNotesAPI remote rt) as [[notes | e] rt1]; [| discriminate].
    unfold bind at 1.
    destruct (Search.compileQuery E query caseSensitive rt1)
      as [[compiled | e] rt2]; [| discriminate].
    unfold bind at 1.
    destruct (Search.searchEach E remote compiled.1 searchType concise
                contextLines enableCaching notes rt2)
      as [[pushed | e] rt3] eqn:Hscan; [| discriminate].
    unfold ret. intros [= _ <- _].
    destruct (searchEach_pushed _ _ _ _ _ _ _ _ _ _ _ Hscan) as [Hscored Hsub].
    assert (Hranked : Forall Search.scored (Search.sortByScore pushed)).
    { rewrite <- (sortByScore_Permutation pushed). exact Hscored. }
    split; [exact Hranked |].
    split.
    { eapply List.Forall_impl; [| exact Hranked].
      intros result Hresult Hones. rewrite Hresult.
      now apply sum_of_single_occurrences. }
    split; [apply sortByScore_sorted |].
    exists notes, pushed. simpl.
    repeat split; try assumption.
    + apply sortByScore_Permutation.
    + intros k. apply sortByScore_stable.
  - intros lawful.
    rewrite rankedResults_literal; [reflexivity | exact lawful |].
    repeat constructor.
Qed.

Lemma search_results_scored_and_ranked_witness :
  StronglySorted Search.notBelow
    (snd (match fst (Search.rankedResults Pattern.literalEngine Sample.store
                       "foo" searchContent false true 1 true Sample.fresh) with
          | Returns found => found
          | Throws _ => (false, [])
          end)) /\
  SearchResult.score
    (List.hd (SearchResult.mk EmptyString ro [] 0)
       (snd (match fst (Search.rankedResults Pattern.literalEngine Sample.store
                          "foo" searchContent false true 1 true Sample.fresh) with
             | Returns found => found
             | Throws _ => (false, [])
             end))) = 2%nat.
Proof.
  destruct (search_results_scored_and_ranked Pattern.literalEngine Sample.store)
    as [Hranked Hexample].
  specialize (Hexample literalEngine_Lawful).
  destruct (Search.rankedResults Pattern.literalEngine Sample.store "foo"
              searchContent false true 1 true Sample.fresh)
    as [[[fallback ranked] | e] rt'] eqn:Hrun; [| discriminate].
  destruct (Hranked _ _ _ _ _ _ _ _ _ _ Hrun) as (_ & _ & Hsorted & _).
  simpl in Hexample. injection Hexample as -> ->.
  split; [exact Hsorted | reflexivity].
Defined.

(** ** Search: pagination *)

Lemma take_at_most_length {A} (l : list A) (n : nat) :
  take (Nat.min n (List.length l)) l = take n l.
Proof.
  destruct (Nat.le_ge_cases n (List.length l)) as [H | H].
  - now rewrite Nat.min_l.
  - rewrite Nat.min_r by exact H. now rewrite !take_ge.
Qed.

(** A page is a chunk of the results. *)
Lemma paginate_chunk {A} (results : list A) (n p : Z) :
  0 < n -> 1 <= p ->
  Search.paginate results n p =
    take (Z.to_nat n) (drop (Z.to_nat ((p - 1) * n)) results).
Proof.
  intros Hn Hp. unfold Search.paginate, JS.slice, JS.relativeIndex.
  set (total := Z.of_nat (List.length results)).
  set (start := (p - 1) * n).
  assert (Hstart : 0 <= start) by (subst start; nia).
  assert (Htotal : 0 <= total) by (subst total; lia).
  destruct (Z.ltb_spec start 0) as [? | _]; [lia |].
  destruct (Z.ltb_spec (Z.min (start + n) total) 0) as [? | _]; [lia |].
  destruct (Z.le_gt_cases start total) as [Hin | Hout].
  - replace (Z.min start total) with start by lia.
    replace (Z.min (Z.min (start + n) total) total) with (Z.min (start + n) total)
      by lia.
    rewrite <- (take_at_most_length (drop (Z.to_nat start) results) (Z.to_nat n)).
    f_equal. rewrite length_drop. subst total. lia.
  - replace (Z.min start total) with total by lia.
    replace (Z.min (Z.min (start + n) total) total) with total by lia.
    replace (Z.to_nat (total - total)) with 0%nat by lia.
    rewrite (drop_ge results (Z.to_nat start)) by (subst total; lia).
    now rewrite take_nil.
Qed.

Lemma chunks_concat {A} (l : list A) (m pages : nat) :
  concat (List.map (fun k => take m (drop ((k - 1) * m) l)) (seq 1 pages)) =
  take (pages * m) l.
Proof.
  induction pages as [| pages IH].
  - reflexivity.
  - rewrite seq_S, List.map_app, concat_app, IH. simpl.
    rewrite app_nil_r, Nat.sub_0_r, take_take_drop.
    f_equal. lia.
Qed.

(** [Math.ceil(total / n)] is the least number of pages that covers the
    results. *)
Lemma ceilDiv_bounds (total n q : Z) :
  0 < n -> JS.ceilDiv total n = Some q -> (q - 1) * n < total <= q * n.
Proof.
  intros Hn. unfold JS.ceilDiv.
  destruct (Z.eqb_spec n 0) as [? | _]; [lia |].
  intros [= <-].
  pose proof (Z.div_mod (- total) n ltac:(lia)) as Hdiv.
  pose proof (Z.mod_pos_bound (- total) n Hn) as Hmod.
  nia.
Qed.

(** C6. For a page size [n > 0] and a 1-based page [p], the page holds the
    results at the positions from [(p-1)*n] up to, not including,
    [min(total, p*n)]; a page beyond the last one is empty; and the pages
    1 to [ceil(total/n)], one after the other, are the results. *)
Theorem paginate_pages {A} (results : list A) (n : Z) :
  0 < n ->
  let total := Z.of_nat (List.length results) in
  (forall p, 1 <= p ->
      forall i : nat,
        Search.paginate results n p !! i =
          if decide ((p - 1) * n + Z.of_nat i < Z.min total (p * n))
          then results !! Z.to_nat ((p - 1) * n + Z.of_nat i)
          else None) /\
  (forall p q,
      JS.ceilDiv total n = Some q -> q < p -> 1 <= p ->
      Search.paginate results n p = []) /\
  (forall q,
      JS.ceilDiv total n = Some q ->
      concat (List.map (fun k => Search.paginate results n (Z.of_nat k))
                (seq 1 (Z.to_nat q))) = results).
Proof.
  intros Hn total. split; [| split].
  - intros p Hp i. rewrite (paginate_chunk results n p Hn Hp).
    assert (Hstart : 0 <= (p - 1) * n) by nia.
    destruct (decide ((p - 1) * n + Z.of_nat i < Z.min total (p * n))) as [Hin | Hout].
    + rewrite lookup_take_lt by nia. rewrite lookup_drop. f_equal. lia.
    + destruct (Nat.lt_ge_cases i (Z.to_nat n)) as [Hlt | Hge].
      * rewrite lookup_take_lt by exact Hlt. rewrite lookup_drop.
        apply lookup_ge_None. subst total. nia.
      * now apply lookup_take_ge.
  - intros p q Hq Hlt Hp. rewrite (paginate_chunk results n p Hn Hp).
    pose proof (ceilDiv_bounds total n q Hn Hq) as Hbounds.
    rewrite drop_ge; [now rewrite take_nil |]. subst total. nia.
  - intros q Hq.
    pose proof (ceilDiv_bounds total n q Hn Hq) as Hbounds.
    rewrite (List.map_ext_in _
               (fun k => take (Z.to_nat n) (drop ((k - 1) * Z.to_nat n) results))).
    + rewrite chunks_concat. apply take_ge. subst total. nia.
    + intros k Hk. apply List.in_seq in Hk.
      rewrite paginate_chunk by lia. do 2 f_equal. nia.
Qed.

Lemma paginate_pages_witness :
  Search.paginate [10; 20; 30; 40; 50]%nat 2 3 !! 0%nat = Some 50%nat /\
  Search.paginate [10; 20; 30; 40; 50]%nat 2 4 = [] /\
  Search.paginate [10; 20; 30; 40; 50]%nat 2 1 ++
  Search.paginate [10; 20; 30; 40; 50]%nat 2 2 ++
  Search.paginate [10; 20; 30; 40; 50]%nat 2 3 = [10; 20; 30; 40; 50]%nat.
Proof.
  destruct (paginate_pages [10; 20; 30; 40; 50]%nat 2 ltac:(lia))
    as (Hslice & Hbeyond & Hall).
  split; [| split].
  - rewrite (Hslice 3 ltac:(lia) 0%nat). reflexivity.
  - exact (Hbeyond 4 3 eq_refl ltac:(lia) ltac:(lia)).
  - exact (Hall 3 eq_refl).
Defined.

(** ** Scans over the notes: a failing read *)

Section Loop.

Context {A B : Type}.
Variable body : A -> IO (list B).

Lemma forOf_total : (forall item, total (body item)) ->
  forall items, total (forOf body items).
Proof.
  intros Hbody items. induction items as [| item more IH]; intros rt; simpl.
  - unfold ret. eauto.
  - unfold bind at 1. destruct (Hbody item rt) as (pushed & rt1 & ->).
    unfold bind at 1. destruct (IH rt1) as (later & rt2 & ->).
    unfold ret. eauto.
Qed.

Lemma forOf_cacheOnly : (forall item, cacheOnly (body item)) ->
  forall items, cacheOnly (forOf body items).
Proof.
  intros Hbody items. induction items as [| item more IH];
    intros rt1 rt2 Hsame; simpl.
  - auto.
  - unfold bind at 1 3 5 7.
    destruct (Hbody item rt1 rt2 Hsame) as [Hres Hcache].
    destruct (body item rt1) as [[pushed1 | e1] rt1'];
      destruct (body item rt2) as [[pushed2 | e2] rt2'];
      simpl in Hres, Hcache; try discriminate; [| split; assumption].
    injection Hres as <-.
    unfold bind.
    destruct (IH rt1' rt2' Hcache) as [Hres Hcache'].
    destruct (forOf body more rt1') as [[later1 | e1] rt1''];
      destruct (forOf body more rt2') as [[later2 | e2] rt2''];
      simpl in Hres, Hcache' |- *; try discriminate; split; congruence.
Qed.

Lemma forOf_app (before after : list A) (rt : Runtime) :
  forOf body (before ++ after) rt =
    match forOf body before rt with
    | (Returns rb, rt1) =>
        match forOf body after rt1 with
        | (Returns ra, rt2) => (Returns (rb ++ ra), rt2)
        | (Throws e, rt2) => (Throws e, rt2)
        end
    | (Throws e, rt1) => (Throws e, rt1)
    end.
Proof.
  revert rt. induction before as [| item more IH]; intros rt; simpl.
  - unfold ret. destruct (forOf body after rt) as [[ra | e] rt2]; reflexivity.
  - unfold bind at 1 3.
    destruct (body item rt) as [[pushed | e] rt1]; [| reflexivity].
    unfold bind. rewrite IH.
    destruct (forOf body more rt1) as [[rb | e] rt2]; [| reflexivity].
    unfold ret. simpl.
    destruct (forOf body after rt2) as [[ra | e] rt3]; [| reflexivity].
    now rewrite List.app_assoc.
Qed.

(** An iteration that returns without changing the cache can be taken out
    of the scan: the other iterations push what they push without it. *)
Lemma forOf_skip (before after : list A) (item : A) (rt : Runtime)
    (pushed : list B) (rt' : Runtime) :
  (forall x, total (body x)) ->
  (forall x, cacheOnly (body x)) ->
  body item (snd (forOf body before rt)) = (Returns pushed, rt') ->
  contentCache rt' = contentCache (snd (forOf body before rt)) ->
  exists rb ra,
    fst (forOf body before rt) = Returns rb /\
    fst (forOf body (before ++ after) rt) = Returns (rb ++ ra) /\
    fst (forOf body (before ++ item :: after) rt) =
      Returns (rb ++ pushed ++ ra) /\
    contentCache (snd (forOf body (before ++ item :: after) rt)) =
      contentCache (snd (forOf body (before ++ after) rt)).
Proof.
  intros Htotal Hcache Hitem Hsame.
  rewrite !forOf_app.
  destruct (forOf_total Htotal before rt) as (rb & rt1 & Hbefore).
  rewrite Hbefore in *. simpl in Hitem, Hsame.
  destruct (forOf_cacheOnly Hcache after rt' rt1 Hsame) as [Hres Hcache'].
  destruct (forOf_total Htotal after rt') as (ra & rt2 & Hafter).
  destruct (forOf_total Htotal after rt1) as (ra' & rt2' & Hafter').
  assert (Hrun : forOf body (item :: after) rt1 = (Returns (pushed ++ ra), rt2)).
  { simpl. unfold bind. now rewrite Hitem, Hafter. }
  rewrite Hrun, Hafter'. rewrite Hafter, Hafter' in *. simpl in Hres, Hcache'.
  injection Hres as ->.
  exists rb, ra'. simpl. auto.
Qed.

End Loop.

(** The calls to the store answer from the snapshot: their outcome is the
    same in every process state, and they leave the cache alone. *)
Lemma getFullFileListingAPI_shape (remote : Remote) :
  exists outcome,
    forall rt,
      Api.getFullFileListingAPI remote rt =
        (outcome,
         {| contentCache := contentCache rt;
            requests := requests rt ++ [GetIndex];
            console := console rt |}).
Proof.
  unfold Api.getFullFileListingAPI, bind, send, throw, ret.
  destruct (GET_index remote) as [cause | [cause | files] | st tx text];
    eexists; intros rt; reflexivity.
Qed.

Lemma readNoteAPI_shape (remote : Remote) (filename : string) :
  exists outcome lines,
    forall rt,
      Api.readNoteAPI remote filename rt =
        (outcome,
         {| contentCache := contentCache rt;
            requests := requests rt ++ [GetNote filename];
            console := console rt ++ lines |}).
Proof.
  unfold Api.readNoteAPI, Api.handleFetchError, Api.handleResponseError,
    bind, send, consoleError, throw, ret.
  destruct (GET_note remote filename) as [cause | [cause | b] | st tx [cause | txt]];
    simpl.
  - exists (Throws (FailedToConnect (NoteUrl filename) cause)).
    eexists. intros rt. rewrite <- List.app_assoc. reflexivity.
  - eexists. eexists. intros rt. reflexivity.
  - eexists. exists []. intros rt. now rewrite app_nil_r.
  - eexists. exists []. intros rt. now rewrite app_nil_r.
  - eexists. eexists. intros rt. reflexivity.
Qed.

Lemma getCachedNoteContent_cacheOnly (remote : Remote) (filename : string)
    (enableCaching : bool) :
  cacheOnly (Cache.getCachedNoteContent remote filename enableCaching).
Proof.
  intros rt1 rt2 Hsame.
  destruct (getFullFileListingAPI_shape remote) as (listing & Hlisting).
  destruct (readNoteAPI_shape remote filename) as (read & lines & Hread).
  unfold Cache.getCachedNoteContent, getCache, setCache, bind, throw, ret.
  destruct enableCaching; simpl.
  - rewrite !Hlisting. destruct listing as [files | e]; [| auto].
    destruct (find _ files) as [noteInfo |]; [| auto].
    simpl. rewrite Hsame.
    destruct (Cache.servable _ noteInfo); [auto |].
    rewrite !Hread. destruct read as [fresh | e]; simpl; rewrite ?Hsame; auto.
  - rewrite !Hread. auto.
Qed.

(** A lookup that throws has not touched the cache. *)
Lemma getCachedNoteContent_throws_cache (remote : Remote) (filename : string)
    (enableCaching : bool) (rt : Runtime) (e : Error) :
  fst (Cache.getCachedNoteContent remote filename enableCaching rt) = Throws e ->
  contentCache (snd (Cache.getCachedNoteContent remote filename enableCaching rt)) =
    contentCache rt.
Proof.
  destruct (getFullFileListingAPI_shape remote) as (listing & Hlisting).
  destruct (readNoteAPI_shape remote filename) as (read & lines & Hread).
  unfold Cache.getCachedNoteContent, getCache, setCache, bind, throw, ret.
  destruct enableCaching; simpl.
  - rewrite !Hlisting. destruct listing as [files | e']; [| auto].
    destruct (find _ files) as [noteInfo |]; [| auto].
    simpl.
    destruct (Cache.servable _ noteInfo); [discriminate |].
    rewrite !Hread. destruct read as [fresh | e']; simpl; [discriminate | auto].
  - rewrite !Hread. auto.
Qed.

Section FailingRead.

Variable E : Engine.
Variable remote : Remote.

Lemma searchNote_cacheOnly (r : regex E) (searchType : SearchType)
    (concise : bool) (contextLines : Z) (enableCaching : bool)
    (note : NoteInfo.t) :
  cacheOnly (Search.searchNote E remote r searchType concise contextLines
               enableCaching note).
Proof.
  intros rt1 rt2 Hsame.
  unfold Search.searchNote, Search.scanContent, tryCatch, bind, ret, consoleError.
  destruct (inContent searchType); [| simpl; destruct (0 <? _)%nat; auto].
  destruct (getCachedNoteContent_cacheOnly remote (NoteInfo.name note)
              enableCaching rt1 rt2 Hsame) as [Hres Hcache].
  destruct (Cache.getCachedNoteContent remote (NoteInfo.name note)
              enableCaching rt1) as [[body1 | e1] rt1'];
    destruct (Cache.getCachedNoteContent remote (NoteInfo.name note)
                enableCaching rt2) as [[body2 | e2] rt2'];
    simpl in Hres, Hcache; try discriminate.
  - injection Hres as ->. destruct (0 <? _)%nat; auto.
  - simpl. destruct (0 <? _)%nat; auto.
Qed.

Lemma searchNote_total (r : regex E) (searchType : SearchType)
    (concise : bool) (contextLines : Z) (enableCaching : bool)
    (note : NoteInfo.t) :
  total (Search.searchNote E remote r searchType concise contextLines
           enableCaching note).
Proof. intros rt. apply searchNote_returns. Qed.

(** The iteration of [search-notes] for a note whose body cannot be
    fetched. *)
Lemma searchNote_failed (r : regex E) (searchType : SearchType)
    (concise : bool) (contextLines : Z) (enableCaching : bool)
    (note : NoteInfo.t) (rt : Runtime) (e : Error) :
  inContent searchType = true ->
  fst (Cache.getCachedNoteContent remote (NoteInfo.name note) enableCaching rt)
    = Throws e ->
  exists rt',
    Search.searchNote E remote r searchType concise contextLines
      enableCaching note rt = (Returns (Search.titleOnly E r searchType note), rt') /\
    contentCache rt' = contentCache rt /\
    console rt' =
      console (snd (Cache.getCachedNoteContent remote (NoteInfo.name note)
                      enableCaching rt)) ++ [Search.searchFailure note].
Proof.
  intros Hcontent Hthrows.
  pose proof (getCachedNoteContent_throws_cache _ _ _ _ _ Hthrows) as Hcache.
  unfold Search.searchNote, Search.titleOnly, Search.scanContent, tryCatch,
    bind, ret, consoleError.
  rewrite Hcontent.
  destruct (Cache.getCachedNoteContent remote (NoteInfo.name note)
              enableCaching rt) as [[body | e'] rt1];
    simpl in Hthrows, Hcache; [discriminate |].
  simpl. rewrite app_nil_r.
  destruct (0 <? _)%nat; eexists; (split; [reflexivity |]); simpl; auto.
Qed.

Lemma filterNote_cacheOnly (needle : string) (note : NoteInfo.t) :
  cacheOnly (Search.filterNote remote needle note).
Proof.
  intros rt1 rt2 Hsame.
  unfold Search.filterNote, tryCatch, bind, ret, consoleError.
  destruct (getCachedNoteContent_cacheOnly remote (NoteInfo.name note)
              true rt1 rt2 Hsame) as [Hres Hcache].
  destruct (Cache.getCachedNoteContent remote (NoteInfo.name note) true rt1)
    as [[body1 | e1] rt1'];
    destruct (Cache.getCachedNoteContent remote (NoteInfo.name note) true rt2)
      as [[body2 | e2] rt2'];
    simpl in Hres, Hcache; try discriminate.
  - injection Hres as ->. destruct (JS.includes _ _); auto.
  - simpl. auto.
Qed.

Lemma filterNote_total (needle : string) (note : NoteInfo.t) :
  total (Search.filterNote remote needle note).
Proof.
  intros rt. unfold Search.filterNote, tryCatch, bind, ret, consoleError.
  destruct (Cache.getCachedNoteContent remote (NoteInfo.name note) true rt)
    as [[body | e] rt1]; [destruct (JS.includes _ _) |]; eauto.
Qed.

(** The iteration of the content filter of [list-notes] for a note whose
    body cannot be fetched. *)
Lemma filterNote_failed (needle : string) (note : NoteInfo.t) (rt : Runtime)
    (e : Error) :
  fst (Cache.getCachedNoteContent remote (NoteInfo.name note) true rt)
    = Throws e ->
  exists rt',
    Search.filterNote remote needle note rt = (Returns [], rt') /\
    contentCache rt' = contentCache rt /\
    console rt' =
      console (snd (Cache.getCachedNoteContent remote (NoteInfo.name note)
                      true rt)) ++ [Search.listFailure note].
Proof.
  intros Hthrows.
  pose proof (getCachedNoteContent_throws_cache _ _ _ _ _ Hthrows) as Hcache.
  unfold Search.filterNote, tryCatch, bind, ret, consoleError.
  destruct (Cache.getCachedNoteContent remote (NoteInfo.name note) true rt)
    as [[body | e'] rt1]; simpl in Hthrows, Hcache; [discriminate |].
  eexists. split; [reflexivity |]. simpl. auto.
Qed.

End FailingRead.

(** C7, as the code has it. When the body of one note cannot be fetched
    during the content scan of [search-notes] or the content filter of
    [list-notes], the iteration for that note returns normally, logs the
    failure on the console and leaves the cache as it was; it pushes no
    content match (in a search that also looks at titles the note keeps its
    title match), and every other note contributes what it contributes when
    the failing note is not in the listing. The scans never throw. The
    failure is logged only: no error list is returned. *)
Theorem failed_read_is_logged_and_skipped (E : Engine) (remote : Remote) :
  (forall r searchType concise contextLines enableCaching before note after rt e,
      inContent searchType = true ->
      let scan :=
        Search.searchEach E remote r searchType concise contextLines enableCaching in
      let reached := snd (scan before rt) in
      fst (Cache.getCachedNoteContent remote (NoteInfo.name note) enableCaching
             reached) = Throws e ->
      (exists rt',
          Search.searchNote E remote r searchType concise contextLines
            enableCaching note reached =
            (Returns (Search.titleOnly E r searchType note), rt') /\
          contentCache rt' = contentCache reached /\
          console rt' =
            console (snd (Cache.getCachedNoteContent remote (NoteInfo.name note)
                            enableCaching reached)) ++ [Search.searchFailure note]) /\
      exists rb ra,
        fst (scan before rt) = Returns rb /\
        fst (scan (before ++ after) rt) = Returns (rb ++ ra) /\
        fst (scan (before ++ note :: after) rt) =
          Returns (rb ++ Search.titleOnly E r searchType note ++ ra)) /\
  (forall r note, Search.titleOnly E r searchContent note = []) /\
  (forall needle before note after rt e,
      let scan := Search.filterEach remote needle in
      let reached := snd (scan before rt) in
      fst (Cache.getCachedNoteContent remote (NoteInfo.name note) true reached)
        = Throws e ->
      (exists rt',
          Search.filterNote remote needle note reached = (Returns [], rt') /\
          contentCache rt' = contentCache reached /\
          console rt' =
            console (snd (Cache.getCachedNoteContent remote (NoteInfo.name note)
                            true reached)) ++ [Search.listFailure note]) /\
      exists kb ka,
        fst (scan before rt) = Returns kb /\
        fst (scan (before ++ after) rt) = Returns (kb ++ ka) /\
        fst (scan (before ++ note :: after) rt) = Returns (kb ++ ka)) /\
  (forall r searchType concise contextLines enableCaching notes,
      total (Search.searchEach E remote r searchType concise contextLines
               enableCaching notes)) /\
  (forall needle notes, total (Search.filterEach remote needle notes)).
Proof.
  split; [| split; [| split; [| split]]].
  - intros r searchType concise contextLines enableCaching before note after
      rt e Hcontent scan reached Hthrows.
    destruct (searchNote_failed E remote r searchType concise contextLines
                enableCaching note reached e Hcontent Hthrows)
      as (rt' & Hrun & Hcache & Hlog).
    split; [exists rt'; auto |].
    destruct (forOf_skip
                (Search.searchNote E remote r searchType concise contextLines
                   enableCaching)
                before after note rt _ rt'
                (searchNote_total E remote r searchType concise contextLines
                   enableCaching)
                (searchNote_cacheOnly E remote r searchType concise contextLines
                   enableCaching)
                Hrun Hcache) as (rb & ra & Hb & Hwithout & Hwith & _).
    exists rb, ra. auto.
  - intros r note. reflexivity.
  - intros needle before note after rt e scan reached Hthrows.
    destruct (filterNote_failed remote needle note reached e Hthrows)
      as (rt' & Hrun & Hcache & Hlog).
    split; [exists rt'; auto |].
    destruct (forOf_skip (Search.filterNote remote needle)
                before after note rt _ rt'
                (filterNote_total remote needle)
                (filterNote_cacheOnly remote needle)
                Hrun Hcache) as (kb & ka & Hb & Hwithout & Hwith & _).
    exists kb, ka. auto.
  - intros r searchType concise contextLines enableCaching notes.
    apply forOf_total. apply searchNote_total.
  - intros needle notes. apply forOf_total. apply filterNote_total.
Qed.

Lemma failed_read_is_logged_and_skipped_witness :
  fst (Search.searchEach Pattern.literalEngine Sample.brokenStore
         ("a", Search.searchFlags false) searchBoth true 1 true
         [NoteInfo.mk "a.md" rw] Sample.fresh) =
    Returns
      [ SearchResult.mk "a.md" rw
          [ SearchMatch.mk title 0 "a.md" 1 None None None ] 1 ].
Proof.
  destruct (failed_read_is_logged_and_skipped Pattern.literalEngine
              Sample.brokenStore) as [Hsearch _].
  destruct (Hsearch ("a", Search.searchFlags false) searchBoth true 1 true
              [] (NoteInfo.mk "a.md" rw) [] Sample.fresh
              (FailedToConnect (NoteUrl "a.md") "ECONNRESET")
              eq_refl eq_refl) as (_ & rb & ra & Hb & Hwithout & Hwith).
  simpl in Hb, Hwithout. injection Hb as <-. injection Hwithout as <-.
  exact Hwith.
Defined.

(** The claim C7 fails where it says that the failure is reported in an
    aggregate error list. With a store whose only note cannot be read,
    [list-notes] and [search-notes] return exactly what they return for a
    store whose note is read and does not match: the rendering of an empty
    list of notes and the no-match answer. So nothing computed from the
    result is the list of failed notes in the first run and empty in the
    second. *)
Lemma failed_read_not_reported :
  fst (Cache.getCachedNoteContent Sample.brokenStore "a.md" true Sample.fresh) =
    Throws (FailedToConnect (NoteUrl "a.md") "ECONNRESET") /\
  fst (Cache.getCachedNoteContent Sample.plainStore "a.md" true Sample.fresh) =
    Returns "nothing here" /\
  fst (Search.listNotes Pattern.literalEngine Sample.brokenStore None None
         (Some "x") Sample.fresh) =
    Listed (Search.listText None None (Some "x") []) /\
  fst (Search.searchNotes Pattern.literalEngine Sample.brokenStore "x"
         searchContent false 10 1 1 true true Sample.fresh) = NoMatches /\
  ~ (exists errorsOf : ListOutcome -> list string,
        errorsOf (fst (Search.listNotes Pattern.literalEngine Sample.brokenStore
                         None None (Some "x") Sample.fresh)) = ["a.md"] /\
        errorsOf (fst (Search.listNotes Pattern.literalEngine Sample.plainStore
                         None None (Some "x") Sample.fresh)) = []) /\
  ~ (exists errorsOf : SearchOutcome -> list string,
        errorsOf (fst (Search.searchNotes Pattern.literalEngine Sample.brokenStore
                         "x" searchContent false 10 1 1 true true Sample.fresh))
          = ["a.md"] /\
        errorsOf (fst (Search.searchNotes Pattern.literalEngine Sample.plainStore
                         "x" searchContent false 10 1 1 true true Sample.fresh))
          = []).
Proof.
  split; [reflexivity |]. split; [reflexivity |].
  split; [reflexivity |]. split; [reflexivity |].
  split.
  - intros (errorsOf & Hbroken & Hplain).
    change (fst (Search.listNotes Pattern.literalEngine Sample.plainStore None
                   None (Some "x") Sample.fresh))
      with (fst (Search.listNotes Pattern.literalEngine Sample.brokenStore None
                   None (Some "x") Sample.fresh)) in Hplain.
    rewrite Hbroken in Hplain. discriminate.
  - intros (errorsOf & Hbroken & Hplain).
    change (fst (Search.searchNotes Pattern.literalEngine Sample.plainStore "x"
                   searchContent false 10 1 1 true true Sample.fresh))
      with (fst (Search.searchNotes Pattern.literalEngine Sample.brokenStore "x"
                   searchContent false 10 1 1 true true Sample.fresh)) in Hplain.
    rewrite Hbroken in Hplain. discriminate.
Qed.

(** ** Session registry *)

Section SessionInvariant.

Import Session.

Lemma Invariant_initial : Invariant initial.
Proof.
  split; [reflexivity |]. split.
  - intros ref p H. simpl in H. rewrite lookup_nil in H. discriminate.
  - intros id ref H. simpl in H. rewrite lookup_empty in H. discriminate.
Qed.

Lemma Invariant_log (t s0 : string) (s : State) :
  Invariant s -> Invariant (log t s0 s).
Proof. intros H. exact H. Qed.

Lemma Invariant_release (r : Release) (s : State) :
  Invariant s -> Invariant (release r s).
Proof. intros H. exact H. Qed.

Lemma Invariant_unregister (id : string) (s : State) :
  Invariant s -> Invariant (unregister id s).
Proof.
  intros (Hsame & Hpairs & Hreg). split; [| split]; simpl.
  - now rewrite Hsame.
  - exact Hpairs.
  - intros id' ref H. apply lookup_delete_Some in H as [_ H]. now apply Hreg.
Qed.

Lemma Invariant_initialize (ref : nat) (s : State) :
  Invariant s -> Invariant (initialize ref s).
Proof.
  intros (Hsame & Hpairs & Hreg). unfold initialize.
  destruct (pairs s !! ref) as [p |] eqn:Hp; [| split; [| split]; assumption].
  destruct (Hpairs ref p Hp) as [Hlen _].
  assert (Hlt : (ref < List.length (pairs s))%nat) by (eapply lookup_lt_Some; eauto).
  set (p' := {| newSessionId := newSessionId p; sessionId := Some (newSessionId p) |}).
  assert (Hpairs' : forall ref0 p0,
             <[ref := p']> (pairs s) !! ref0 = Some p0 -> wfPair p0).
  { intros ref0 p0 H. apply list_lookup_insert_Some in H
      as [(-> & <- & _) | [_ H]]; [| eauto].
    split; simpl; auto. }
  assert (Hreg' : forall id ref0,
             transports s !! id = Some ref0 ->
             exists p0, <[ref := p']> (pairs s) !! ref0 = Some p0 /\
                        newSessionId p0 = id).
  { intros id ref0 H. destruct (Hreg id ref0 H) as (p0 & Hp0 & Hid).
    destruct (decide (ref0 = ref)) as [-> | Hne].
    - exists p'. rewrite list_lookup_insert_eq by exact Hlt.
      split; [reflexivity |]. simpl. congruence.
    - exists p0. rewrite list_lookup_insert_ne by congruence. auto. }
  unfold setSessionId. rewrite Hp. fold p'.
  destruct (JS.truthy (newSessionId p)); unfold register; simpl.
  - split; [| split]; simpl.
    + now rewrite Hsame.
    + exact Hpairs'.
    + intros id ref0 H. apply lookup_insert_Some in H as [[<- <-] | [_ H]].
      * exists p'. rewrite list_lookup_insert_eq by exact Hlt. auto.
      * now apply Hreg'.
  - split; [| split]; simpl; assumption.
Qed.

Lemma Invariant_onclose (ref : nat) (s : State) :
  Invariant s -> Invariant (onclose ref s).
Proof.
  intros H. unfold onclose.
  destruct (pairs s !! ref) as [p |]; [| exact H].
  destruct (sessionId p) as [id |]; [| exact H].
  destruct (JS.truthy id); [| exact H].
  now apply Invariant_release, Invariant_unregister.
Qed.

Lemma Invariant_handleRequest (ref : nat) (h : Handling) (s : State) :
  Invariant s -> Invariant (handleRequest ref h s).
Proof.
  unfold handleRequest. revert s.
  induction (during h) as [| c cs IH]; intros s H; simpl; [exact H |].
  apply IH. destruct c; simpl.
  - now apply Invariant_initialize.
  - now apply Invariant_onclose.
Qed.

Lemma Invariant_guarded (site : string) (transport : Slot) (h : Handling)
    (s : State) :
  Invariant s -> Invariant (fst (guarded site transport h s)).
Proof.
  intros H. unfold guarded. destruct transport as [ref | |]; simpl;
    try exact H.
  destruct (throws h); simpl; try apply Invariant_log;
    now apply Invariant_handleRequest.
Qed.

Lemma Invariant_created (uuid : string) (s : State) :
  String.length uuid = 36%nat ->
  Invariant s ->
  Invariant {| transports := transports s;
               mcpServers := mcpServers s;
               pairs := pairs s ++ [{| newSessionId := uuid; sessionId := None |}];
               released := released s;
               console := console s |}.
Proof.
  intros Hlen (Hsame & Hpairs & Hreg). split; [| split]; simpl.
  - exact Hsame.
  - intros ref p H. apply lookup_app_Some in H as [H | [_ H]]; [eauto |].
    apply list_lookup_singleton_Some in H as [_ <-]. split; simpl; auto.
  - intros id ref H. destruct (Hreg id ref H) as (p & Hp & Hid).
    exists p. split; [| exact Hid]. now apply lookup_app_l_Some.
Qed.

Lemma Invariant_cleanup (sessionId : string) (transport mcpServer : Slot)
    (replied : bool) (s : State) :
  Invariant s -> Invariant (fst (cleanup sessionId transport mcpServer replied s)).
Proof.
  intros H. unfold cleanup.
  destruct mcpServer as [m | |]; simpl; try exact H;
    destruct transport as [t | |]; simpl;
    destruct (JS.truthy sessionId); simpl;
    repeat first [ exact H
                 | apply Invariant_unregister
                 | apply Invariant_onclose
                 | apply Invariant_release ].
Qed.

Lemma Invariant_step (s : State) (e : Event) :
  wellFormed e -> Invariant s -> Invariant (fst (step s e)).
Proof.
  intros Hwf H. destruct e as [header uuid connectFails h | header h | header h | ref];
    simpl.
  - unfold post. destruct (resolves s header).
    + now apply Invariant_guarded.
    + destruct connectFails.
      * now apply Invariant_created.
      * apply (Invariant_guarded _ (Own _)). now apply Invariant_created.
  - unfold handleSessionRequest. destruct header as [sessionId |]; [| exact H].
    destruct (_ && _); [| exact H]. now apply Invariant_guarded.
  - unfold delete. destruct header as [sessionId |]; [| exact H].
    destruct (_ && _); [| exact H].
    destruct (get (transports s) sessionId) as [t | |].
    + destruct (throws h).
      * match goal with
        | |- context [cleanup ?a ?b ?c ?d ?x] =>
            pose proof (Invariant_cleanup a b c d x) as Hc;
            destruct (cleanup a b c d x) as [s' []]
        end; simpl in *; apply Hc, Invariant_log;
          now apply Invariant_handleRequest.
      * apply Invariant_cleanup. now apply Invariant_handleRequest.
    + match goal with
      | |- context [cleanup ?a ?b ?c ?d ?x] =>
          pose proof (Invariant_cleanup a b c d x) as Hc;
          destruct (cleanup a b c d x) as [s' []]
      end; simpl in *; apply Hc, Invariant_log; exact H.
    + match goal with
      | |- context [cleanup ?a ?b ?c ?d ?x] =>
          pose proof (Invariant_cleanup a b c d x) as Hc;
          destruct (cleanup a b c d x) as [s' []]
      end; simpl in *; apply Hc, Invariant_log; exact H.
  - now apply Invariant_onclose.
Qed.

Lemma Reachable_Invariant (s : State) : Reachable s -> Invariant s.
Proof.
  induction 1 as [| s e _ IH Hwf].
  - apply Invariant_initial.
  - now apply Invariant_step.
Qed.

End SessionInvariant.

Section SessionLifecycle.

Import Session.

Lemma uuid_truthy (id : string) : String.length id = 36%nat -> JS.truthy id = true.
Proof. destruct id; [discriminate | reflexivity]. Qed.

Lemma get_own (object : gmap string nat) (key : string) (ref : nat) :
  object !! key = Some ref -> get object key = Own ref.
Proof. intros H. unfold get. now rewrite H. Qed.

(** A transport that was never initialized has no session id: its
    closure changes nothing. *)
Lemma handleRequest_uninitialized (ref : nat) (h : Handling) (s : State)
    (p : Pair) :
  pairs s !! ref = Some p ->
  sessionId p = None ->
  ~ In SessionInitialized (during h) ->
  handleRequest ref h s = s.
Proof.
  intros Hp Hnone. unfold handleRequest.
  induction (during h) as [| c cs IH]; intros Hnot; simpl; [reflexivity |].
  destruct c; [exfalso; apply Hnot; now left |].
  simpl. unfold onclose. rewrite Hp, Hnone.
  apply IH. intros Hin. apply Hnot. now right.
Qed.

Lemma console_onclose (ref : nat) (s : State) :
  console (onclose ref s) = console s.
Proof.
  unfold onclose. destruct (pairs s !! ref) as [p |]; [| reflexivity].
  destruct (sessionId p) as [id |]; [| reflexivity].
  destruct (JS.truthy id); reflexivity.
Qed.

Lemma released_onclose (ref : nat) (s : State) (r : Release) :
  In r (released s) -> In r (released (onclose ref s)).
Proof.
  intros H. unfold onclose. destruct (pairs s !! ref) as [p |]; [| exact H].
  destruct (sessionId p) as [id |]; [| exact H].
  destruct (JS.truthy id); [| exact H].
  simpl. apply List.in_or_app. now left.
Qed.

Lemma cleaned_up (id : string) (t m : nat) (s : State) :
  let s' :=
    unregister id
      (onclose t (release (TransportClosed t) (release (ServerClosed m) s))) in
  transports s' !! id = None /\
  mcpServers s' !! id = None /\
  In (ServerClosed m) (released s') /\
  In (TransportClosed t) (released s') /\
  console s' = console s.
Proof.
  cbv zeta. simpl. rewrite !lookup_delete_eq, console_onclose. simpl.
  repeat split.
  - apply released_onclose. simpl. apply List.in_or_app. left.
    apply List.in_or_app. right. now left.
  - apply released_onclose. simpl. apply List.in_or_app. right. now left.
Qed.

End SessionLifecycle.

(** C8. In every state reached from the initial one by POST, GET and DELETE
    requests and transport closures, the map of transports and the map of
    handlers have the same keys, each key holding the transport and the
    handler that were created together. A POST that creates a session
    registers both under the generated id when the transport confirms it;
    when the connection fails or the transport does not confirm the id,
    both maps stay as they were. *)
Theorem session_maps_paired (s : Session.State) :
  Session.Reachable s ->
  Session.transports s = Session.mcpServers s /\
  dom (Session.transports s) = dom (Session.mcpServers s) /\
  (forall id,
      is_Some (Session.transports s !! id) <-> is_Some (Session.mcpServers s !! id)) /\
  (forall id t m,
      Session.transports s !! id = Some t ->
      Session.mcpServers s !! id = Some m ->
      t = m) /\
  (forall header uuid connectFails h,
      Session.resolves s header = false ->
      connectFails = true \/ ~ In Session.SessionInitialized (Session.during h) ->
      Session.transports
        (fst (Session.step s (Session.POST header uuid connectFails h))) =
        Session.transports s /\
      Session.mcpServers
        (fst (Session.step s (Session.POST header uuid connectFails h))) =
        Session.mcpServers s) /\
  (forall header uuid throws headersSent,
      Session.resolves s header = false ->
      String.length uuid = 36%nat ->
      let h := {| Session.during := [Session.SessionInitialized];
                  Session.throws := throws;
                  Session.headersSent := headersSent |} in
      let s' := fst (Session.step s (Session.POST header uuid false h)) in
      Session.transports s' = <[uuid := List.length (Session.pairs s)]> (Session.transports s) /\
      Session.mcpServers s' = <[uuid := List.length (Session.pairs s)]> (Session.mcpServers s)).
Proof.
  intros Hreach.
  destruct (Reachable_Invariant s Hreach) as (Hsame & Hpairs & Hreg).
  split; [exact Hsame |].
  split; [now rewrite Hsame |].
  split; [intros id; now rewrite Hsame |].
  split; [intros id t m Ht Hm; rewrite Hsame in Ht; congruence |].
  split.
  - intros header uuid connectFails h Hfresh Hfailed.
    simpl. unfold Session.post. rewrite Hfresh.
    destruct connectFails; [split; reflexivity |].
    destruct Hfailed as [? | Hnot]; [discriminate |].
    unfold Session.guarded.
    rewrite (handleRequest_uninitialized _ h _
               {| Session.newSessionId := uuid; Session.sessionId := None |});
      [destruct (Session.throws h); split; reflexivity | | reflexivity | exact Hnot].
    simpl. apply list_lookup_middle. reflexivity.
  - intros header uuid throws headersSent Hfresh Hlen h s'.
    subst s' h. simpl. unfold Session.post. rewrite Hfresh.
    unfold Session.guarded, Session.handleRequest. simpl.
    unfold Session.initialize. simpl.
    rewrite list_lookup_middle by reflexivity. simpl.
    rewrite (uuid_truthy uuid Hlen).
    unfold Session.setSessionId. simpl.
    rewrite list_lookup_middle by reflexivity.
    destruct throws; split; reflexivity.
Qed.

Lemma session_maps_paired_witness :
  let h := {| Session.during := [Session.SessionInitialized];
              Session.throws := false;
              Session.headersSent := true |} in
  let s := Session.run
             [Session.POST None "123e4567-e89b-42d3-a456-426614174000" false h] in
  Session.transports s = Session.mcpServers s /\
  Session.transports s !! "123e4567-e89b-42d3-a456-426614174000" = Some 0%nat.
Proof.
  cbv zeta. split.
  - refine (proj1 (session_maps_paired _ _)).
    apply (Session.Reachable_step Session.initial
             (Session.POST None "123e4567-e89b-42d3-a456-426614174000" false _)).
    + apply Session.Reachable_initial.
    + reflexivity.
  - reflexivity.
Defined.

(** C9. For a session id registered in a reachable state, a DELETE request
    for it removes the id from both maps and closes the handler and the
    transport, whether the transport handled the request or threw; a throw
    is logged and answered, the request handler itself completes. *)
Theorem delete_releases_session (s : Session.State) (id : string) (t m : nat)
    (h : Session.Handling) :
  Session.Reachable s ->
  Session.transports s !! id = Some t ->
  Session.mcpServers s !! id = Some m ->
  let out := Session.step s (Session.DELETE (Some id) h) in
  Session.transports (fst out) !! id = None /\
  Session.mcpServers (fst out) !! id = None /\
  In (Session.ServerClosed m) (Session.released (fst out)) /\
  In (Session.TransportClosed t) (Session.released (fst out)) /\
  snd out <> Session.Unhandled /\
  (Session.throws h = true ->
   In (Session.deleteFailure id) (Session.console (fst out)) /\
   snd out = if Session.headersSent h then Session.ByTransport
             else Session.Status 500) /\
  (Session.throws h = false ->
   snd out = if Session.headersSent h then Session.ByTransport
             else Session.Status 204).
Proof.
  intros Hreach Ht Hm out.
  destruct (Reachable_Invariant s Hreach) as (Hsame & Hpairs & Hreg).
  destruct (Hreg id t Ht) as (p & Hp & Hid).
  destruct (Hpairs t p Hp) as [Hlen _]. rewrite Hid in Hlen.
  pose proof (uuid_truthy id Hlen) as Htruthy.
  subst out. simpl. unfold Session.delete.
  rewrite (get_own _ _ _ Ht), (get_own _ _ _ Hm), Htruthy. simpl.
  destruct (Session.throws h) eqn:Hthrows.
  - rewrite ?Htruthy. cbn [fst snd].
    destruct (cleaned_up id t m
                (Session.log "[DELETE /mcp] Error during DELETE handling" id
                   (Session.handleRequest t h s)))
      as (H1 & H2 & H3 & H4 & H5).
    repeat split; try assumption.
    + destruct (Session.headersSent h); discriminate.
    + rewrite H5. simpl. apply List.in_or_app. right. now left.
    + discriminate.
  - rewrite ?Htruthy. cbn [fst snd].
    destruct (cleaned_up id t m (Session.handleRequest t h s))
      as (H1 & H2 & H3 & H4 & H5).
    repeat split; try assumption.
    + destruct (Session.headersSent h); discriminate.
    + discriminate.
    + discriminate.
Qed.

Lemma delete_releases_session_witness :
  let opened := {| Session.during := [Session.SessionInitialized];
                   Session.throws := false;
                   Session.headersSent := true |} in
  let failing := {| Session.during := [];
                    Session.throws := true;
                    Session.headersSent := false |} in
  let s := Session.run
             [Session.POST None "123e4567-e89b-42d3-a456-426614174000" false opened] in
  let out :=
    Session.step s
      (Session.DELETE (Some "123e4567-e89b-42d3-a456-426614174000") failing) in
  Session.transports (fst out) !! "123e4567-e89b-42d3-a456-426614174000" = None /\
  snd out = Session.Status 500.
Proof.
  cbv zeta.
  assert (Hreach : Session.Reachable
            (Session.run
               [Session.POST None "123e4567-e89b-42d3-a456-426614174000" false
                  {| Session.during := [Session.SessionInitialized];
                     Session.throws := false;
                     Session.headersSent := true |}])).
  { apply (Session.Reachable_step Session.initial
             (Session.POST None "123e4567-e89b-42d3-a456-426614174000" false _)).
    - apply Session.Reachable_initial.
    - reflexivity. }
  destruct (delete_releases_session _ "123e4567-e89b-42d3-a456-426614174000"
              0%nat 0%nat
              {| Session.during := [];
                 Session.throws := true;
                 Session.headersSent := false |}
              Hreach eq_refl eq_refl)
    as (Hgone & _ & _ & _ & _ & Hthrown & _).
  split; [exact Hgone | exact (proj2 (Hthrown eq_refl))].
Defined.

(** * Further properties of the sources *)

(** ** Authentication *)







(** ** Remote store client and cache *)

(** X3. Every operation of the store client, that is [listNotesAPI],
    [getFullFileListingAPI], [readNoteAPI], [writeNoteAPI] and
    [deleteNoteAPI], issues exactly one HTTP call, whatever the store
    answers, and does not touch the content cache. *)
Theorem client_operations_issue_one_call (remote : Remote) (rt : Runtime)
    (filename body : string) :
  (requests (snd (Api.listNotesAPI remote rt)) = requests rt ++ [GetIndex] /\
   contentCache (snd (Api.listNotesAPI remote rt)) = contentCache rt) /\
  (requests (snd (Api.getFullFileListingAPI remote rt)) = requests rt ++ [GetIndex] /\
   contentCache (snd (Api.getFullFileListingAPI remote rt)) = contentCache rt) /\
  (requests (snd (Api.readNoteAPI remote filename rt)) =
     requests rt ++ [GetNote filename] /\
   contentCache (snd (Api.readNoteAPI remote filename rt)) = contentCache rt) /\
  (requests (snd (Api.writeNoteAPI remote filename body rt)) =
     requests rt ++ [PutNote filename body] /\
   contentCache (snd (Api.writeNoteAPI remote filename body rt)) = contentCache rt) /\
  (requests (snd (Api.deleteNoteAPI remote filename rt)) =
     requests rt ++ [DeleteNote filename] /\
   contentCache (snd (Api.deleteNoteAPI remote filename rt)) = contentCache rt).
Proof.
  split; [| split; [| split; [| split]]].
  - unfold Api.listNotesAPI, Api.handleFetchError, Api.handleResponseError,
      bind, send, consoleError, throw, ret.
    destruct (GET_index remote) as [cause | [cause | files] | st tx [cause | txt]];
      split; reflexivity.
  - destruct (getFullFileListingAPI_shape remote) as (outcome & ->).
    split; reflexivity.
  - apply readNoteAPI_effect.
  - unfold Api.writeNoteAPI, Api.handleFetchError, Api.handleResponseError,
      bind, send, consoleError, throw, ret.
    destruct (PUT_note remote filename body) as [cause | b | st tx [cause | txt]];
      split; reflexivity.
  - unfold Api.deleteNoteAPI, Api.handleFetchError, Api.handleResponseError,
      bind, send, consoleError, throw, ret.
    destruct (DELETE_note remote filename) as [cause | b | st tx [cause | txt]];
      split; reflexivity.
Qed.

Lemma filter_md_Forall (index : list SBFile.t) :
  Forall (fun f => JS.endsWith (SBFile.name f) ".md" = true)
    (List.filter (fun f => JS.endsWith (SBFile.name f) ".md") index).
Proof.
  apply List.Forall_forall. intros f Hf. now apply List.filter_In in Hf.
Qed.

Lemma filter_sublist {A} (keep : A -> bool) (l : list A) :
  sublist (List.filter keep l) l.
Proof.
  induction l as [| a l IH]; simpl; [constructor |].
  destruct (keep a); [now apply sublist_skip | now apply sublist_cons].
Qed.

Lemma sublist_map {A B} (f : A -> B) (l1 l2 : list A) :
  sublist l1 l2 -> sublist (List.map f l1) (List.map f l2).
Proof. induction 1; simpl; constructor; assumption. Qed.

(** X4. The two listing calls see the same notes: when [listNotesAPI]
    returns, [getFullFileListingAPI] returns too, the notes are its files
    reduced to name and permission, in the order of the index, and every
    name ends in [.md]. *)
Theorem listings_agree (remote : Remote) (rt : Runtime)
    (notes : list NoteInfo.t) :
  fst (Api.listNotesAPI remote rt) = Returns notes ->
  exists index files,
    GET_index remote = Ok (inr index) /\
    fst (Api.getFullFileListingAPI remote rt) = Returns files /\
    notes = List.map (fun f => NoteInfo.mk (SBFile.name f) (SBFile.perm f)) files /\
    List.map NoteInfo.name notes = List.map SBFile.name files /\
    sublist files index /\
    Forall (fun note => JS.endsWith (NoteInfo.name note) ".md" = true) notes.
Proof.
  unfold Api.listNotesAPI, Api.getFullFileListingAPI, Api.handleFetchError,
    Api.handleResponseError, bind, send, consoleError, throw, ret.
  destruct (GET_index remote) as [cause | [cause | index] | st tx [cause | txt]];
    simpl; try discriminate.
  intros [= <-]. exists index. eexists.
  split; [reflexivity |]. split; [reflexivity |]. split; [reflexivity |].
  split; [now rewrite List.map_map |].
  split; [apply filter_sublist |].
  apply List.Forall_map.
  eapply List.Forall_impl; [| apply filter_md_Forall]. auto.
Qed.

Lemma listings_agree_witness :
  exists files,
    fst (Api.getFullFileListingAPI Sample.store Sample.fresh) = Returns files /\
    [NoteInfo.mk "a.md" rw] =
      List.map (fun f => NoteInfo.mk (SBFile.name f) (SBFile.perm f)) files.
Proof.
  destruct (listings_agree Sample.store Sample.fresh [NoteInfo.mk "a.md" rw] eq_refl)
    as (index & files & _ & Hfull & Hnotes & _).
  exists files. split; assumption.
Defined.

(** What a cached lookup does to the process state, for every outcome. *)
Lemma getCachedNoteContent_effect (remote : Remote) (filename : string)
    (rt : Runtime) :
  let out := Cache.getCachedNoteContent remote filename true rt in
  (requests (snd out) = requests rt ++ [GetIndex] /\
   contentCache (snd out) = contentCache rt) \/
  (requests (snd out) = requests rt ++ [GetIndex; GetNote filename] /\
   ((exists e, fst out = Throws e) /\ contentCache (snd out) = contentCache rt \/
    exists fresh index noteInfo,
      fst out = Returns fresh /\
      GET_index remote = Ok (inr index) /\
      JS.endsWith filename ".md" = true /\
      List.find (fun f => String.eqb (SBFile.name f) filename) index = Some noteInfo /\
      contentCache (snd out) =
        <[filename := CacheEntry.mk fresh (SBFile.lastModified noteInfo)]>
          (contentCache rt))).
Proof.
  cbv zeta.
  destruct (readNoteAPI_shape remote filename) as (read & lines & Hread).
  unfold Cache.getCachedNoteContent, Api.getFullFileListingAPI, getCache,
    setCache, bind, send, throw, ret. simpl.
  destruct (GET_index remote) as [cause | [cause | index] | st tx text] eqn:Hindex;
    simpl; try (left; split; reflexivity).
  pose proof (find_among_notes index filename) as Hfind.
  destruct (find _ (List.filter _ index)) as [noteInfo |]; simpl;
    [| left; split; reflexivity].
  destruct (Cache.servable _ noteInfo); simpl; [left; split; reflexivity |].
  right. rewrite Hread.
  destruct (JS.endsWith filename ".md"); [| discriminate].
  destruct read as [fresh | e]; simpl; rewrite <- List.app_assoc.
  - split; [reflexivity |]. right. exists fresh, index, noteInfo. auto.
  - split; [reflexivity |]. left. eauto.
Qed.

(** X5. A lookup touches no cache entry but that of its name, and removes
    none: the entries of the other names are as before, and a name that had
    an entry still has one. *)
Theorem getCachedNoteContent_frame (remote : Remote) (filename : string)
    (enableCaching : bool) (rt : Runtime) :
  let cache' :=
    contentCache (snd (Cache.getCachedNoteContent remote filename enableCaching rt)) in
  (forall other, other <> filename -> cache' !! other = contentCache rt !! other) /\
  (is_Some (contentCache rt !! filename) -> is_Some (cache' !! filename)) /\
  dom (contentCache rt) ⊆ dom cache'.
Proof.
  cbv zeta.
  assert (Hcases :
    contentCache (snd (Cache.getCachedNoteContent remote filename enableCaching rt))
      = contentCache rt \/
    exists e,
      contentCache (snd (Cache.getCachedNoteContent remote filename enableCaching rt))
        = <[filename := e]> (contentCache rt)).
  { destruct enableCaching.
    - destruct (getCachedNoteContent_effect remote filename rt)
        as [[_ H] | (_ & [[_ H] | (fresh & index & noteInfo & _ & _ & _ & _ & H)])];
        eauto.
    - left. unfold Cache.getCachedNoteContent. simpl.
      apply readNoteAPI_effect. }
  destruct Hcases as [-> | (e & ->)].
  - repeat split; auto.
  - split; [| split].
    + intros other Hne. now rewrite lookup_insert_ne.
    + intros _. rewrite lookup_insert_eq. eauto.
    + rewrite dom_insert_L. set_solver.
Qed.

(** X6. When a cached lookup returns, the cache holds for that name the
    content that was returned, with a timestamp that is not older than the
    one the listing reports. *)
Theorem getCachedNoteContent_coherent (remote : Remote) (filename : string)
    (rt : Runtime) (returned : string) :
  fst (Cache.getCachedNoteContent remote filename true rt) = Returns returned ->
  exists entry index noteInfo,
    contentCache (snd (Cache.getCachedNoteContent remote filename true rt))
      !! filename = Some entry /\
    CacheEntry.content entry = returned /\
    GET_index remote = Ok (inr index) /\
    JS.endsWith filename ".md" = true /\
    List.find (fun f => String.eqb (SBFile.name f) filename) index = Some noteInfo /\
    SBFile.lastModified noteInfo <= CacheEntry.lastModified entry.
Proof.
  destruct (readNoteAPI_shape remote filename) as (read & lines & Hread).
  unfold Cache.getCachedNoteContent, Api.getFullFileListingAPI, getCache,
    setCache, bind, send, throw, ret. simpl.
  destruct (GET_index remote) as [cause | [cause | index] | st tx text] eqn:Hindex;
    simpl; try discriminate.
  pose proof (find_among_notes index filename) as Hfind.
  destruct (find _ (List.filter _ index)) as [noteInfo |]; simpl;
    [| discriminate].
  destruct (JS.endsWith filename ".md"); [| discriminate].
  unfold Cache.servable.
  destruct (contentCache rt !! filename) as [cached |] eqn:Hcached.
  - destruct (Z.geb_spec (CacheEntry.lastModified cached)
                (SBFile.lastModified noteInfo)) as [Hge | Hlt]; simpl.
    + intros [= <-]. exists cached, index, noteInfo. repeat split; auto.
    + rewrite Hread. destruct read as [fresh | e]; simpl; [| discriminate].
      intros [= <-]. eexists. exists index, noteInfo.
      rewrite lookup_insert_eq. repeat split; auto. simpl. lia.
  - simpl. rewrite Hread. destruct read as [fresh | e]; simpl; [| discriminate].
    intros [= <-]. eexists. exists index, noteInfo.
    rewrite lookup_insert_eq. repeat split; auto. simpl. lia.
Qed.

Lemma getCachedNoteContent_coherent_witness :
  exists entry,
    contentCache (snd (Cache.getCachedNoteContent Sample.editedStore "a.md" true
                         Sample.fresh)) !! "a.md" = Some entry /\
    CacheEntry.content entry = "edited".
Proof.
  destruct (getCachedNoteContent_coherent Sample.editedStore "a.md" Sample.fresh
              "edited" eq_refl) as (entry & _ & _ & Hentry & Hcontent & _).
  exists entry. split; assumption.
Defined.

(** X7. A cached lookup that has returned makes the next lookup of the same
    name, against the same answers of the store, a cache hit: it returns
    the same content after its listing call, reads no body and leaves the
    cache as it is. *)
Theorem getCachedNoteContent_repeat (remote : Remote) (filename : string)
    (rt : Runtime) (returned : string) :
  fst (Cache.getCachedNoteContent remote filename true rt) = Returns returned ->
  let rt1 := snd (Cache.getCachedNoteContent remote filename true rt) in
  Cache.getCachedNoteContent remote filename true rt1 =
    (Returns returned,
     {| contentCache := contentCache rt1;
        requests := requests rt1 ++ [GetIndex];
        console := console rt1 |}).
Proof.
  intros Hfirst rt1.
  destruct (getCachedNoteContent_coherent remote filename rt returned Hfirst)
    as (entry & index & noteInfo & Hentry & Hcontent & Hindex & Hmd & Hraw & Hle).
  fold rt1 in Hentry.
  assert (Hfind :
    List.find (fun f => String.eqb (SBFile.name f) filename)
      (List.filter (fun f => JS.endsWith (SBFile.name f) ".md") index)
      = Some noteInfo)
    by now rewrite find_among_notes, Hmd.
  rewrite (getCachedNoteContent_listed remote rt1 filename index noteInfo Hindex Hfind).
  cbv zeta. rewrite Hentry, (servable_fresh _ _ Hle), Hcontent. reflexivity.
Qed.

Lemma getCachedNoteContent_repeat_witness :
  bodyReads
    (requests
       (snd (Cache.getCachedNoteContent Sample.store "a.md" true
               (snd (Cache.getCachedNoteContent Sample.store "a.md" true
                       Sample.fresh))))) = 1%nat.
Proof.
  rewrite (getCachedNoteContent_repeat Sample.store "a.md" Sample.fresh _ eq_refl).
  reflexivity.
Defined.

(** ** Search: calls to the store *)

Ltac count_calls :=
  unfold listingCalls, bodyReads, writes;
  rewrite ?List.filter_app, ?List.length_app; simpl; lia.

Section SearchCalls.

Variable E : Engine.
Variable remote : Remote.

Lemma compileQuery_state (query : string) (caseSensitive : bool) (rt : Runtime) :
  snd (Search.compileQuery E query caseSensitive rt) = rt.
Proof.
  unfold Search.compileQuery. cbv zeta.
  destruct (compile E query _); [reflexivity |].
  destruct (compile E (Pattern.escape query) _); reflexivity.
Qed.

(** An iteration that does not look at the content leaves the state. *)
Lemma searchNote_title_state (r : regex E) (searchType : SearchType)
    (concise : bool) (contextLines : Z) (enableCaching : bool)
    (note : NoteInfo.t) (rt : Runtime) :
  inContent searchType = false ->
  snd (Search.searchNote E remote r searchType concise contextLines
         enableCaching note rt) = rt.
Proof.
  intros H. unfold Search.searchNote, bind, ret. rewrite H.
  destruct (0 <? _)%nat; reflexivity.
Qed.

Lemma searchEach_title_state (r : regex E) (searchType : SearchType)
    (concise : bool) (contextLines : Z) (enableCaching : bool)
    (notes : list NoteInfo.t) (rt : Runtime) :
  inContent searchType = false ->
  snd (Search.searchEach E remote r searchType concise contextLines
         enableCaching notes rt) = rt.
Proof.
  intros H. unfold Search.searchEach.
  induction notes as [| note more IH]; simpl; [reflexivity |].
  unfold bind at 1.
  pose proof (searchNote_title_state r searchType concise contextLines
                enableCaching note rt H) as Hnote.
  destruct (Search.searchNote E remote r searchType concise contextLines
              enableCaching note rt) as [[pushed | e] rt1];
    simpl in Hnote; subst rt1; [| reflexivity].
  unfold bind, ret.
  destruct (forOf _ more rt) as [[later | e] rt2]; simpl in *; exact IH.
Qed.

(** The calls of one iteration that looks at the content. *)
Lemma searchNote_content_calls (r : regex E) (searchType : SearchType)
    (concise : bool) (contextLines : Z) (enableCaching : bool)
    (note : NoteInfo.t) (rt : Runtime) :
  inContent searchType = true ->
  let after := requests (snd (Search.searchNote E remote r searchType concise
                                contextLines enableCaching note rt)) in
  if enableCaching
  then listingCalls after = S (listingCalls (requests rt)) /\
       (bodyReads (requests rt) <= bodyReads after <= S (bodyReads (requests rt)))%nat
  else listingCalls after = listingCalls (requests rt) /\
       bodyReads after = S (bodyReads (requests rt)).
Proof.
  intros H. cbv zeta.
  assert (Hsame :
    requests (snd (Search.searchNote E remote r searchType concise contextLines
                     enableCaching note rt)) =
    requests (snd (Cache.getCachedNoteContent remote (NoteInfo.name note)
                     enableCaching rt))).
  { unfold Search.searchNote, Search.scanContent, tryCatch, bind, ret,
      consoleError. rewrite H.
    destruct (Cache.getCachedNoteContent remote (NoteInfo.name note)
                enableCaching rt) as [[body | e] rt1]; simpl;
      destruct (0 <? _)%nat; reflexivity. }
  rewrite Hsame. destruct enableCaching.
  - destruct (getCachedNoteContent_effect remote (NoteInfo.name note) rt)
      as [[-> _] | [-> _]];
      count_calls.
  - unfold Cache.getCachedNoteContent. simpl.
    destruct (readNoteAPI_effect remote (NoteInfo.name note) rt) as [-> _].
    count_calls.
Qed.

Lemma searchEach_content_calls (r : regex E) (searchType : SearchType)
    (concise : bool) (contextLines : Z) (enableCaching : bool)
    (notes : list NoteInfo.t) (rt : Runtime) :
  inContent searchType = true ->
  let after := requests (snd (Search.searchEach E remote r searchType concise
                                contextLines enableCaching notes rt)) in
  if enableCaching
  then listingCalls after = (listingCalls (requests rt) + List.length notes)%nat /\
       (bodyReads (requests rt) <= bodyReads after
        <= bodyReads (requests rt) + List.length notes)%nat
  else listingCalls after = listingCalls (requests rt) /\
       bodyReads after = (bodyReads (requests rt) + List.length notes)%nat.
Proof.
  intros H. cbv zeta. unfold Search.searchEach.
  revert rt. induction notes as [| note more IH]; intros rt; simpl.
  - destruct enableCaching; lia.
  - unfold bind at 1 3 5 7 9.
    pose proof (searchNote_content_calls r searchType concise contextLines
                  enableCaching note rt H) as Hnote.
    destruct (searchNote_returns E remote r searchType concise contextLines
                enableCaching note rt) as (pushed & rt1 & Hrun).
    rewrite Hrun in *. simpl in Hnote.
    specialize (IH rt1). unfold bind, ret.
    destruct (forOf _ more rt1) as [[later | e] rt2]; simpl in *;
      destruct enableCaching; lia.
Qed.

End SearchCalls.

(** X8. A search in the titles calls the store once, for the listing, and
    leaves the cache as it was, whatever the query and the answers of the
    store. *)
Theorem title_search_calls_listing_only (E : Engine) (remote : Remote)
    (query : string) (caseSensitive : bool) (maxResults page contextLines : Z)
    (concise enableCaching : bool) (rt : Runtime) :
  let out := Search.searchNotes E remote query searchTitle caseSensitive
               maxResults page contextLines concise enableCaching rt in
  requests (snd out) = requests rt ++ [GetIndex] /\
  contentCache (snd out) = contentCache rt.
Proof.
  cbv zeta.
  assert (Hranked : exists outcome,
    Search.rankedResults E remote query searchTitle caseSensitive concise
      contextLines enableCaching rt =
    (outcome, snd (Api.listNotesAPI remote rt))).
  { unfold Search.rankedResults. unfold bind at 1.
    destruct (Api.listNotesAPI remote rt) as [[notes | e] rt1]; simpl; [| eauto].
    unfold bind at 1.
    pose proof (compileQuery_state E query caseSensitive rt1) as Hq.
    destruct (Search.compileQuery E query caseSensitive rt1)
      as [[compiled | e] rt2]; simpl in Hq; subst rt2; [| eauto].
    unfold bind, ret.
    pose proof (searchEach_title_state E remote (fst compiled) searchTitle
                  concise contextLines enableCaching notes rt1 eq_refl) as Hscan.
    destruct (Search.searchEach E remote compiled.1 searchTitle concise
                contextLines enableCaching notes rt1) as [[results | e] rt3];
      simpl in Hscan; subst rt3; eauto. }
  destruct Hranked as (outcome & Hranked).
  destruct (client_operations_issue_one_call remote rt EmptyString EmptyString)
    as [[Hreq Hcache] _].
  unfold Search.searchNotes. rewrite Hranked.
  destruct outcome as [[fallback results] | e]; simpl; [| auto].
  destruct (_ =? 0)%nat; simpl; auto.
Qed.

(** X9. A search that looks at the content of [n] listed notes, once the
    listing has returned and the pattern is compiled, calls the store as
    follows: with caching, the listing once more for every note ([1 + n]
    listing calls) and at most [n] body reads; without caching, no further
    listing call and exactly [n] body reads. *)
Theorem content_search_calls (E : Engine) (remote : Remote)
    (query : string) (searchType : SearchType) (caseSensitive : bool)
    (maxResults page contextLines : Z) (concise enableCaching : bool)
    (rt : Runtime) (notes : list NoteInfo.t) :
  Pattern.Lawful E ->
  inContent searchType = true ->
  fst (Api.listNotesAPI remote rt) = Returns notes ->
  let after := requests (snd (Search.searchNotes E remote query searchType
                                caseSensitive maxResults page contextLines
                                concise enableCaching rt)) in
  let n := List.length notes in
  if enableCaching
  then listingCalls after = (listingCalls (requests rt) + 1 + n)%nat /\
       (bodyReads after <= bodyReads (requests rt) + n)%nat
  else listingCalls after = (listingCalls (requests rt) + 1)%nat /\
       bodyReads after = (bodyReads (requests rt) + n)%nat.
Proof.
  intros lawful Hcontent Hlist. cbv zeta.
  destruct (client_operations_issue_one_call remote rt EmptyString EmptyString)
    as [[Hreq _] _].
  assert (Hstate : exists r,
    requests (snd (Search.searchNotes E remote query searchType caseSensitive
                     maxResults page contextLines concise enableCaching rt)) =
    requests (snd (Search.searchEach E remote r searchType concise contextLines
                     enableCaching notes (snd (Api.listNotesAPI remote rt))))).
  { unfold Search.searchNotes, Search.rankedResults. unfold bind at 1.
    destruct (Api.listNotesAPI remote rt) as [[listed | e] rt1]; simpl in *;
      [| discriminate].
    injection Hlist as ->.
    unfold bind at 1.
    destruct (compileQuery_returns E lawful query caseSensitive rt1)
      as (compiled & ->).
    exists (fst compiled). unfold bind, ret.
    destruct (searchEach_returns E remote (fst compiled) searchType concise
                contextLines enableCaching notes rt1) as (results & rt2 & ->).
    destruct (_ =? 0)%nat; reflexivity. }
  destruct Hstate as (r & ->).
  pose proof (searchEach_content_calls E remote r searchType concise
                contextLines enableCaching notes
                (snd (Api.listNotesAPI remote rt)) Hcontent) as Hscan.
  cbv zeta in Hscan.
  rewrite Hreq, listingCalls_app, bodyReads_app in Hscan.
  change (listingCalls [GetIndex]) with 1%nat in Hscan.
  change (bodyReads [GetIndex]) with 0%nat in Hscan.
  destruct enableCaching; lia.
Qed.

Lemma content_search_calls_witness :
  listingCalls
    (requests (snd (Search.searchNotes Pattern.literalEngine Sample.store "foo"
                      searchContent false 10 1 1 true true Sample.fresh))) = 2%nat.
Proof.
  exact (proj1 (content_search_calls Pattern.literalEngine Sample.store "foo"
                  searchContent false 10 1 1 true true Sample.fresh
                  [NoteInfo.mk "a.md" rw] literalEngine_Lawful eq_refl eq_refl)).
Defined.

(** ** Search: matches, lines and pages *)

Section Matches.

Variable E : Engine.
Variable remote : Remote.

Lemma forEachLine_onLine (r : regex E) (concise : bool) (contextLines : Z)
    (done remaining : list string) :
  Forall (Placed.onLine E r contextLines (done ++ remaining))
    (Search.forEachLine E r concise contextLines (done ++ remaining)
       (Z.of_nat (List.length done)) remaining) /\
  Forall (fun m => Z.of_nat (List.length done) < SearchMatch.line m)
    (Search.forEachLine E r concise contextLines (done ++ remaining)
       (Z.of_nat (List.length done)) remaining) /\
  StronglySorted Z.lt
    (List.map SearchMatch.line
       (Search.forEachLine E r concise contextLines (done ++ remaining)
          (Z.of_nat (List.length done)) remaining)).
Proof.
  revert done. induction remaining as [| line more IH]; intros done; simpl.
  - repeat constructor.
  - specialize (IH (done ++ [line])).
    rewrite <- List.app_assoc, List.length_app in IH. simpl in IH.
    replace (Z.of_nat (List.length done + 1)) with (Z.of_nat (List.length done) + 1)
      in IH by lia.
    destruct IH as (Hplaced & Hbeyond & Hsorted).
    unfold Search.lineMatch.
    destruct (Nat.ltb_spec 0 (countMatches E r line)) as [Hcount | _]; simpl.
    + split; [| split].
      * constructor; [| exact Hplaced].
        unfold Placed.onLine. simpl.
        rewrite List.length_app. simpl.
        split; [reflexivity |]. split; [lia |]. split.
        { exists line.
          replace (Z.to_nat (Z.of_nat (List.length done) + 1 - 1))
            with (List.length done) by lia.
          rewrite list_lookup_middle by reflexivity. repeat split. lia. }
        destruct (Z.ltb_spec 0 contextLines) as [Hpos | _]; [| split; reflexivity].
        eexists. eexists. split; [reflexivity |]. split; [reflexivity |]. lia.
      * constructor; [simpl; lia |].
        eapply List.Forall_impl; [| exact Hbeyond]. simpl. intros m Hm. lia.
      * constructor; [exact Hsorted |].
        apply List.Forall_map.
        eapply List.Forall_impl; [| exact Hbeyond]. simpl. intros m Hm. lia.
    + split; [exact Hplaced | split; [| exact Hsorted]].
      eapply List.Forall_impl; [| exact Hbeyond]. simpl. intros m Hm. lia.
Qed.

Lemma list_sum_at_least (ms : list SearchMatch.t) :
  Forall (fun m => (1 <= SearchMatch.matchCount m)%nat) ms ->
  (List.length ms <= list_sum (List.map SearchMatch.matchCount ms))%nat.
Proof. induction 1 as [| m ms Hm _ IH]; simpl; lia. Qed.

Lemma titleMatch_counts (r : regex E) (note : NoteInfo.t) :
  Forall (fun m => (1 <= SearchMatch.matchCount m)%nat)
    (Search.titleMatch E r note).
Proof.
  unfold Search.titleMatch.
  destruct (Nat.ltb_spec 0 (countMatches E r (NoteInfo.name note)));
    repeat constructor. simpl. lia.
Qed.

Lemma contentMatches_counts (r : regex E) (concise : bool) (contextLines : Z)
    (body : string) :
  Forall (fun m => (1 <= SearchMatch.matchCount m)%nat)
    (Search.contentMatches E r concise contextLines body).
Proof.
  unfold Search.contentMatches.
  destruct (forEachLine_onLine r concise contextLines [] (JS.splitLines body))
    as [Hplaced _]. simpl in Hplaced.
  eapply List.Forall_impl; [| exact Hplaced].
  intros m (_ & _ & (l & _ & _ & _ & H) & _). exact H.
Qed.

Lemma searchNote_substantial (r : regex E) (searchType : SearchType)
    (concise : bool) (contextLines : Z) (enableCaching : bool)
    (note : NoteInfo.t) (rt rt' : Runtime) (pushed : list SearchResult.t) :
  Search.searchNote E remote r searchType concise contextLines enableCaching
    note rt = (Returns pushed, rt') ->
  Forall Placed.substantial pushed.
Proof.
  unfold Search.searchNote, bind.
  set (fromTitle := if inTitle searchType then Search.titleMatch E r note else []).
  assert (Htitle : Forall (fun m => (1 <= SearchMatch.matchCount m)%nat) fromTitle).
  { subst fromTitle. destruct (inTitle searchType);
      [apply titleMatch_counts | constructor]. }
  assert (Hcontent : forall ms rt1,
    (if inContent searchType
     then Search.scanContent E remote r concise contextLines enableCaching note
     else ret []) rt = (Returns ms, rt1) ->
    Forall (fun m => (1 <= SearchMatch.matchCount m)%nat) ms).
  { intros ms rt1. destruct (inContent searchType).
    - unfold Search.scanContent, tryCatch, bind, ret, consoleError.
      destruct (Cache.getCachedNoteContent remote (NoteInfo.name note)
                  enableCaching rt) as [[body | e] rt2]; intros [= <- _].
      + apply contentMatches_counts.
      + constructor.
    - unfold ret. intros [= <- _]. constructor. }
  destruct ((if inContent searchType
             then Search.scanContent E remote r concise contextLines
                    enableCaching note
             else ret []) rt)
    as [[fromContent | e] rt1] eqn:Hscan; [| discriminate].
  specialize (Hcontent fromContent rt1 eq_refl).
  unfold ret.
  destruct (Nat.ltb_spec 0 (List.length (fromTitle ++ fromContent))) as [Hlen | _];
    intros [= <- _]; constructor; [| constructor].
  assert (Hall : Forall (fun m => (1 <= SearchMatch.matchCount m)%nat)
                   (fromTitle ++ fromContent))
    by (apply List.Forall_app; split; assumption).
  unfold Placed.substantial. simpl. split; [| split; [exact Hall |]].
  - destruct (fromTitle ++ fromContent); [simpl in Hlen; lia | discriminate].
  - rewrite totalMatchCount_sum. pose proof (list_sum_at_least _ Hall). lia.
Qed.

Lemma searchEach_substantial (r : regex E) (searchType : SearchType)
    (concise : bool) (contextLines : Z) (enableCaching : bool)
    (notes : list NoteInfo.t) (rt rt' : Runtime)
    (pushed : list SearchResult.t) :
  Search.searchEach E remote r searchType concise contextLines enableCaching
    notes rt = (Returns pushed, rt') ->
  Forall Placed.substantial pushed.
Proof.
  unfold Search.searchEach.
  revert rt rt' pushed. induction notes as [| note more IH];
    intros rt rt' pushed; simpl.
  - unfold ret. intros [= <- _]. constructor.
  - unfold bind at 1.
    destruct (Search.searchNote E remote r searchType concise contextLines
                enableCaching note rt) as [[first | e] rt1] eqn:Hnote;
      [| discriminate].
    unfold bind at 1.
    destruct (forOf _ more rt1) as [[later | e] rt2] eqn:Hmore; [| discriminate].
    unfold ret. intros [= <- _].
    apply List.Forall_app. split.
    + eapply searchNote_substantial; eauto.
    + eapply IH; eauto.
Qed.

End Matches.

(** X10. Every result of a search has at least one match, every match counts
    at least one occurrence, and the score of a result is at least the
    number of its matches: no result with an empty match list or a zero
    score is returned. *)
Theorem search_results_are_substantial (E : Engine) (remote : Remote)
    (query : string) (searchType : SearchType) (caseSensitive concise : bool)
    (contextLines : Z) (enableCaching : bool) (rt rt' : Runtime)
    (fallback : bool) (ranked : list SearchResult.t) :
  Search.rankedResults E remote query searchType caseSensitive concise
    contextLines enableCaching rt = (Returns (fallback, ranked), rt') ->
  Forall Placed.substantial ranked.
Proof.
  unfold Search.rankedResults. unfold bind at 1.
  destruct (Api.listNotesAPI remote rt) as [[notes | e] rt1]; [| discriminate].
  unfold bind at 1.
  destruct (Search.compileQuery E query caseSensitive rt1)
    as [[compiled | e] rt2]; [| discriminate].
  unfold bind at 1.
  destruct (Search.searchEach E remote compiled.1 searchType concise
              contextLines enableCaching notes rt2)
    as [[pushed | e] rt3] eqn:Hscan; [| discriminate].
  unfold ret. intros [= _ <- _].
  rewrite <- (sortByScore_Permutation pushed).
  eapply searchEach_substantial; eauto.
Qed.

Lemma search_results_are_substantial_witness :
  Forall Placed.substantial
    (snd (match fst (Search.rankedResults Pattern.literalEngine Sample.store
                       "foo" searchBoth false true 1 true Sample.fresh) with
          | Returns found => found
          | Throws _ => (false, [])
          end)).
Proof.
  destruct (Search.rankedResults Pattern.literalEngine Sample.store "foo"
              searchBoth false true 1 true Sample.fresh)
    as [[[fallback ranked] | e] rt'] eqn:Hrun; [| constructor].
  exact (search_results_are_substantial _ _ _ _ _ _ _ _ _ _ _ _ Hrun).
Defined.

(** X11. The content matches of a body are placed on its lines: each match
    carries the 1-based number of a line of the body, the trimmed text of
    that line and its match count; with [contextLines > 0] its window
    starts and ends within the body, contains the line and reaches at most
    [contextLines] lines away, otherwise it has no window; and the matches
    come in increasing line order, one per line at most. *)
Theorem content_matches_are_placed (E : Engine) (r : regex E) (concise : bool)
    (contextLines : Z) (body : string) :
  Forall (Placed.onLine E r contextLines (JS.splitLines body))
    (Search.contentMatches E r concise contextLines body) /\
  StronglySorted Z.lt
    (List.map SearchMatch.line
       (Search.contentMatches E r concise contextLines body)).
Proof.
  unfold Search.contentMatches.
  destruct (forEachLine_onLine E r concise contextLines [] (JS.splitLines body))
    as (Hplaced & _ & Hsorted).
  split; assumption.
Qed.

(** X12. Whatever the page number, zero and negative ones included, a page
    is a run of consecutive results taken in their order, and for a page
    size [maxResults >= 0] it holds at most [maxResults] of them. *)
Theorem paginate_bounded {A} (results : list A) (maxResults page : Z) :
  sublist (Search.paginate results maxResults page) results /\
  (exists skipped,
      Search.paginate results maxResults page =
        take (List.length (Search.paginate results maxResults page))
          (drop skipped results)) /\
  (0 <= maxResults ->
   Z.of_nat (List.length (Search.paginate results maxResults page)) <= maxResults).
Proof.
  unfold Search.paginate, JS.slice.
  set (total := Z.of_nat (List.length results)).
  set (from := JS.relativeIndex total ((page - 1) * maxResults)).
  set (final := JS.relativeIndex total
                  (Z.min ((page - 1) * maxResults + maxResults) total)).
  split; [| split].
  - transitivity (drop (Z.to_nat from) results);
      [apply sublist_take | apply sublist_drop].
  - exists (Z.to_nat from). rewrite length_take. now rewrite take_at_most_length.
  - intros Hsize. rewrite length_take, length_drop.
    subst from final. unfold JS.relativeIndex.
    destruct (Z.ltb_spec ((page - 1) * maxResults) 0);
      destruct (Z.ltb_spec (Z.min ((page - 1) * maxResults + maxResults) total) 0);
      subst total; lia.
Qed.

Lemma paginate_bounded_witness :
  Z.of_nat (List.length (Search.paginate [10; 20; 30; 40; 50]%nat 2 (-1))) <= 2.
Proof.
  exact (proj2 (proj2 (paginate_bounded [10; 20; 30; 40; 50]%nat 2 (-1)))
           ltac:(lia)).
Defined.

(** ** list-notes *)

Lemma sublist_Forall {A} (P : A -> Prop) (l1 l2 : list A) :
  sublist l1 l2 -> Forall P l2 -> Forall P l1.
Proof.
  induction 1 as [| x l1 l2 _ IH | x l1 l2 _ IH]; intros H.
  - constructor.
  - inversion H; subst. constructor; auto.
  - inversion H; subst. auto.
Qed.

Lemma filterEach_sublist (remote : Remote) (needle : string)
    (notes : list NoteInfo.t) (rt rt' : Runtime) (kept : list NoteInfo.t) :
  Search.filterEach remote needle notes rt = (Returns kept, rt') ->
  sublist kept notes.
Proof.
  unfold Search.filterEach.
  revert rt rt' kept. induction notes as [| note more IH]; intros rt rt' kept; simpl.
  - unfold ret. intros [= <- _]. constructor.
  - unfold bind at 1.
    destruct (Search.filterNote remote needle note rt) as [[first | e] rt1] eqn:Hnote;
      [| discriminate].
    unfold bind at 1.
    destruct (forOf _ more rt1) as [[later | e] rt2] eqn:Hmore; [| discriminate].
    unfold ret. intros [= <- _].
    specialize (IH _ _ _ Hmore).
    revert Hnote. unfold Search.filterNote, tryCatch, bind, ret, consoleError.
    destruct (Cache.getCachedNoteContent remote (NoteInfo.name note) true rt)
      as [[body | e] rt0]; [destruct (JS.includes _ _) |];
      intros [= <- _]; simpl;
      [now apply sublist_skip | now apply sublist_cons | now apply sublist_cons].
Qed.

(** X13. [list-notes] has no fallback for its name pattern: when the pattern
    does not compile the tool fails with the syntax error right after the
    listing call, reading no body and ignoring the other filters. *)
Theorem listNotes_rejects_malformed_pattern (E : Engine) (remote : Remote)
    (pattern : string) (permission : option Perm) (contentSearch : option string)
    (rt : Runtime) (notes : list NoteInfo.t) :
  pattern <> EmptyString ->
  compile E pattern {| global := false; ignoreCase := true |} = None ->
  fst (Api.listNotesAPI remote rt) = Returns notes ->
  let out := Search.listNotes E remote (Some pattern) permission contentSearch rt in
  fst out = ListFailed (SyntaxError pattern) /\
  requests (snd out) = requests rt ++ [GetIndex] /\
  contentCache (snd out) = contentCache rt.
Proof.
  intros Hne Hbad Hlist. cbv zeta.
  destruct (client_operations_issue_one_call remote rt EmptyString EmptyString)
    as [[Hreq Hcache] _].
  assert (Htruthy : JS.truthy pattern = true).
  { unfold JS.truthy. now destruct (String.eqb_spec pattern EmptyString). }
  assert (Hrun :
    Search.listedNotes E remote (Some pattern) permission contentSearch rt =
      (Throws (SyntaxError pattern), snd (Api.listNotesAPI remote rt))).
  { unfold Search.listedNotes. unfold bind at 1.
    destruct (Api.listNotesAPI remote rt) as [[listed | e] rt1]; simpl in *;
      [| discriminate].
    unfold bind at 1. now rewrite Htruthy, Hbad. }
  unfold Search.listNotes. rewrite Hrun. simpl. auto.
Qed.

Lemma listNotes_rejects_malformed_pattern_witness :
  fst (Search.listNotes Pattern.literalEngine Sample.store (Some "a(") None
         (Some "foo") Sample.fresh) = ListFailed (SyntaxError "a(").
Proof.
  refine (proj1 (listNotes_rejects_malformed_pattern Pattern.literalEngine
                   Sample.store "a(" None (Some "foo") Sample.fresh
                   [NoteInfo.mk "a.md" rw] _ eq_refl eq_refl)).
  discriminate.
Defined.

(** X14. The notes that [list-notes] shows are notes of the listing, in the
    order of the listing, and all of them have the permission asked for;
    without a content filter the listing call is the only call. *)
Theorem listedNotes_are_listed (E : Engine) (remote : Remote)
    (namePattern : option string) (permission : option Perm)
    (contentSearch : option string) (rt rt' : Runtime)
    (kept : list NoteInfo.t) :
  Search.listedNotes E remote namePattern permission contentSearch rt =
    (Returns kept, rt') ->
  (exists notes,
      fst (Api.listNotesAPI remote rt) = Returns notes /\ sublist kept notes) /\
  (forall p, permission = Some p -> Forall (fun note => NoteInfo.perm note = p) kept) /\
  (JS.truthyOpt contentSearch = false -> requests rt' = requests rt ++ [GetIndex]).
Proof.
  destruct (client_operations_issue_one_call remote rt EmptyString EmptyString)
    as [[Hreq _] _].
  unfold Search.listedNotes. unfold bind at 1.
  destruct (Api.listNotesAPI remote rt) as [[notes | e] rt1]; simpl in *;
    [| discriminate].
  unfold bind at 1.
  set (named :=
         match namePattern with
         | Some pattern =>
             if JS.truthy pattern
             then
               match compile E pattern {| global := false; ignoreCase := true |} with
               | Some r => ret (List.filter (fun note => test E r (NoteInfo.name note)) notes)
               | None => throw (SyntaxError pattern)
               end
             else ret notes
         | None => ret notes
         end).
  assert (Hnamed : forall l rt2,
             named rt1 = (Returns l, rt2) -> sublist l notes /\ rt2 = rt1).
  { subst named. intros l rt2. destruct namePattern as [pattern |].
    - destruct (JS.truthy pattern).
      + destruct (compile E pattern _); [| discriminate].
        unfold ret. intros [= <- <-]. split; [apply filter_sublist | reflexivity].
      + unfold ret. intros [= <- <-]. split; reflexivity.
    - unfold ret. intros [= <- <-]. split; reflexivity. }
  destruct (named rt1) as [[l | e] rt2]; [| discriminate].
  destruct (Hnamed l rt2 eq_refl) as [Hl ->]. clear Hnamed.
  set (permitted :=
         match permission with
         | Some p => List.filter (fun note => Perm_eqb (NoteInfo.perm note) p) l
         | None => l
         end).
  assert (Hpermitted : sublist permitted notes /\
            forall p, permission = Some p ->
                      Forall (fun note => NoteInfo.perm note = p) permitted).
  { subst permitted. destruct permission as [p |].
    - split; [etransitivity; [apply filter_sublist | exact Hl] |].
      intros p' [= <-]. apply List.Forall_forall. intros note Hnote.
      apply List.filter_In in Hnote as [_ Hperm].
      destruct (NoteInfo.perm note), p; simpl in Hperm; congruence.
    - split; [exact Hl | discriminate]. }
  destruct Hpermitted as [Hsub Hperm].
  assert (Hkept : forall (rt0 : Runtime) (final : list NoteInfo.t),
             sublist final permitted ->
             (exists notes0, Returns notes = Returns notes0 /\ sublist final notes0) /\
             (forall p, permission = Some p ->
                        Forall (fun note => NoteInfo.perm note = p) final)).
  { intros _ final Hfinal. split.
    - exists notes. split; [reflexivity | etransitivity; eauto].
    - intros p Hp. exact (sublist_Forall _ _ _ Hfinal (Hperm p Hp)). }
  destruct contentSearch as [needle |]; simpl.
  - destruct (JS.truthy needle).
    + intros Hrun. destruct (Hkept rt' kept (filterEach_sublist _ _ _ _ _ _ Hrun))
        as [H1 H2].
      split; [exact H1 | split; [exact H2 | discriminate]].
    + unfold ret. intros [= <- <-].
      destruct (Hkept rt1 permitted ltac:(reflexivity)) as [H1 H2]. auto.
  - unfold ret. intros [= <- <-].
    destruct (Hkept rt1 permitted ltac:(reflexivity)) as [H1 H2]. auto.
Qed.

Lemma listedNotes_are_listed_witness :
  Forall (fun note => NoteInfo.perm note = rw)
    (match fst (Search.listedNotes Pattern.literalEngine Sample.store None
                  (Some rw) None Sample.fresh) with
     | Returns kept => kept
     | Throws _ => []
     end).
Proof.
  destruct (Search.listedNotes Pattern.literalEngine Sample.store None (Some rw)
              None Sample.fresh) as [[kept | e] rt'] eqn:Hrun; [| constructor].
  exact (proj1 (proj2 (listedNotes_are_listed _ _ _ _ _ _ _ _ Hrun)) rw eq_refl).
Defined.

(** ** create-note, with and without [overwrite] *)

(** X15. [create-note] contacts the store for names ending in [.md] only:
    for any other name it answers with the extension error and issues no
    call, with or without [overwrite]. With [overwrite] and a name ending
    in [.md] it issues a single call, the write, and never reads the note
    first. *)
Theorem createNote_guard_and_overwrite (remote : Remote) (rt : Runtime)
    (filename body : string) :
  (JS.endsWith filename ".md" = false ->
   forall overwrite,
     Tools.createNote remote filename body overwrite rt =
       (Returns MustEndWithMd, rt)) /\
  (JS.endsWith filename ".md" = true ->
   let out := Tools.createNote remote filename body true rt in
   requests (snd out) = requests rt ++ [PutNote filename body] /\
   bodyReads (requests (snd out)) = bodyReads (requests rt) /\
   (fst out = Returns (Created true filename) \/
    exists e, fst out = Returns (FailedToCreate e))).
Proof.
  split.
  - intros Hmd overwrite. now apply createNote_needs_md.
  - intros Hmd. cbv zeta.
    pose proof (writeNoteAPI_effect remote filename body rt) as Hreq.
    unfold Tools.createNote, tryCatch. rewrite Hmd. simpl.
    unfold bind, ret, consoleError.
    destruct (Api.writeNoteAPI remote filename body rt) as [[[] | e] rt1];
      simpl in *; rewrite Hreq, bodyReads_app;
      (split; [reflexivity | split; [unfold bodyReads at 2; simpl; lia | eauto]]).
Qed.

Lemma createNote_guard_and_overwrite_witness :
  Tools.createNote Sample.store "notes.txt" "text" false Sample.fresh =
    (Returns MustEndWithMd, Sample.fresh) /\
  requests (snd (Tools.createNote Sample.store "a.md" "text" true Sample.fresh)) =
    [PutNote "a.md" "text"].
Proof.
  destruct (createNote_guard_and_overwrite Sample.store Sample.fresh "notes.txt"
              "text") as [Hguard _].
  destruct (createNote_guard_and_overwrite Sample.store Sample.fresh "a.md"
              "text") as [_ Hwrite].
  split; [exact (Hguard eq_refl false) | exact (proj1 (Hwrite eq_refl))].
Defined.

(** ** Session registry: further properties *)

Section RegistrySound.

Import Session.

Lemma Attached_unregister (id : string) (s : State) :
  Registry.Attached s -> Registry.Attached (unregister id s).
Proof.
  intros H id' ref Hl. simpl in Hl.
  apply lookup_delete_Some in Hl as [_ Hl]. now apply H.
Qed.

Lemma Sound_initialize (ref : nat) (s : State) :
  Registry.Sound s -> Registry.Sound (initialize ref s).
Proof.
  intros [Hinv Hatt]. split; [now apply Invariant_initialize |].
  destruct Hinv as (Hsame & Hpairs & Hreg).
  unfold initialize.
  destruct (pairs s !! ref) as [p |] eqn:Hp; [| exact Hatt].
  assert (Hlt : (ref < List.length (pairs s))%nat) by (eapply lookup_lt_Some; eauto).
  set (p' := {| newSessionId := newSessionId p; sessionId := Some (newSessionId p) |}).
  assert (Hset : Registry.Attached (setSessionId ref (newSessionId p) s)).
  { intros id ref0 Hl. unfold setSessionId in *. rewrite Hp. simpl in *.
    destruct (decide (ref0 = ref)) as [-> | Hne].
    - exists p'. rewrite list_lookup_insert_eq by exact Hlt.
      split; [reflexivity |]. simpl.
      destruct (Hreg id ref Hl) as (q & Hq & Hid). congruence.
    - rewrite list_lookup_insert_ne by congruence. now apply Hatt. }
  destruct (JS.truthy (newSessionId p)); [| exact Hset].
  intros id ref0 Hl. unfold register, setSessionId in *. rewrite Hp in *.
  simpl in *. apply lookup_insert_Some in Hl as [[<- <-] | [_ Hl]].
  - exists p'. rewrite list_lookup_insert_eq by exact Hlt. auto.
  - now apply Hset.
Qed.

Lemma Sound_onclose (ref : nat) (s : State) :
  Registry.Sound s -> Registry.Sound (onclose ref s).
Proof.
  intros [Hinv Hatt]. split; [now apply Invariant_onclose |].
  unfold onclose. destruct (pairs s !! ref) as [p |]; [| exact Hatt].
  destruct (sessionId p) as [id |]; [| exact Hatt].
  destruct (JS.truthy id); [| exact Hatt].
  exact (Attached_unregister id s Hatt).
Qed.

Lemma Sound_handleRequest (ref : nat) (h : Handling) (s : State) :
  Registry.Sound s -> Registry.Sound (handleRequest ref h s).
Proof.
  unfold handleRequest. revert s.
  induction (during h) as [| c cs IH]; intros s H; simpl; [exact H |].
  apply IH. destruct c; simpl.
  - now apply Sound_initialize.
  - now apply Sound_onclose.
Qed.

Lemma Sound_log (t s0 : string) (s : State) :
  Registry.Sound s -> Registry.Sound (log t s0 s).
Proof. intros H. exact H. Qed.

Lemma Sound_release (r : Release) (s : State) :
  Registry.Sound s -> Registry.Sound (release r s).
Proof. intros H. exact H. Qed.

Lemma Sound_unregister (id : string) (s : State) :
  Registry.Sound s -> Registry.Sound (unregister id s).
Proof.
  intros [Hinv Hatt].
  split; [now apply Invariant_unregister | now apply Attached_unregister].
Qed.

Lemma Sound_guarded (site : string) (transport : Slot) (h : Handling)
    (s : State) :
  Registry.Sound s -> Registry.Sound (fst (guarded site transport h s)).
Proof.
  intros H. unfold guarded. destruct transport as [ref | |]; simpl;
    try exact H.
  destruct (throws h); simpl; try apply Sound_log;
    now apply Sound_handleRequest.
Qed.

Lemma Sound_created (uuid : string) (s : State) :
  String.length uuid = 36%nat ->
  Registry.Sound s ->
  Registry.Sound {| transports := transports s;
                    mcpServers := mcpServers s;
                    pairs := pairs s ++ [{| newSessionId := uuid; sessionId := None |}];
                    released := released s;
                    console := console s |}.
Proof.
  intros Hlen [Hinv Hatt]. split; [now apply Invariant_created |].
  intros id ref Hl. simpl in *. destruct (Hatt id ref Hl) as (p & Hp & Hid).
  exists p. split; [now apply lookup_app_l_Some | exact Hid].
Qed.

Lemma Sound_cleanup (sessionId : string) (transport mcpServer : Slot)
    (replied : bool) (s : State) :
  Registry.Sound s ->
  Registry.Sound (fst (cleanup sessionId transport mcpServer replied s)).
Proof.
  intros H. unfold cleanup.
  destruct mcpServer as [m | |]; simpl; try exact H;
    destruct transport as [t | |]; simpl;
    destruct (JS.truthy sessionId); simpl;
    repeat first [ exact H
                 | apply Sound_unregister
                 | apply Sound_onclose
                 | apply Sound_release ].
Qed.

Lemma Sound_step (s : State) (e : Event) :
  wellFormed e -> Registry.Sound s -> Registry.Sound (fst (step s e)).
Proof.
  intros Hwf H. destruct e as [header uuid connectFails h | header h | header h | ref];
    simpl.
  - unfold post. destruct (resolves s header).
    + now apply Sound_guarded.
    + destruct connectFails.
      * now apply Sound_created.
      * apply (Sound_guarded _ (Own _)). now apply Sound_created.
  - unfold handleSessionRequest. destruct header as [sessionId |]; [| exact H].
    destruct (_ && _); [| exact H]. now apply Sound_guarded.
  - unfold delete. destruct header as [sessionId |]; [| exact H].
    destruct (_ && _); [| exact H].
    destruct (get (transports s) sessionId) as [t | |].
    + destruct (throws h).
      * match goal with
        | |- context [cleanup ?a ?b ?c ?d ?x] =>
            pose proof (Sound_cleanup a b c d x) as Hc;
            destruct (cleanup a b c d x) as [s' []]
        end; simpl in *; apply Hc, Sound_log;
          now apply Sound_handleRequest.
      * apply Sound_cleanup. now apply Sound_handleRequest.
    + match goal with
      | |- context [cleanup ?a ?b ?c ?d ?x] =>
          pose proof (Sound_cleanup a b c d x) as Hc;
          destruct (cleanup a b c d x) as [s' []]
      end; simpl in *; apply Hc, Sound_log; exact H.
    + match goal with
      | |- context [cleanup ?a ?b ?c ?d ?x] =>
          pose proof (Sound_cleanup a b c d x) as Hc;
          destruct (cleanup a b c d x) as [s' []]
      end; simpl in *; apply Hc, Sound_log; exact H.
  - now apply Sound_onclose.
Qed.

Lemma Reachable_Sound (s : State) : Reachable s -> Registry.Sound s.
Proof.
  induction 1 as [| s e _ IH Hwf].
  - split; [apply Invariant_initial |].
    intros id ref H. simpl in H. rewrite lookup_empty in H. discriminate.
  - now apply Sound_step.
Qed.

(** What a sound state knows about a registered id. *)
Lemma Sound_registered (s : State) (id : string) (ref : nat) :
  Registry.Sound s ->
  transports s !! id = Some ref ->
  mcpServers s !! id = Some ref /\
  String.length id = 36%nat /\
  exists p,
    pairs s !! ref = Some p /\ newSessionId p = id /\ sessionId p = Some id.
Proof.
  intros [(Hsame & Hpairs & Hreg) Hatt] Hl.
  destruct (Hreg id ref Hl) as (p & Hp & Hid).
  destruct (Hatt id ref Hl) as (q & Hq & Hsid).
  assert (q = p) by congruence. subst q.
  destruct (Hpairs ref p Hp) as [Hlen _].
  split; [now rewrite <- Hsame |]. split; [congruence | eauto].
Qed.

Lemma inherited_not_uuid (id : string) :
  String.length id = 36%nat ->
  existsb (String.eqb id) inheritedKeys = false.
Proof.
  intros Hlen. apply Bool.not_true_is_false. intros H.
  apply List.existsb_exists in H as (key & Hin & Heq).
  apply String.eqb_eq in Heq. subst key.
  simpl in Hin.
  repeat (destruct Hin as [<- | Hin]; [discriminate |]). exact Hin.
Qed.

Lemma resolves_registered (s : State) (id : string) (ref : nat) :
  Registry.Sound s ->
  transports s !! id = Some ref ->
  resolves s (Some id) = true /\ get (transports s) id = Own ref /\
  get (mcpServers s) id = Own ref /\ JS.truthy id = true.
Proof.
  intros Hsound Hl.
  destruct (Sound_registered s id ref Hsound Hl) as (Hm & Hlen & _).
  pose proof (uuid_truthy id Hlen) as Ht.
  unfold resolves. rewrite (get_own _ _ _ Hl), (get_own _ _ _ Hm), Ht. auto.
Qed.

(** The callbacks of a transport touch the entries of its own id only. *)
Lemma handleRequest_frame (ref : nat) (h : Handling) (s : State) (id : string) :
  Registry.Sound s ->
  (exists p, pairs s !! ref = Some p /\ newSessionId p = id) ->
  forall other,
    other <> id ->
    Registry.Sound (handleRequest ref h s) /\
    (exists p', pairs (handleRequest ref h s) !! ref = Some p' /\
                newSessionId p' = id) /\
    transports (handleRequest ref h s) !! other = transports s !! other /\
    mcpServers (handleRequest ref h s) !! other = mcpServers s !! other.
Proof.
  unfold handleRequest. revert s.
  induction (during h) as [| c cs IH]; intros s Hsound Hpair other Hne; simpl;
    [auto |].
  destruct Hpair as (p & Hp & Hid).
  destruct Hsound as [Hinv Hatt].
  pose proof Hinv as (Hsame & Hpairs & Hreg).
  destruct (Hpairs ref p Hp) as [_ Hsid].
  assert (Hlt : (ref < List.length (pairs s))%nat) by (eapply lookup_lt_Some; eauto).
  assert (Hstep : Registry.Sound (fire ref s c) /\
                  (exists p', pairs (fire ref s c) !! ref = Some p' /\
                              newSessionId p' = id) /\
                  transports (fire ref s c) !! other = transports s !! other /\
                  mcpServers (fire ref s c) !! other = mcpServers s !! other).
  { destruct c; simpl.
    - split; [apply Sound_initialize; split; assumption |].
      unfold initialize, setSessionId. rewrite Hp, Hid.
      destruct (JS.truthy id); simpl.
      + rewrite list_lookup_insert_eq by exact Hlt.
        rewrite !lookup_insert_ne by congruence. split; [eauto | auto].
      + rewrite list_lookup_insert_eq by exact Hlt. split; [eauto | auto].
    - split; [apply Sound_onclose; split; assumption |].
      unfold onclose. rewrite Hp.
      destruct Hsid as [-> | ->]; [eauto |].
      rewrite Hid. destruct (JS.truthy id); simpl; [| eauto].
      rewrite !lookup_delete_ne by congruence. eauto. }
  destruct Hstep as (Hsound' & Hpair' & Ht & Hm).
  destruct (IH _ Hsound' Hpair' other Hne) as (Hs & Hp' & Ht' & Hm').
  split; [exact Hs | split; [exact Hp' | split; congruence]].
Qed.

End RegistrySound.

Section RegistryRequests.

Import Session.

(** The closure callback of a registered transport. *)
Lemma onclose_registered (s : State) (id : string) (ref : nat) :
  Registry.Sound s ->
  transports s !! id = Some ref ->
  onclose ref s = release (ServerClosed ref) (unregister id s).
Proof.
  intros Hsound Hl.
  destruct (Sound_registered s id ref Hsound Hl) as (_ & Hlen & p & Hp & _ & Hsid).
  unfold onclose. now rewrite Hp, Hsid, (uuid_truthy id Hlen).
Qed.

(** The closure callback of a transport touches the entries of its id only. *)
Lemma onclose_frame (s : State) (id : string) (ref : nat) (other : string) :
  Registry.Sound s ->
  (exists p, pairs s !! ref = Some p /\ newSessionId p = id) ->
  other <> id ->
  transports (onclose ref s) !! other = transports s !! other /\
  mcpServers (onclose ref s) !! other = mcpServers s !! other.
Proof.
  intros Hsound Hpair Hne.
  destruct (handleRequest_frame ref
              {| during := [Closed]; throws := false; headersSent := false |}
              s id Hsound Hpair other Hne) as (_ & _ & H).
  exact H.
Qed.

(** DELETE for a registered id, step by step. *)
Lemma delete_registered (s : State) (id : string) (t : nat) (h : Handling) :
  Registry.Sound s ->
  transports s !! id = Some t ->
  exists handled,
    (handled = handleRequest t h s \/
     handled = log "[DELETE /mcp] Error during DELETE handling" id
                 (handleRequest t h s)) /\
    fst (step s (DELETE (Some id) h)) =
      unregister id
        (onclose t (release (TransportClosed t) (release (ServerClosed t) handled))).
Proof.
  intros Hsound Hl.
  destruct (resolves_registered s id t Hsound Hl) as (_ & Ht & Hm & Htruthy).
  simpl. unfold delete. rewrite Ht, Hm, Htruthy. simpl.
  destruct (throws h); rewrite ?Htruthy;
    [exists (log "[DELETE /mcp] Error during DELETE handling" id
               (handleRequest t h s))
    | exists (handleRequest t h s)]; split; auto.
Qed.

(** POST without a session that resolves, the transport confirming the id. *)
Lemma post_fresh_confirmed (s : State) (header : option string) (uuid : string) :
  resolves s header = false ->
  String.length uuid = 36%nat ->
  let s' := fst (step s (POST header uuid false Registry.confirming)) in
  transports s' = <[uuid := List.length (pairs s)]> (transports s) /\
  mcpServers s' = <[uuid := List.length (pairs s)]> (mcpServers s) /\
  List.length (pairs s') = S (List.length (pairs s)).
Proof.
  intros Hfresh Hlen. cbv zeta. simpl. unfold post. rewrite Hfresh.
  unfold guarded, handleRequest. simpl.
  unfold initialize. simpl.
  rewrite list_lookup_middle by reflexivity. simpl.
  rewrite (uuid_truthy uuid Hlen).
  unfold setSessionId. simpl.
  rewrite list_lookup_middle by reflexivity. simpl.
  rewrite length_insert, List.length_app. simpl.
  repeat split. lia.
Qed.

End RegistryRequests.

(** X16. When the transport of a registered session reports closure, the
    session's id leaves both maps and its handler is closed; the entries of
    every other session stay as they are. *)
Theorem transport_closure_ends_session (s : Session.State) (id : string)
    (ref : nat) :
  Session.Reachable s ->
  Session.transports s !! id = Some ref ->
  let s' := fst (Session.step s (Session.Disconnect ref)) in
  Session.transports s' !! id = None /\
  Session.mcpServers s' !! id = None /\
  In (Session.ServerClosed ref) (Session.released s') /\
  forall other,
    other <> id ->
    Session.transports s' !! other = Session.transports s !! other /\
    Session.mcpServers s' !! other = Session.mcpServers s !! other.
Proof.
  intros Hreach Hl. cbv zeta. simpl.
  pose proof (Reachable_Sound s Hreach) as Hsound.
  rewrite (onclose_registered s id ref Hsound Hl). simpl.
  rewrite !lookup_delete_eq. repeat split.
  - apply List.in_or_app. right. now left.
  - now apply lookup_delete_ne.
  - now apply lookup_delete_ne.
Qed.

Lemma transport_closure_ends_session_witness :
  Session.transports
    (fst (Session.step
            (Session.run [Session.POST None "123e4567-e89b-42d3-a456-426614174000"
                            false Registry.confirming])
            (Session.Disconnect 0)))
    !! "123e4567-e89b-42d3-a456-426614174000" = None.
Proof.
  refine (proj1 (transport_closure_ends_session
                   (Session.run
                      [Session.POST None "123e4567-e89b-42d3-a456-426614174000"
                         false Registry.confirming])
                   "123e4567-e89b-42d3-a456-426614174000" 0%nat _ eq_refl)).
  apply (Session.Reachable_step Session.initial
           (Session.POST None "123e4567-e89b-42d3-a456-426614174000" false _)).
  - apply Session.Reachable_initial.
  - reflexivity.
Defined.

(** X17. A DELETE request ends the session it names and no other: whatever
    the transport does while it handles the request, the entries of every
    other session id are the same after it. *)
Theorem delete_leaves_other_sessions (s : Session.State) (id : string)
    (t : nat) (h : Session.Handling) (other : string) :
  Session.Reachable s ->
  Session.transports s !! id = Some t ->
  other <> id ->
  let s' := fst (Session.step s (Session.DELETE (Some id) h)) in
  Session.transports s' !! other = Session.transports s !! other /\
  Session.mcpServers s' !! other = Session.mcpServers s !! other.
Proof.
  intros Hreach Hl Hne. cbv zeta.
  pose proof (Reachable_Sound s Hreach) as Hsound.
  destruct (Sound_registered s id t Hsound Hl) as (_ & _ & p & Hp & Hid & _).
  destruct (delete_registered s id t h Hsound Hl) as (handled & Hhandled & ->).
  destruct (handleRequest_frame t h s id Hsound (ex_intro _ p (conj Hp Hid))
              other Hne) as (Hsound1 & Hpair1 & Ht1 & Hm1).
  assert (Hclose :
    Session.transports
      (Session.onclose t
         (Session.release (Session.TransportClosed t)
            (Session.release (Session.ServerClosed t) handled))) !! other =
      Session.transports s !! other /\
    Session.mcpServers
      (Session.onclose t
         (Session.release (Session.TransportClosed t)
            (Session.release (Session.ServerClosed t) handled))) !! other =
      Session.mcpServers s !! other).
  { destruct Hhandled as [-> | ->];
      match goal with
      | |- context [Session.onclose t ?x] =>
          destruct (onclose_frame x id t other) as [Ht2 Hm2];
            [exact Hsound1 | exact Hpair1 | exact Hne |]
      end; simpl in *; split; congruence. }
  simpl. rewrite !lookup_delete_ne by congruence. exact Hclose.
Qed.

Lemma delete_leaves_other_sessions_witness :
  let s := Session.run
             [Session.POST None "123e4567-e89b-42d3-a456-426614174000" false
                Registry.confirming;
              Session.POST None "00000000-0000-4000-8000-000000000001" false
                Registry.confirming] in
  Session.transports
    (fst (Session.step s
            (Session.DELETE (Some "123e4567-e89b-42d3-a456-426614174000")
               (Registry.quiet true false))))
    !! "00000000-0000-4000-8000-000000000001" = Some 1%nat.
Proof.
  cbv zeta.
  refine (eq_trans
            (proj1 (delete_leaves_other_sessions
                      (Session.run
                         [Session.POST None "123e4567-e89b-42d3-a456-426614174000"
                            false Registry.confirming;
                          Session.POST None "00000000-0000-4000-8000-000000000001"
                            false Registry.confirming])
                      "123e4567-e89b-42d3-a456-426614174000" 0%nat
                      (Registry.quiet true false)
                      "00000000-0000-4000-8000-000000000001" _ eq_refl _))
            eq_refl).
  - apply (Session.Reachable_step _
             (Session.POST None "00000000-0000-4000-8000-000000000001" false _)).
    + apply (Session.Reachable_step Session.initial
               (Session.POST None "123e4567-e89b-42d3-a456-426614174000" false _)).
      * apply Session.Reachable_initial.
      * reflexivity.
    + reflexivity.
  - discriminate.
Defined.

(** X18. GET and DELETE for a request without a session id, with an empty
    one, or with an id that is neither registered nor a property name
    inherited by the maps, answer 400 and change nothing: no pair is
    created, nothing is closed, nothing is logged. *)
Theorem unknown_session_is_refused (s : Session.State)
    (header : option string) (h : Session.Handling) :
  header = None \/ header = Some EmptyString \/
  (exists id,
      header = Some id /\ Session.transports s !! id = None /\
      ~ In id Session.inheritedKeys) ->
  Session.step s (Session.GET header h) = (s, Session.Status 400) /\
  Session.step s (Session.DELETE header h) = (s, Session.Status 400).
Proof.
  intros [-> | [-> | (id & -> & Hnone & Hown)]]; simpl;
    unfold Session.handleSessionRequest, Session.delete; simpl;
    [split; reflexivity | split; reflexivity |].
  assert (Hget : Session.get (Session.transports s) id = Session.Undefined).
  { unfold Session.get. rewrite Hnone.
    destruct (existsb (String.eqb id) Session.inheritedKeys) eqn:Hex;
      [| reflexivity].
    apply List.existsb_exists in Hex as (key & Hin & Heq).
    apply String.eqb_eq in Heq. subst key. contradiction. }
  rewrite Hget. simpl. rewrite Bool.andb_false_r. split; reflexivity.
Qed.

Lemma unknown_session_is_refused_witness :
  Session.step Session.initial
    (Session.DELETE (Some "123e4567-e89b-42d3-a456-426614174000")
       (Registry.quiet false false)) = (Session.initial, Session.Status 400).
Proof.
  refine (proj2 (unknown_session_is_refused Session.initial _ _ _)).
  right. right. exists "123e4567-e89b-42d3-a456-426614174000".
  split; [reflexivity |]. split; [reflexivity |].
  simpl. intros H.
  repeat (destruct H as [H | H]; [discriminate |]). exact H.
Defined.

(** X19. A POST that carries a registered session id is handled by the
    registered transport: no new transport or handler is created. If the
    handling throws while the transport fires no callback, the error is
    answered (500 unless the transport had started the response) and the
    session stays registered, both maps unchanged. *)
Theorem established_session_survives_errors (s : Session.State) (id uuid : string)
    (ref : nat) (connectFails : bool) (h : Session.Handling) :
  Session.Reachable s ->
  Session.transports s !! id = Some ref ->
  let out := Session.step s (Session.POST (Some id) uuid connectFails h) in
  fst out =
    (if Session.throws h
     then Session.log "[POST /mcp] Error handling MCP request" EmptyString
            (Session.handleRequest ref h s)
     else Session.handleRequest ref h s) /\
  List.length (Session.pairs (fst out)) = List.length (Session.pairs s) /\
  (Session.during h = [] ->
   Session.transports (fst out) = Session.transports s /\
   Session.mcpServers (fst out) = Session.mcpServers s /\
   (Session.throws h = true ->
    snd out = if Session.headersSent h then Session.ByTransport
              else Session.Status 500)).
Proof.
  intros Hreach Hl. cbv zeta.
  pose proof (Reachable_Sound s Hreach) as Hsound.
  destruct (resolves_registered s id ref Hsound Hl) as (Hres & Ht & _ & _).
  simpl. unfold Session.post. rewrite Hres. simpl. rewrite Ht.
  unfold Session.guarded.
  assert (Hlen : forall x, List.length (Session.pairs (Session.handleRequest ref h x))
                           = List.length (Session.pairs x)).
  { unfold Session.handleRequest.
    induction (Session.during h) as [| c cs IH]; intros x; simpl; [reflexivity |].
    rewrite IH. destruct c; simpl.
    - unfold Session.initialize, Session.setSessionId.
      destruct (Session.pairs x !! ref) as [p |] eqn:Hp; [| reflexivity].
      destruct (JS.truthy _); simpl; rewrite ?Hp; simpl; apply length_insert.
    - unfold Session.onclose.
      destruct (Session.pairs x !! ref) as [p |]; [| reflexivity].
      destruct (Session.sessionId p) as [sid |]; [| reflexivity].
      destruct (JS.truthy sid); reflexivity. }
  split; [destruct (Session.throws h); reflexivity |].
  split; [destruct (Session.throws h); simpl; apply Hlen |].
  intros Hquiet. unfold Session.handleRequest. rewrite Hquiet. simpl.
  destruct (Session.throws h); simpl; repeat split; auto; discriminate.
Qed.

Lemma established_session_survives_errors_witness :
  let s := Session.run
             [Session.POST None "123e4567-e89b-42d3-a456-426614174000" false
                Registry.confirming] in
  Session.transports
    (fst (Session.step s
            (Session.POST (Some "123e4567-e89b-42d3-a456-426614174000")
               "00000000-0000-4000-8000-000000000001" false
               (Registry.quiet true false)))) = Session.transports s.
Proof.
  cbv zeta.
  refine (proj1 (proj2 (proj2 (established_session_survives_errors
                   (Session.run
                      [Session.POST None "123e4567-e89b-42d3-a456-426614174000"
                         false Registry.confirming])
                   "123e4567-e89b-42d3-a456-426614174000"
                   "00000000-0000-4000-8000-000000000001" 0%nat false
                   (Registry.quiet true false) _ eq_refl)) eq_refl)).
  apply (Session.Reachable_step Session.initial
           (Session.POST None "123e4567-e89b-42d3-a456-426614174000" false _)).
  - apply Session.Reachable_initial.
  - reflexivity.
Defined.

Section RegistryPairs.

Import Session.

Lemma onclose_pairs (ref : nat) (s : State) : pairs (onclose ref s) = pairs s.
Proof.
  unfold onclose. destruct (pairs s !! ref) as [p |]; [| reflexivity].
  destruct (sessionId p) as [sid |]; [| reflexivity].
  destruct (JS.truthy sid); reflexivity.
Qed.

Lemma handleRequest_pairs_length (ref : nat) (h : Handling) (s : State) :
  List.length (pairs (handleRequest ref h s)) = List.length (pairs s).
Proof.
  unfold handleRequest. revert s.
  induction (during h) as [| c cs IH]; intros s; simpl; [reflexivity |].
  rewrite IH. destruct c; simpl.
  - unfold initialize, setSessionId.
    destruct (pairs s !! ref) as [p |] eqn:Hp; [| reflexivity].
    destruct (JS.truthy _); simpl; rewrite ?Hp; simpl; apply length_insert.
  - now rewrite onclose_pairs.
Qed.

Lemma not_inherited_undefined (object : gmap string nat) (id : string) :
  String.length id = 36%nat ->
  object !! id = None ->
  get object id = Undefined.
Proof.
  intros Hlen Hnone. unfold get. now rewrite Hnone, (inherited_not_uuid id Hlen).
Qed.

Lemma inherited_unregistered (s : State) (key : string) :
  Registry.Sound s ->
  In key inheritedKeys ->
  get (transports s) key = Inherited /\ get (mcpServers s) key = Inherited /\
  JS.truthy key = true.
Proof.
  intros Hsound Hin.
  assert (Hex : existsb (String.eqb key) inheritedKeys = true).
  { apply List.existsb_exists. exists key. split; [exact Hin | apply String.eqb_refl]. }
  assert (Hnone : transports s !! key = None).
  { destruct (transports s !! key) as [ref |] eqn:Hl; [| reflexivity].
    destruct (Sound_registered s key ref Hsound Hl) as (_ & Hlen & _).
    rewrite (inherited_not_uuid key Hlen) in Hex. discriminate. }
  assert (Hnone' : mcpServers s !! key = None).
  { destruct Hsound as [(Hsame & _) _]. now rewrite <- Hsame. }
  unfold get. rewrite Hnone, Hnone', Hex.
  repeat split.
  simpl in Hin.
  repeat (destruct Hin as [<- | Hin]; [reflexivity |]). contradiction.
Qed.

End RegistryPairs.

(** X20. A terminated session id is not brought back: after the DELETE of a
    registered id, a POST that still carries that id does not resolve, a
    new transport and handler are created, and once the transport has
    confirmed its freshly generated id the pair is registered under that
    new id, the old id staying out of both maps. *)
Theorem terminated_id_is_not_reused (s : Session.State) (id uuid : string)
    (t : nat) (h : Session.Handling) :
  Session.Reachable s ->
  Session.transports s !! id = Some t ->
  String.length uuid = 36%nat ->
  uuid <> id ->
  let s1 := fst (Session.step s (Session.DELETE (Some id) h)) in
  let s2 := fst (Session.step s1
                   (Session.POST (Some id) uuid false Registry.confirming)) in
  Session.resolves s1 (Some id) = false /\
  Session.transports s2 !! id = None /\
  Session.mcpServers s2 !! id = None /\
  Session.transports s2 !! uuid = Some (List.length (Session.pairs s)) /\
  Session.mcpServers s2 !! uuid = Some (List.length (Session.pairs s)) /\
  (t < List.length (Session.pairs s))%nat.
Proof.
  intros Hreach Hl Hlen Hne s1 s2.
  pose proof (Reachable_Sound s Hreach) as Hsound.
  destruct (Sound_registered s id t Hsound Hl) as (_ & Hidlen & p & Hp & _).
  destruct (delete_registered s id t h Hsound Hl) as (handled & Hhandled & Hs1).
  fold s1 in Hs1.
  assert (Ht1 : Session.transports s1 !! id = None)
    by (rewrite Hs1; simpl; apply lookup_delete_eq).
  assert (Hm1 : Session.mcpServers s1 !! id = None)
    by (rewrite Hs1; simpl; apply lookup_delete_eq).
  assert (Hpairs1 : List.length (Session.pairs s1) = List.length (Session.pairs s)).
  { rewrite Hs1. simpl. rewrite onclose_pairs. simpl.
    destruct Hhandled as [-> | ->]; simpl; apply handleRequest_pairs_length. }
  assert (Hfresh : Session.resolves s1 (Some id) = false).
  { unfold Session.resolves.
    rewrite (not_inherited_undefined _ id Hidlen Ht1). simpl.
    now rewrite Bool.andb_false_r. }
  destruct (post_fresh_confirmed s1 (Some id) uuid Hfresh Hlen) as (Ht2 & Hm2 & _).
  fold s2 in Ht2, Hm2.
  split; [exact Hfresh |].
  rewrite Ht2, Hm2, Hpairs1.
  rewrite !lookup_insert_ne by congruence. rewrite !lookup_insert_eq.
  repeat split; try assumption.
  eapply lookup_lt_Some; eauto.
Qed.

Lemma terminated_id_is_not_reused_witness :
  let s := Session.run
             [Session.POST None "123e4567-e89b-42d3-a456-426614174000" false
                Registry.confirming] in
  let s1 := fst (Session.step s
                   (Session.DELETE (Some "123e4567-e89b-42d3-a456-426614174000")
                      (Registry.quiet false true))) in
  let s2 := fst (Session.step s1
                   (Session.POST (Some "123e4567-e89b-42d3-a456-426614174000")
                      "00000000-0000-4000-8000-000000000001" false
                      Registry.confirming)) in
  Session.transports s2 !! "123e4567-e89b-42d3-a456-426614174000" = None /\
  Session.transports s2 !! "00000000-0000-4000-8000-000000000001" = Some 1%nat.
Proof.
  cbv zeta.
  destruct (terminated_id_is_not_reused
              (Session.run
                 [Session.POST None "123e4567-e89b-42d3-a456-426614174000" false
                    Registry.confirming])
              "123e4567-e89b-42d3-a456-426614174000"
              "00000000-0000-4000-8000-000000000001" 0%nat
              (Registry.quiet false true))
    as (_ & Hold & _ & Hnew & _).
  - apply (Session.Reachable_step Session.initial
             (Session.POST None "123e4567-e89b-42d3-a456-426614174000" false _)).
    + apply Session.Reachable_initial.
    + reflexivity.
  - reflexivity.
  - reflexivity.
  - discriminate.
  - split; [exact Hold | exact Hnew].
Defined.

(** X21. In every reachable state a registered id is a generated id (36
    characters), it is registered with the pair that generated it, whose
    transport carries it as its session id, and no pair is registered under
    two ids. *)
Theorem registry_is_injective (s : Session.State) :
  Session.Reachable s ->
  (forall id ref,
      Session.transports s !! id = Some ref ->
      Session.mcpServers s !! id = Some ref /\
      String.length id = 36%nat /\
      exists p,
        Session.pairs s !! ref = Some p /\
        Session.newSessionId p = id /\
        Session.sessionId p = Some id) /\
  (forall id1 id2 ref,
      Session.transports s !! id1 = Some ref ->
      Session.transports s !! id2 = Some ref ->
      id1 = id2).
Proof.
  intros Hreach. pose proof (Reachable_Sound s Hreach) as Hsound.
  split.
  - intros id ref. now apply Sound_registered.
  - intros id1 id2 ref H1 H2.
    destruct (Sound_registered s id1 ref Hsound H1) as (_ & _ & p1 & Hp1 & Hid1 & _).
    destruct (Sound_registered s id2 ref Hsound H2) as (_ & _ & p2 & Hp2 & Hid2 & _).
    congruence.
Qed.

Lemma registry_is_injective_witness :
  Session.mcpServers
    (Session.run
       [Session.POST None "123e4567-e89b-42d3-a456-426614174000" false
          Registry.confirming]) !! "123e4567-e89b-42d3-a456-426614174000" =
  Some 0%nat.
Proof.
  refine (proj1 (proj1 (registry_is_injective
                          (Session.run
                             [Session.POST None
                                "123e4567-e89b-42d3-a456-426614174000"
                                false Registry.confirming]) _)
                   "123e4567-e89b-42d3-a456-426614174000" 0%nat eq_refl)).
  apply (Session.Reachable_step Session.initial
           (Session.POST None "123e4567-e89b-42d3-a456-426614174000" false _)).
  - apply Session.Reachable_initial.
  - reflexivity.
Defined.

(** X22. A session id that is the name of a property every object inherits
    ([constructor], [__proto__], [toString], ...) passes the session check
    of the three handlers although no session is registered under it: POST
    does not create a session and answers 500, GET answers 500 instead of
    400, and the cleanup of DELETE throws out of the handler. Both maps and
    the created pairs stay as they were. *)
Theorem inherited_session_id_passes_check (s : Session.State) (key uuid : string)
    (connectFails : bool) (h : Session.Handling) :
  Session.Reachable s ->
  In key Session.inheritedKeys ->
  Session.step s (Session.POST (Some key) uuid connectFails h) =
    (Session.log "[POST /mcp] Error handling MCP request" EmptyString s,
     Session.Status 500) /\
  Session.step s (Session.GET (Some key) h) =
    (Session.log "[handleSessionRequest] Error handling session event"
       EmptyString s,
     Session.Status 500) /\
  Session.step s (Session.DELETE (Some key) h) =
    (Session.log "[DELETE /mcp] Error during DELETE handling" key s,
     Session.Unhandled).
Proof.
  intros Hreach Hin. pose proof (Reachable_Sound s Hreach) as Hsound.
  destruct (inherited_unregistered s key Hsound Hin) as (Ht & Hm & Htruthy).
  simpl. unfold Session.post, Session.resolves, Session.handleSessionRequest,
    Session.delete, Session.guarded, Session.cleanup.
  simpl. rewrite Ht, Hm, Htruthy. simpl. auto.
Qed.

Lemma inherited_session_id_passes_check_witness :
  Session.step Session.initial
    (Session.GET (Some "constructor") (Registry.quiet false false)) =
    (Session.log "[handleSessionRequest] Error handling session event"
       EmptyString Session.initial,
     Session.Status 500).
Proof.
  refine (proj1 (proj2 (inherited_session_id_passes_check Session.initial
                          "constructor" EmptyString false
                          (Registry.quiet false false)
                          Session.Reachable_initial _))).
  simpl. auto.
Defined.

(** ** Multi-note utilities: reading a batch *)

Section BatchRead.

Import ContentManager.

Variable remote : Remote.
Variable request : MultiNoteRequest.t.
Variable availableNotes : list NoteInfo.t.

Lemma Progress_eq (a a' : list NoteResult.t) (b b' : list ReadFailure)
    (c c' d d' e e' : Z) :
  a = a' -> b = b' -> c = c' -> d = d' -> e = e' ->
  {| results := a; errors := b; successCount := c; rwCount := d; roCount := e |} =
  {| results := a'; errors := b'; successCount := c'; rwCount := d'; roCount := e' |}.
Proof. congruence. Qed.

Lemma failures_nil : Batch.failures [] = [].
Proof. reflexivity. Qed.

Lemma failures_cons (r : NoteResult.t) (rs : list NoteResult.t) :
  Batch.failures (r :: rs) =
  match NoteResult.error r with
  | Some failure => failure :: Batch.failures rs
  | None => Batch.failures rs
  end.
Proof. unfold Batch.failures. simpl. now destruct (NoteResult.error r). Qed.

Lemma readOne_returns (filename : string) (p : Progress) (rt : Runtime) :
  exists r rt',
    readOne remote request availableNotes filename p rt =
      (Returns
         {| results := results p ++ [r];
            errors := errors p ++ Batch.failures [r];
            successCount :=
              successCount p + 1 - Z.of_nat (List.length (Batch.failures [r]));
            rwCount :=
              rwCount p + Z.of_nat (Batch.listedAs rw availableNotes [filename]);
            roCount :=
              roCount p + Z.of_nat (Batch.listedAs ro availableNotes [filename]) |},
       rt') /\
    NoteResult.filename r = filename /\
    Batch.wellShaped request availableNotes r.
Proof.
  unfold readOne, tryCatch, bind, Batch.wellShaped, Batch.listedAs.
  assert (Hcount :
    count (permissionOf availableNotes filename) p =
    {| results := results p; errors := errors p; successCount := successCount p;
       rwCount := rwCount p +
         Z.of_nat (List.length (List.filter
           (fun f => Perm_eqb (permissionOf availableNotes f) rw) [filename]));
       roCount := roCount p +
         Z.of_nat (List.length (List.filter
           (fun f => Perm_eqb (permissionOf availableNotes f) ro) [filename])) |}).
  { unfold count. simpl.
    destruct (permissionOf availableNotes filename); simpl; f_equal; lia. }
  rewrite Hcount. clear Hcount.
  destruct (notFalse (MultiNoteRequest.includeContent request)) eqn:Hinc.
  - destruct ((if notFalse (MultiNoteRequest.enableCaching request)
               then Cache.getCachedNoteContent remote filename true
               else Api.readNoteAPI remote filename) rt) as [[body | e] rt'].
    + exists (withContent request filename (permissionOf availableNotes filename) body), rt'.
      simpl. repeat split.
      * unfold ret, succeed. simpl. repeat f_equal. now rewrite app_nil_r. lia.
      * now exists body.
    + exists (NoteResult.mk filename ro None None None None
                (Some {| unread := filename; reason := e |})), rt'.
      simpl. repeat split.
      * unfold ret, failed. simpl. repeat f_equal. lia.
      * intros Hoff. rewrite Hoff in Hinc. discriminate.
  - exists (NoteResult.mk filename (permissionOf availableNotes filename)
              None None None None None), rt.
    simpl. repeat split.
    unfold ret, succeed. simpl. repeat f_equal. now rewrite app_nil_r. lia.
Qed.

Lemma forEach_readOne (filenames : list string) :
  forall (p : Progress) (rt : Runtime),
  exists rs rt',
    forEach (readOne remote request availableNotes) filenames p rt =
      (Returns
         {| results := results p ++ rs;
            errors := errors p ++ Batch.failures rs;
            successCount :=
              successCount p + Z.of_nat (List.length rs)
              - Z.of_nat (List.length (Batch.failures rs));
            rwCount :=
              rwCount p + Z.of_nat (Batch.listedAs rw availableNotes filenames);
            roCount :=
              roCount p + Z.of_nat (Batch.listedAs ro availableNotes filenames) |},
       rt') /\
    List.map NoteResult.filename rs = filenames /\
    Forall (Batch.wellShaped request availableNotes) rs.
Proof.
  induction filenames as [| filename more IH]; intros p rt.
  - exists [], rt. simpl. repeat split; [| constructor].
    unfold ret, Batch.listedAs. destruct p. simpl.
    now rewrite !app_nil_r, !Z.add_0_r, Z.sub_0_r.
  - destruct (readOne_returns filename p rt) as (r & rt1 & Hone & Hname & Hshape).
    simpl forEach. unfold bind at 1. rewrite Hone.
    match goal with
    | |- context [forEach _ more ?q rt1] =>
        destruct (IH q rt1) as (rs & rt' & Hrest & Hnames & Hshapes)
    end.
    exists (r :: rs), rt'. rewrite Hrest. simpl results. simpl errors.
    simpl successCount. simpl rwCount. simpl roCount.
    repeat split.
    + f_equal. f_equal. apply Progress_eq.
      * now rewrite <- app_assoc.
      * rewrite <- app_assoc, failures_cons.
        now destruct (NoteResult.error r).
      * rewrite !failures_cons, ?failures_nil.
        destruct (NoteResult.error r); cbn [List.length]; lia.
      * unfold Batch.listedAs. simpl.
        destruct (Perm_eqb (permissionOf availableNotes filename) rw); simpl; lia.
      * unfold Batch.listedAs. simpl.
        destruct (Perm_eqb (permissionOf availableNotes filename) ro); simpl; lia.
    + simpl. now rewrite Hname, Hnames.
    + now constructor.
Qed.

End BatchRead.




Section Trim.

Lemma trimEnd_idempotent (s : string) : JS.trimEnd (JS.trimEnd s) = JS.trimEnd s.
Proof.
  induction s as [| c s IH]; [reflexivity |]. simpl.
  destruct (JS.isSpace c && String.eqb (JS.trimEnd s) EmptyString) eqn:Hdrop;
    [reflexivity |].
  simpl. now rewrite IH, Hdrop.
Qed.

Lemma trimStart_head (s : string) :
  JS.trimStart s = EmptyString \/
  exists c rest, JS.trimStart s = String c rest /\ JS.isSpace c = false.
Proof.
  induction s as [| c s IH]; [now left |]. simpl.
  destruct (JS.isSpace c) eqn:Hspace; [exact IH |]. right. eauto.
Qed.

Lemma trim_idempotent (s : string) : JS.trim (JS.trim s) = JS.trim s.
Proof.
  unfold JS.trim.
  destruct (trimStart_head s) as [-> | (c & rest & -> & Hc)]; [reflexivity |].
  assert (Hhead : JS.trimEnd (String c rest) = String c (JS.trimEnd rest))
    by (simpl; now rewrite Hc).
  rewrite Hhead at 1. simpl JS.trimStart. rewrite Hc, <- Hhead.
  apply trimEnd_idempotent.
Qed.

Lemma validateFilenames_from (filenames : list string) :
  forall valid invalid : list string,
    List.fold_left
      (fun '(valid, invalid) filename =>
         if (0 <? String.length (JS.trim filename))%nat
         then (valid ++ [JS.trim filename], invalid)
         else (valid, invalid ++ [filename]))
      filenames (valid, invalid) =
    (valid ++
     List.map JS.trim
       (List.filter (fun f => (0 <? String.length (JS.trim f))%nat) filenames),
     invalid ++
     List.filter (fun f => negb (0 <? String.length (JS.trim f))%nat) filenames).
Proof.
  induction filenames as [| f fs IH]; intros valid invalid; simpl.
  - now rewrite !app_nil_r.
  - destruct (0 <? String.length (JS.trim f))%nat; simpl; rewrite IH;
      now rewrite <- app_assoc.
Qed.

End Trim.

(** X24. [validateFilenames] splits the names in two, each part in the
    order of the request: the names that are not blank, trimmed, and the
    blank names as they are. So no name is lost, a valid name is not empty
    and has no white space left at either end, and an invalid name holds
    nothing but white space. *)
Theorem validateFilenames_partitions (filenames : list string) :
  let nonBlank := fun f => (0 <? String.length (JS.trim f))%nat in
  let valid := fst (NoteResolver.validateFilenames filenames) in
  let invalid := snd (NoteResolver.validateFilenames filenames) in
  valid = List.map JS.trim (List.filter nonBlank filenames) /\
  invalid = List.filter (fun f => negb (nonBlank f)) filenames /\
  (List.length valid + List.length invalid = List.length filenames)%nat /\
  Forall (fun name => name <> EmptyString /\ JS.trim name = name) valid /\
  Forall (fun name => JS.trim name = EmptyString) invalid.
Proof.
  cbv zeta. unfold NoteResolver.validateFilenames.
  rewrite validateFilenames_from. simpl fst. simpl snd.
  split; [reflexivity |]. split; [reflexivity |]. split; [| split].
  - rewrite length_map. induction filenames as [| f fs IH]; [reflexivity |].
    simpl. destruct (0 <? String.length (JS.trim f))%nat; simpl; lia.
  - apply List.Forall_forall. intros name Hin.
    apply List.in_map_iff in Hin as (f & <- & Hin).
    apply List.filter_In in Hin as (_ & Hlen). apply Nat.ltb_lt in Hlen.
    split; [| apply trim_idempotent].
    intros Hempty. rewrite Hempty in Hlen. simpl in Hlen. lia.
  - apply List.Forall_forall. intros name Hin.
    apply List.filter_In in Hin as (_ & Hlen).
    apply Bool.negb_true_iff, Nat.ltb_ge in Hlen.
    destruct (JS.trim name); [reflexivity | simpl in Hlen; lia].
Qed.





Section BatchCalls.

Import ContentManager.

Variable remote : Remote.
Variable request : MultiNoteRequest.t.
Variable availableNotes : list NoteInfo.t.

Lemma readOne_quiet (filename : string) (p : Progress) (rt : Runtime) :
  MultiNoteRequest.includeContent request = Some false ->
  snd (readOne remote request availableNotes filename p rt) = rt.
Proof.
  intros Hoff. unfold readOne, tryCatch. rewrite Hoff. reflexivity.
Qed.

Lemma readOne_direct (filename : string) (p : Progress) (rt : Runtime) :
  notFalse (MultiNoteRequest.includeContent request) = true ->
  MultiNoteRequest.enableCaching request = Some false ->
  requests (snd (readOne remote request availableNotes filename p rt)) =
    requests rt ++ [GetNote filename] /\
  contentCache (snd (readOne remote request availableNotes filename p rt)) =
    contentCache rt.
Proof.
  intros Hinc Hoff. unfold readOne, tryCatch, bind. rewrite Hinc, Hoff. simpl.
  pose proof (readNoteAPI_effect remote filename rt) as Heffect.
  destruct (Api.readNoteAPI remote filename rt) as [[body | e] rt']; exact Heffect.
Qed.

Lemma readOne_cached (filename : string) (p : Progress) (rt : Runtime) :
  notFalse (MultiNoteRequest.includeContent request) = true ->
  notFalse (MultiNoteRequest.enableCaching request) = true ->
  let rt' := snd (readOne remote request availableNotes filename p rt) in
  listingCalls (requests rt') = S (listingCalls (requests rt)) /\
  (bodyReads (requests rt') <= S (bodyReads (requests rt)))%nat /\
  writes (requests rt') = writes (requests rt).
Proof.
  intros Hinc Hon. unfold readOne, tryCatch, bind. rewrite Hinc, Hon. simpl.
  pose proof (getCachedNoteContent_effect remote filename rt) as Heffect.
  destruct (Cache.getCachedNoteContent remote filename true rt) as [[body | e] rt'];
    simpl in *;
    destruct Heffect as [(Hreq & _) | (Hreq & _)]; rewrite Hreq; count_calls.
Qed.

Lemma forEach_snd (filenames : list string) (p : Progress) (rt : Runtime)
    (Inv : Runtime -> list string -> Runtime -> Prop) :
  (forall rt0, Inv rt0 [] rt0) ->
  (forall filename q rt0 more rt1,
      Inv (snd (readOne remote request availableNotes filename q rt0)) more rt1 ->
      Inv rt0 (filename :: more) rt1) ->
  Inv rt filenames
    (snd (forEach (readOne remote request availableNotes) filenames p rt)).
Proof.
  intros Hnil Hcons. revert p rt.
  induction filenames as [| filename more IH]; intros p rt; [apply Hnil |].
  apply (Hcons filename p). simpl forEach. unfold bind at 1.
  destruct (readOne_returns remote request availableNotes filename p rt)
    as (r & rt1 & Hone & _).
  rewrite Hone. simpl. apply IH.
Qed.

End BatchCalls.

(** X26. What [batchReadNotes] asks of the note store. With
    [includeContent] set to [false] it issues no call and touches nothing,
    and every note succeeds. Otherwise, with [enableCaching] set to [false]
    it issues exactly one body read per name, in the order of the request,
    and leaves the cache alone; with caching it issues one listing call
    per name, at most one body read per name and no write. *)
Theorem batchReadNotes_calls (remote : Remote) (filenames : list string)
    (request : MultiNoteRequest.t) (availableNotes : list NoteInfo.t)
    (rt : Runtime) :
  let out := ContentManager.batchReadNotes remote filenames request availableNotes rt in
  (MultiNoteRequest.includeContent request = Some false ->
   snd out = rt /\
   exists response,
     fst out = Returns response /\
     MultiNoteResponse.successCount response = Z.of_nat (List.length filenames) /\
     MultiNoteResponse.errors response = None) /\
  (MultiNoteRequest.includeContent request <> Some false ->
   MultiNoteRequest.enableCaching request = Some false ->
   requests (snd out) = requests rt ++ List.map GetNote filenames /\
   contentCache (snd out) = contentCache rt) /\
  (MultiNoteRequest.includeContent request <> Some false ->
   MultiNoteRequest.enableCaching request <> Some false ->
   listingCalls (requests (snd out)) =
     (listingCalls (requests rt) + List.length filenames)%nat /\
   (bodyReads (requests (snd out)) <=
      bodyReads (requests rt) + List.length filenames)%nat /\
   writes (requests (snd out)) = writes (requests rt)).
Proof.
  assert (HnotFalse : forall flag, flag <> Some false -> notFalse flag = true)
    by (intros [[|] |]; simpl; congruence).
  assert (Hsnd :
    snd (ContentManager.batchReadNotes remote filenames request availableNotes rt) =
    snd (forEach (ContentManager.readOne remote request availableNotes) filenames
           ContentManager.start rt)).
  { unfold ContentManager.batchReadNotes, bind.
    destruct (forEach_readOne remote request availableNotes filenames
                ContentManager.start rt) as (rs & rt' & Hrun & _).
    now rewrite Hrun. }
  cbv zeta. rewrite Hsnd. split; [| split].
  - intros Hoff. split.
    + apply (forEach_snd remote request availableNotes filenames
               ContentManager.start rt (fun rt0 _ rt1 => rt1 = rt0)).
      * reflexivity.
      * intros filename q rt0 more rt1 Hrest.
        now rewrite Hrest, readOne_quiet.
    + unfold ContentManager.batchReadNotes, bind.
      destruct (forEach_readOne remote request availableNotes filenames
                  ContentManager.start rt) as (rs & rt' & Hrun & Hnames & Hshapes).
      rewrite Hrun. eexists. split; [reflexivity |]. simpl.
      assert (Hnone : Batch.failures rs = []).
      { clear Hrun Hnames. induction Hshapes as [| r rs' Hshape _ IH]; [reflexivity |].
        rewrite failures_cons.
        unfold Batch.wellShaped in Hshape.
        destruct (NoteResult.error r) as [failure |] eqn:Herr; [| exact IH].
        now destruct Hshape as (Hon & _). }
      rewrite Hnone. simpl.
      split; [| reflexivity].
      rewrite <- Hnames, length_map. lia.
  - intros Hinc Hoff.
    apply (forEach_snd remote request availableNotes filenames
             ContentManager.start rt
             (fun rt0 names rt1 =>
                requests rt1 = requests rt0 ++ List.map GetNote names /\
                contentCache rt1 = contentCache rt0)).
    + intros rt0. now rewrite app_nil_r.
    + intros filename q rt0 more rt1 (Hreq & Hcache).
      destruct (readOne_direct remote request availableNotes filename q rt0
                  (HnotFalse _ Hinc) Hoff) as (Hreq1 & Hcache1).
      rewrite Hreq, Hcache, Hreq1, Hcache1. simpl.
      now rewrite <- app_assoc.
  - intros Hinc Hon.
    apply (forEach_snd remote request availableNotes filenames
             ContentManager.start rt
             (fun rt0 names rt1 =>
                listingCalls (requests rt1) =
                  (listingCalls (requests rt0) + List.length names)%nat /\
                (bodyReads (requests rt1) <=
                   bodyReads (requests rt0) + List.length names)%nat /\
                writes (requests rt1) = writes (requests rt0))).
    + intros rt0. simpl List.length. lia.
    + intros filename q rt0 more rt1 (Hlist & Hreads & Hwrites).
      destruct (readOne_cached remote request availableNotes filename q rt0
                  (HnotFalse _ Hinc) (HnotFalse _ Hon)) as (Hlist1 & Hreads1 & Hwrites1).
      simpl List.length. lia.
Qed.

Lemma batchReadNotes_calls_witness :
  requests
    (snd (ContentManager.batchReadNotes Sample.store ["a.md"; "b.md"]
            (MultiNoteRequest.mk None None None None None (Some false) None)
            [] Sample.fresh)) =
  [GetNote "a.md"; GetNote "b.md"].
Proof.
  refine (proj1 (proj1 (proj2 (batchReadNotes_calls Sample.store ["a.md"; "b.md"]
                   (MultiNoteRequest.mk None None None None None (Some false) None)
                   [] Sample.fresh)) _ eq_refl)).
  discriminate.
Defined.

Section BatchAnswer.

Import ContentManager.

Variable remote : Remote.
Variable request : MultiNoteRequest.t.
Variable availableNotes : list NoteInfo.t.












End BatchAnswer.






(** ** Multi-note utilities: resolving names *)

Section SetAdd.

Import NoteResolver.











End SetAdd.

Lemma listNotesAPI_listing (remote : Remote) (rt : Runtime) :
  exists outcome lines,
    Api.listNotesAPI remote rt =
      (outcome,
       {| contentCache := contentCache rt;
          requests := requests rt ++ [GetIndex];
          console := console rt ++ lines |}) /\
    forall notes,
      outcome = Returns notes ->
      lines = [] /\
      Forall (fun note => JS.endsWith (NoteInfo.name note) ".md" = true) notes.
Proof.
  unfold Api.listNotesAPI, Api.handleFetchError, Api.handleResponseError,
    bind, send, consoleError, throw, ret.
  destruct (GET_index remote) as [cause | [cause | files] | status statusText [cause | text]];
    simpl.
  - eexists _, [_]. split; [reflexivity | discriminate].
  - eexists _, [_; _]. split; [now rewrite <- app_assoc | discriminate].
  - eexists _, []. split; [now rewrite app_nil_r |].
    intros notes Hnotes. injection Hnotes as <-. split; [reflexivity |].
    apply Forall_map. simpl. apply filter_md_Forall.
  - eexists _, []. split; [now rewrite app_nil_r | discriminate].
  - eexists _, [_]. split; [reflexivity | discriminate].
Qed.

Section Resolve.

Import NoteResolver.

Variable remote : Remote.
Variable E : Engine.

(** The names collected before the limit is applied. *)
Lemma resolveNotes_collects (request : MultiNoteRequest.t) (rt : Runtime)
    (allNotes : list NoteInfo.t) (rt1 : Runtime) :
  Api.listNotesAPI remote rt = (Returns allNotes, rt1) ->
  let collected :=
    addAll (matched (Resolved.passes E (MultiNoteRequest.namePattern request))
              allNotes)
      (addAll (List.map normalize (Resolved.requested request)) []) in
  resolveNotes remote E request rt =
    (Returns
       (match MultiNoteRequest.maxResults request with
        | Some limit =>
            if limit =? 0 then collected else JS.slice collected 0 limit
        | None => collected
        end),
     {| contentCache := contentCache rt1;
        requests := requests rt1;
        console :=
          console rt1 ++
          Resolved.warnings E (MultiNoteRequest.namePattern request) |}).
Proof.
  intros Hlist. cbv zeta. unfold resolveNotes. unfold bind at 1. rewrite Hlist.
  assert (Hsame : forall rt0 : Runtime,
            rt0 = {| contentCache := contentCache rt0; requests := requests rt0;
                     console := console rt0 ++ [] |})
    by (intros [? ? ?]; simpl; now rewrite app_nil_r).
  assert (Hempty : forall l : list NoteInfo.t, matched (fun _ => false) l = []).
  { intros l. unfold matched. induction l; simpl; auto. }
  assert (Hrequested :
    match MultiNoteRequest.filenames request with
    | Some filenames => addAll (List.map normalize filenames) []
    | None => []
    end = addAll (List.map normalize (Resolved.requested request)) []).
  { unfold Resolved.requested. now destruct (MultiNoteRequest.filenames request). }
  rewrite Hrequested.
  set (base := addAll (List.map normalize (Resolved.requested request)) []).
  unfold Resolved.passes, Resolved.warnings.
  destruct (MultiNoteRequest.namePattern request) as [pattern |] eqn:Hpat.
  - destruct (JS.truthy pattern) eqn:Htruthy.
    + destruct (compile E pattern {| global := false; ignoreCase := true |})
        as [r |] eqn:Hcompile.
      * unfold bind, ret. rewrite <- Hsame. reflexivity.
      * unfold bind, ret, consoleWarn, consoleError. reflexivity.
    + unfold bind, ret. rewrite <- Hsame. simpl. now rewrite Hempty.
  - unfold bind, ret. rewrite <- Hsame. now rewrite Hempty.
Qed.

Lemma resolveNotes_throws (request : MultiNoteRequest.t) (rt : Runtime)
    (e : Error) (rt1 : Runtime) :
  Api.listNotesAPI remote rt = (Throws e, rt1) ->
  resolveNotes remote E request rt = (Throws e, rt1).
Proof.
  intros Hlist. unfold resolveNotes. unfold bind at 1. now rewrite Hlist.
Qed.

End Resolve.



Lemma slice_limit {A} (l : list A) (limit : Z) :
  limit <> 0 ->
  JS.slice l 0 limit =
    if 0 <? limit then take (Z.to_nat limit) l
    else take (List.length l - Z.to_nat (- limit)) l.
Proof.
  intros Hzero. unfold JS.slice, JS.relativeIndex.
  change (0 <? 0) with false. cbv iota.
  replace (Z.min 0 (Z.of_nat (List.length l))) with 0 by lia.
  change (Z.to_nat 0) with 0%nat. rewrite skipn_O.
  destruct (0 <? limit) eqn:Hpos.
  - apply Z.ltb_lt in Hpos.
    destruct (limit <? 0) eqn:Hneg; [apply Z.ltb_lt in Hneg; lia |].
    destruct (Z_le_gt_dec limit (Z.of_nat (List.length l))) as [Hle | Hgt].
    + f_equal. lia.
    + rewrite !firstn_all2 by lia. reflexivity.
  - apply Z.ltb_ge in Hpos.
    destruct (limit <? 0) eqn:Hneg; [| apply Z.ltb_ge in Hneg; lia].
    f_equal. lia.
Qed.

(** X28. What [maxResults] does to the names [resolveNotes] returns: 0 is
    no limit; a positive limit keeps that many of the first names; a
    negative limit drops that many of the last names. The limit changes
    nothing else: neither the calls, nor the warning, nor the failure. *)
Theorem resolveNotes_limit (remote : Remote) (E : Engine)
    (request : MultiNoteRequest.t) (rt : Runtime) (limit : Z) :
  let unlimited :=
    NoteResolver.resolveNotes remote E (Resolved.withLimit None request) rt in
  let limited :=
    NoteResolver.resolveNotes remote E (Resolved.withLimit (Some limit) request) rt in
  snd limited = snd unlimited /\
  (forall e, fst unlimited = Throws e -> fst limited = Throws e) /\
  (forall names,
      fst unlimited = Returns names ->
      fst limited =
        Returns
          (if limit =? 0 then names
           else if 0 <? limit then take (Z.to_nat limit) names
           else take (List.length names - Z.to_nat (- limit)) names)).
Proof.
  cbv zeta.
  destruct (Api.listNotesAPI remote rt) as [[allNotes | e] rt1] eqn:Hlist.
  - pose proof (resolveNotes_collects remote E (Resolved.withLimit None request)
                  rt allNotes rt1 Hlist) as Hfree.
    pose proof (resolveNotes_collects remote E
                  (Resolved.withLimit (Some limit) request) rt allNotes rt1 Hlist)
      as Hbound.
    cbv zeta in Hfree, Hbound. rewrite Hfree, Hbound. simpl.
    split; [reflexivity |]. split; [discriminate |].
    intros names Hnames. injection Hnames as <-.
    f_equal. unfold Resolved.requested. simpl.
    destruct (limit =? 0) eqn:Hzero; [reflexivity |].
    apply Z.eqb_neq in Hzero. now apply slice_limit.
  - rewrite (resolveNotes_throws remote E _ rt e rt1 Hlist).
    rewrite (resolveNotes_throws remote E _ rt e rt1 Hlist).
    split; [reflexivity |]. split; [auto | discriminate].
Qed.

Lemma resolveNotes_limit_witness :
  fst (NoteResolver.resolveNotes Sample.store Pattern.literalEngine
         (Resolved.withLimit (Some 2)
            (MultiNoteRequest.mk (Some ["a"; "b.md"; "c"]) None None None None
               None None))
         Sample.fresh) =
  Returns ["a.md"; "b.md"].
Proof.
  exact (proj2 (proj2 (resolveNotes_limit Sample.store Pattern.literalEngine
                         (MultiNoteRequest.mk (Some ["a"; "b.md"; "c"]) None None
                            None None None None)
                         Sample.fresh 2))
           ["a.md"; "b.md"; "c.md"] eq_refl).
Defined.

(** X29. [resolveNotes] issues one listing call and nothing else, leaves
    the cache alone, and fails exactly when that call fails, with the same
    error. A malformed name pattern is no failure: once the listing has
    answered, all it adds is one warning on the console. *)
Theorem resolveNotes_fails_only_with_listing (remote : Remote) (E : Engine)
    (request : MultiNoteRequest.t) (rt : Runtime) :
  let out := NoteResolver.resolveNotes remote E request rt in
  requests (snd out) = requests rt ++ [GetIndex] /\
  contentCache (snd out) = contentCache rt /\
  (forall e, fst out = Throws e <-> fst (Api.listNotesAPI remote rt) = Throws e) /\
  (forall allNotes,
      fst (Api.listNotesAPI remote rt) = Returns allNotes ->
      console (snd out) =
        console rt ++ Resolved.warnings E (MultiNoteRequest.namePattern request)).
Proof.
  cbv zeta.
  destruct (listNotesAPI_listing remote rt) as (outcome & lines & Hlist & Hquiet).
  destruct outcome as [allNotes | e].
  - pose proof (resolveNotes_collects remote E request rt allNotes _ Hlist) as Hrun.
    cbv zeta in Hrun. rewrite Hrun, Hlist. simpl.
    destruct (Hquiet allNotes eq_refl) as (-> & _).
    repeat split; try discriminate.
    intros _ _. now rewrite app_nil_r.
  - rewrite (resolveNotes_throws remote E request rt e _ Hlist), Hlist. simpl.
    split; [reflexivity |]. split; [reflexivity |]. split; [intros e0; split; intros H; injection H as <-; reflexivity | discriminate].
Qed.

Lemma resolveNotes_fails_only_with_listing_witness :
  console
    (snd (NoteResolver.resolveNotes Sample.store Pattern.literalEngine
            (MultiNoteRequest.mk None (Some "a(") None None None None None)
            Sample.fresh)) =
  [{| tag := "[NoteResolver] Invalid regex pattern"; subject := "a(" |}].
Proof.
  exact (proj2 (proj2 (proj2 (resolveNotes_fails_only_with_listing Sample.store
                                Pattern.literalEngine
                                (MultiNoteRequest.mk None (Some "a(") None None
                                   None None None)
                                Sample.fresh)))
           [NoteInfo.mk "a.md" rw] eq_refl).
Defined.

(** ** Edit distance *)

Section Distance.

Import Levenshtein.

Variables str1 str2 : string.

Let n1 := String.length str1.
Let n2 := String.length str2.


Lemma put_spec (matrix : list (list Cell)) (j i : nat) (v : Z) :
  Filling.shaped str1 str2 matrix -> (j <= n2)%nat -> (i <= n1)%nat ->
  exists matrix',
    put matrix j i v = Some matrix' /\
    Filling.shaped str1 str2 matrix' /\
    element matrix' j i = Some (Num v) /\
    forall j' i', (j', i') <> (j, i) -> element matrix' j' i' = element matrix j' i'.
Proof.
  intros (Hrows & Hcols) Hj Hi. unfold put.
  destruct (matrix !! j) as [row |] eqn:Hrow.
  2: { apply lookup_ge_None in Hrow. lia. }
  pose proof (Hcols j row Hrow) as Hlen.
  assert (Hassign : assign row i v = <[i := Num v]> row).
  { unfold assign. destruct (i <? List.length row)%nat eqn:Hlt; [reflexivity |].
    apply Nat.ltb_ge in Hlt. lia. }
  rewrite Hassign. eexists. split; [reflexivity |]. split; [| split].
  - split.
    + now rewrite length_insert.
    + intros j' row' Hlook. destruct (decide (j' = j)) as [-> | Hne].
      * rewrite list_lookup_insert_eq in Hlook by (apply lookup_lt_Some in Hrow; lia).
        injection Hlook as <-. now rewrite length_insert.
      * rewrite list_lookup_insert_ne in Hlook by congruence. eauto.
  - unfold element.
    rewrite list_lookup_insert_eq by (apply lookup_lt_Some in Hrow; lia).
    apply list_lookup_insert_eq. lia.
  - intros j' i' Hne. unfold element.
    destruct (decide (j' = j)) as [-> | Hnej].
    + rewrite list_lookup_insert_eq by (apply lookup_lt_Some in Hrow; lia).
      rewrite Hrow. apply list_lookup_insert_ne. congruence.
    + now rewrite list_lookup_insert_ne by congruence.
Qed.

Lemma forUpTo_invariant {T} (body : nat -> T -> option T) (I : nat -> T -> Prop)
    (count : nat) :
  forall (from : nat) (s : T),
    I from s ->
    (forall k s0, (from <= k < from + count)%nat -> I k s0 ->
                  exists s', body k s0 = Some s' /\ I (S k) s') ->
    exists s', forUpTo body from count s = Some s' /\ I (from + count)%nat s'.
Proof.
  induction count as [| count IH]; intros from s Hstart Hstep; simpl.
  - exists s. now rewrite Nat.add_0_r.
  - destruct (Hstep from s ltac:(lia) Hstart) as (s1 & -> & Hnext).
    destruct (IH (S from) s1 Hnext) as (s' & Hrun & Hend).
    + intros k s0 Hk. apply Hstep. lia.
    + exists s'. split; [exact Hrun |].
      now replace (from + S count)%nat with (S from + count)%nat by lia.
Qed.

Lemma table_row0 (i : nat) : table str1 str2 0 i = Z.of_nat i.
Proof. reflexivity. Qed.

Lemma table_column0 (j : nat) : table str1 str2 j 0 = Z.of_nat j.
Proof. now destruct j. Qed.

Lemma table_step (j i : nat) :
  table str1 str2 (S j) (S i) =
  Z.min (table str1 str2 (S j) i + 1)
    (Z.min (table str1 str2 j (S i) + 1)
       (table str1 str2 j i +
        (if same (String.get i str1) (String.get j str2) then 0 else 1))).
Proof. reflexivity. Qed.

Lemma created_shaped : Filling.shaped str1 str2 (replicate (n2 + 1) (filled (n1 + 1))).
Proof.
  split.
  - rewrite length_replicate. lia.
  - intros j row Hrow. apply lookup_replicate in Hrow as (-> & _).
    unfold filled. rewrite length_replicate. lia.
Qed.

Lemma first_row :
  exists matrix,
    forUpTo (fun i matrix => put matrix 0 i (Z.of_nat i)) 0 (n1 + 1)
      (replicate (n2 + 1) (filled (n1 + 1))) = Some matrix /\
    Filling.shaped str1 str2 matrix /\
    forall i, (i <= n1)%nat -> element matrix 0 i = Some (Num (Z.of_nat i)).
Proof.
  destruct (forUpTo_invariant
              (fun i matrix => put matrix 0 i (Z.of_nat i))
              (fun k matrix =>
                 Filling.shaped str1 str2 matrix /\
                 forall i, (i < k)%nat -> element matrix 0 i = Some (Num (Z.of_nat i)))
              (n1 + 1) 0 (replicate (n2 + 1) (filled (n1 + 1))))
    as (matrix & Hrun & Hshaped & Hrow).
  - split; [apply created_shaped | intros i Hi; lia].
  - intros k matrix Hk (Hshaped & Hrow).
    destruct (put_spec matrix 0 k (Z.of_nat k) Hshaped)
      as (m' & Hput & Hs' & Hset & Hrest);
      [lia | lia |].
    exists m'. split; [exact Hput |]. split; [exact Hs' |].
    intros i Hi. destruct (decide (i = k)) as [-> | Hne]; [exact Hset |].
    rewrite Hrest by congruence. apply Hrow. lia.
  - exists matrix. split; [exact Hrun |]. split; [exact Hshaped |].
    intros i Hi. apply Hrow. lia.
Qed.

Lemma first_column (matrix : list (list Cell)) :
  Filling.shaped str1 str2 matrix ->
  (forall i, (i <= n1)%nat -> element matrix 0 i = Some (Num (Z.of_nat i))) ->
  exists matrix',
    forUpTo (fun j matrix => put matrix j 0 (Z.of_nat j)) 0 (n2 + 1) matrix =
      Some matrix' /\
    Filling.known str1 str2 1 0 matrix'.
Proof.
  intros Hshaped Hrow.
  destruct (forUpTo_invariant
              (fun j matrix => put matrix j 0 (Z.of_nat j))
              (fun k matrix =>
                 Filling.shaped str1 str2 matrix /\
                 (forall i, (i <= n1)%nat ->
                            element matrix 0 i = Some (Num (Z.of_nat i))) /\
                 forall j, (j < k)%nat -> element matrix j 0 = Some (Num (Z.of_nat j)))
              (n2 + 1) 0 matrix)
    as (matrix' & Hrun & Hshaped' & Hrow' & Hcol').
  - split; [exact Hshaped |]. split; [exact Hrow | intros j Hj; lia].
  - intros k m Hk (Hs & Hr & Hc).
    destruct (put_spec m k 0 (Z.of_nat k) Hs) as (m' & Hput & Hs' & Hset & Hrest);
      [lia | lia |].
    exists m'. split; [exact Hput |]. split; [exact Hs' |]. split.
    + intros i Hi. destruct (decide ((0, i) = (k, 0))%nat) as [Heq | Hne].
      * injection Heq as <- ->. exact Hset.
      * rewrite Hrest by exact Hne. now apply Hr.
    + intros j Hj. destruct (decide (j = k)) as [-> | Hne]; [exact Hset |].
      rewrite Hrest by congruence. apply Hc. lia.
  - exists matrix'. split; [exact Hrun |]. split; [exact Hshaped' |].
    split; [| split].
    + intros j' i' Hj' Hi'. replace j' with 0%nat by lia.
      rewrite table_row0. now apply Hrow'.
    + intros i' Hi'. lia.
    + intros j' Hj'. rewrite table_column0. apply Hcol'. lia.
Qed.

Lemma number_known (matrix : list (list Cell)) (j i : nat) (v : Z) :
  element matrix j i = Some (Num v) -> number matrix j i = Some v.
Proof. intros Hel. unfold number. now rewrite Hel. Qed.

Lemma fill_step (j i : nat) (matrix : list (list Cell)) :
  (1 <= j <= n2)%nat -> (1 <= i <= n1)%nat ->
  Filling.known str1 str2 j i matrix ->
  exists matrix',
    fill str1 str2 j i matrix = Some matrix' /\
    Filling.known str1 str2 j (S i) matrix'.
Proof.
  intros Hj Hi (Hshaped & Hrows & Hrow & Hcol).
  destruct j as [| j]; [lia |]. destruct i as [| i]; [lia |].
  unfold fill, indicator. simpl Nat.sub. rewrite !Nat.sub_0_r.
  rewrite (number_known matrix (S j) i _ (Hrow i ltac:(lia) ltac:(lia))).
  rewrite (number_known matrix j (S i) _ (Hrows j (S i) ltac:(lia) ltac:(lia))).
  rewrite (number_known matrix j i _ (Hrows j i ltac:(lia) ltac:(lia))).
  rewrite <- table_step.
  destruct (put_spec matrix (S j) (S i) (table str1 str2 (S j) (S i)) Hshaped)
    as (m' & Hput & Hs' & Hset & Hrest); [lia | lia |].
  exists m'. split; [exact Hput |]. split; [exact Hs' |]. split; [| split].
  - intros j' i' Hj' Hi'. rewrite Hrest by (intros Heq; injection Heq; lia).
    now apply Hrows.
  - intros i' Hi' _. destruct (decide (i' = S i)) as [-> | Hne]; [exact Hset |].
    rewrite Hrest by congruence. apply Hrow; lia.
  - intros j' Hj'. rewrite Hrest by (intros Heq; injection Heq; lia).
    now apply Hcol.
Qed.

Lemma fill_row (j : nat) (matrix : list (list Cell)) :
  (1 <= j <= n2)%nat ->
  Filling.known str1 str2 j 0 matrix ->
  exists matrix',
    forUpTo (fill str1 str2 j) 1 n1 matrix = Some matrix' /\
    Filling.known str1 str2 (S j) 0 matrix'.
Proof.
  intros Hj Hknown.
  destruct (forUpTo_invariant (fill str1 str2 j) (Filling.known str1 str2 j) n1 1 matrix)
    as (matrix' & Hrun & Hshaped & Hrows & Hrow & Hcol).
  - destruct Hknown as (Hshaped & Hrows & _ & Hcol).
    split; [exact Hshaped |]. split; [exact Hrows |]. split; [| exact Hcol].
    intros i' Hi' _. replace i' with 0%nat by lia. apply Hcol. lia.
  - intros k m Hk Hm. apply fill_step; [exact Hj | lia | exact Hm].
  - exists matrix'. split; [exact Hrun |]. split; [exact Hshaped |].
    split; [| split; [intros i' Hi'; lia | exact Hcol]].
    intros j' i' Hj' Hi'. destruct (decide (j' = j)) as [-> | Hne].
    + apply Hrow; lia.
    + apply Hrows; lia.
Qed.

(** The loops compute the recurrence and never read an element that is
    not there. *)
Lemma levenshteinDistance_table :
  levenshteinDistance str1 str2 =
    Some (table str1 str2 (String.length str2) (String.length str1)).
Proof.
  unfold levenshteinDistance. fold n1 n2.
  destruct first_row as (m1 & -> & Hshaped & Hrow).
  destruct (first_column m1 Hshaped Hrow) as (m2 & -> & Hknown).
  destruct (forUpTo_invariant
              (fun j matrix => forUpTo (fill str1 str2 j) 1 n1 matrix)
              (fun j matrix => Filling.known str1 str2 j 0 matrix) n2 1 m2 Hknown)
    as (m3 & -> & _ & Hrows & _).
  - intros k m Hk Hm. apply fill_row; [lia | exact Hm].
  - apply number_known. apply Hrows; lia.
Qed.

End Distance.

Section Recurrence.

Import Levenshtein.

Lemma same_eq (a b : option ascii) : same a b = true <-> a = b.
Proof.
  destruct a as [x |], b as [y |]; simpl; try (split; congruence).
  rewrite Ascii.eqb_eq. split; congruence.
Qed.

Lemma same_sym (a b : option ascii) : same a b = same b a.
Proof.
  destruct a as [x |], b as [y |]; simpl; try reflexivity.
  apply Ascii.eqb_sym.
Qed.

Lemma table_bounds (str1 str2 : string) (j : nat) :
  forall i,
    Z.abs (Z.of_nat i - Z.of_nat j) <= table str1 str2 j i <=
    Z.max (Z.of_nat i) (Z.of_nat j).
Proof.
  induction j as [| j IHj]; intros i.
  - rewrite table_row0. lia.
  - induction i as [| i IHi].
    + rewrite table_column0. lia.
    + rewrite table_step.
      pose proof (IHj (S i)). pose proof (IHj i).
      destruct (same (String.get i str1) (String.get j str2)); lia.
Qed.

Lemma table_sym (str1 str2 : string) (j : nat) :
  forall i, table str1 str2 j i = table str2 str1 i j.
Proof.
  induction j as [| j IHj]; intros i.
  - now rewrite table_row0, table_column0.
  - induction i as [| i IHi].
    + now rewrite table_row0, table_column0.
    + rewrite !table_step, IHi, (IHj (S i)), (IHj i).
      rewrite (same_sym (String.get i str1)). lia.
Qed.

Lemma table_zero (str1 str2 : string) (j : nat) :
  forall i,
    table str1 str2 j i = 0 <->
    i = j /\ forall k, (k < i)%nat -> String.get k str1 = String.get k str2.
Proof.
  induction j as [| j IHj]; intros i.
  - rewrite table_row0. split.
    + intros Hzero. split; [lia |]. intros k Hk. lia.
    + intros (-> & _). reflexivity.
  - destruct i as [| i].
    + rewrite table_column0. split; [lia | intros (Habs & _); lia].
    + rewrite table_step.
      pose proof (table_bounds str1 str2 (S j) i) as Hleft.
      pose proof (table_bounds str1 str2 j (S i)) as Hup.
      pose proof (table_bounds str1 str2 j i) as Hdiag.
      pose proof (same_eq (String.get i str1) (String.get j str2)) as Hsame.
      specialize (IHj i).
      destruct (same (String.get i str1) (String.get j str2)).
      * split.
        -- intros Hzero. assert (Hd : table str1 str2 j i = 0) by lia.
           apply IHj in Hd as (-> & Hprefix). split; [reflexivity |].
           intros k Hk. destruct (decide (k = j)) as [-> | Hne].
           ++ now apply Hsame.
           ++ apply Hprefix. lia.
        -- intros (Heq & Hprefix). injection Heq as ->.
           assert (Hd : table str1 str2 j j = 0).
           { apply IHj. split; [reflexivity |]. intros k Hk. apply Hprefix. lia. }
           lia.
      * split; [lia |].
        intros (Heq & Hprefix). injection Heq as ->.
        assert (Habs : String.get j str1 = String.get j str2) by (apply Hprefix; lia).
        apply Hsame in Habs. discriminate.
Qed.

Lemma get_past_end (s : string) :
  forall k, (String.length s <= k)%nat -> String.get k s = None.
Proof.
  induction s as [| c s IH]; intros k Hk; [now destruct k |].
  destruct k as [| k]; simpl in *; [lia |]. apply IH. lia.
Qed.

End Recurrence.

(** X30. [levenshteinDistance] always returns a number: it never reaches
    into a row that is not there and never computes with a missing
    element. The number is the entry of the recurrence of Wagner and
    Fischer for the two whole strings. It does not depend on the order of the strings, lies between
    the difference of the lengths and the greater length, so that the
    distance to the empty string is the length, and is 0 exactly when the
    strings are equal. *)
Theorem levenshteinDistance_is_a_distance (str1 str2 : string) :
  exists d,
    Levenshtein.levenshteinDistance str1 str2 = Some d /\
    d = Levenshtein.table str1 str2 (String.length str2) (String.length str1) /\
    Levenshtein.levenshteinDistance str2 str1 = Some d /\
    Z.abs (Z.of_nat (String.length str1) - Z.of_nat (String.length str2)) <= d /\
    d <= Z.max (Z.of_nat (String.length str1)) (Z.of_nat (String.length str2)) /\
    (d = 0 <-> str1 = str2).
Proof.
  eexists. split; [apply levenshteinDistance_table |]. split; [reflexivity |].
  split; [| split; [| split]].
  - rewrite levenshteinDistance_table. f_equal. apply eq_sym, table_sym.
  - apply table_bounds.
  - apply table_bounds.
  - rewrite table_zero. split.
    + intros (Hlen & Hprefix). apply String.get_correct. intros k.
      destruct (Nat.lt_ge_cases k (String.length str1)) as [Hlt | Hge].
      * now apply Hprefix.
      * rewrite !get_past_end by lia. reflexivity.
    + intros ->. split; reflexivity.
Qed.
